(** * hvplot.interactive: the expression-recording wrapper

    A shallow embedding of [src/hvplot/interactive.py].  The wrapper class
    [Interactive] records attribute accesses, calls, operators and indexing
    as a HoloViews "dim" transform and re-applies that transform to the
    wrapped object.  Wrapper instances are mutable Python objects, so they
    live in a heap and every method is a computation in a state-and-error
    monad; exceptions keep the state reached when they were raised. *)

From Stdlib Require Import ZArith Lia.
From stdpp Require Import base option list strings numbers.

Set Warnings "-register-all".
Set Default Proof Using "Type".

(** ** Python values, exceptions and results *)

Inductive exn : Type :=
| AttributeError (msg : string)
| TypeError (msg : string)
| ValueError (msg : string)
| KeyError (msg : string)
| Unsupported (what : string).

Inductive result (A : Type) : Type :=
| Ok (a : A)
| Err (e : exn).
Arguments Ok {A} a.
Arguments Err {A} e.

Definition is_ok {A} (r : result A) : bool :=
  match r with Ok _ => true | Err _ => false end.

(** The objects that flow through a pipeline.  Frames, series and xarray
    containers are kept structural so that the class tests of the wrapper
    ([is_tabular], [is_xarray], [isinstance(obj, pd.DataFrame)]) can be
    decided; what their methods and operators compute is left to the
    [PyData] interface below. *)
Inductive value : Type :=
| VNone
| VBool (b : bool)
| VInt (z : Z)
| VStr (s : string)
| VList (xs : list value)
| VDict (kv : list (string * value))
| VSeries (xs : list value)
| VFrame (cols : list (string * list value))
| VDataArray (name : option string) (xs : list value)
| VXDataset (vars : list (string * list value))
| VBound (self : value) (meth : string)
| VAxes (figure : nat)
| VOpaque (tag : string).

(** Modelled from the spec: [hvplot.util] ([is_tabular], [is_xarray],
    [is_xarray_dataarray], [_flatten]) is imported by [interactive.py] and
    its code is missing; the three class tests follow the spec's source
    categories (tabular frame, array with a name, generic). *)
Definition is_xarray (obj : value) : bool :=
  match obj with VDataArray _ _ | VXDataset _ => true | _ => false end.

Definition is_xarray_dataarray (obj : value) : bool :=
  match obj with VDataArray _ _ => true | _ => false end.

Definition is_tabular (obj : value) : bool :=
  match obj with VFrame _ | VSeries _ => true | _ => false end.

(** [obj.name] of a DataArray ([None] when the array is unnamed). *)
Definition obj_name (obj : value) : option string :=
  match obj with VDataArray name _ => name | _ => None end.

(** [isinstance(obj, pd.DataFrame)] *)
Definition is_dataframe (obj : value) : bool :=
  match obj with VFrame _ => true | _ => false end.

(** ** The functions recorded in operator nodes

    [operator.lookup] is attribute access on Python 3's [operator] module:
    the module has no [div], [rlshift] or [rrshift]. *)
Module operator.
Inductive t : Type :=
| abs | round
| neg | not_ | inv | pos
| add | and_ | eq | floordiv | ge | gt | le | lt | lshift | mod_ | mul
| ne | or_ | rshift | pow | sub | truediv
| getitem.

Definition table : list (string * t) :=
  [("abs", abs); ("neg", neg); ("not_", not_); ("inv", inv); ("pos", pos);
   ("add", add); ("and_", and_); ("eq", eq); ("floordiv", floordiv);
   ("ge", ge); ("gt", gt); ("le", le); ("lt", lt); ("lshift", lshift);
   ("mod", mod_); ("mul", mul); ("ne", ne); ("or_", or_);
   ("rshift", rshift); ("pow", pow); ("sub", sub); ("truediv", truediv);
   ("getitem", getitem)].

Fixpoint assoc (name : string) (tbl : list (string * t)) : option t :=
  match tbl with
  | [] => None
  | (k, f) :: tbl' => if String.eqb k name then Some f else assoc name tbl'
  end.

Definition lookup (name : string) : result t :=
  match assoc name table with
  | Some f => Ok f
  | None => Err (AttributeError ("module 'operator' has no attribute '" +:+ name +:+ "'"))
  end.
End operator.

(** The [fn] slot of an operation node: a string (attribute or method
    name) or a function object. *)
Inductive pyfn : Type :=
| FAttr (name : string)
| FOper (f : operator.t).

(** ** Python dictionaries with string keys (insertion ordered) *)

Section Dict.
Context {A : Type}.

Fixpoint dict_get (d : list (string * A)) (k : string) : option A :=
  match d with
  | [] => None
  | (k', v) :: d' => if String.eqb k' k then Some v else dict_get d' k
  end.

Fixpoint dict_set (d : list (string * A)) (k : string) (v : A) : list (string * A) :=
  match d with
  | [] => [(k, v)]
  | (k', v') :: d' =>
      if String.eqb k' k then (k, v) :: d' else (k', v') :: dict_set d' k v
  end.

Fixpoint dict_del (d : list (string * A)) (k : string) : list (string * A) :=
  match d with
  | [] => []
  | (k', v) :: d' =>
      if String.eqb k' k then dict_del d' k else (k', v) :: dict_del d' k
  end.

(** [dict(d, **e)] *)
Definition dict_update (d e : list (string * A)) : list (string * A) :=
  fold_left (fun acc kv => dict_set acc (fst kv) (snd kv)) e d.

Definition dict_has (d : list (string * A)) (k : string) : bool :=
  match dict_get d k with Some _ => true | None => false end.

Definition dict_values (d : list (string * A)) : list A := map snd d.
End Dict.

(** [name in names] for a list of strings. *)
Definition str_in (name : string) (names : list string) : bool :=
  existsb (String.eqb name) names.

(** [name.startswith('_')] *)
Definition startswith_underscore (name : string) : bool :=
  match name with
  | String c _ => Ascii.eqb c (Ascii.ascii_of_nat 95)
  | EmptyString => false
  end.

(** ** Arguments of operation nodes and the dim transform *)

(** The owner of a [param.Parameter]. *)
Inductive owner : Type :=
| OwnerWidget (id : nat)
| OwnerParameterized (id : nat)
| Unowned.

Inductive dimkind : Type := plain_dim | df_dim | xr_dim.

(** Whatever can sit in the [args] and [kwargs] of an operation node:
    literal data, panel widgets, ipywidgets, parameters, the axes provider
    made by [_get_ax_fn], nested sequences and dictionaries, and other dim
    transforms. *)
Inductive arg : Type :=
| ALit (v : value)
| APanelWidget (id : nat)
| AIpyWidget (id : nat)
| AParam (name : string) (own : owner)
| AAxFn
| ASeq (xs : list arg)
| ADict (kv : list (string * arg))
| ADim (d : dim)
with dim : Type :=
| Dim (kind : dimkind) (dimension : string) (ops : list op)
with op : Type :=
| Op (fn : pyfn) (args : list arg) (kwargs : list (string * arg))
     (reverse : bool) (accessor : bool).

Abbreviation kwargs_t := (list (string * arg)).

Definition dim_kind (d : dim) : dimkind := match d with Dim k _ _ => k end.
Definition dim_dimension (d : dim) : string := match d with Dim _ n _ => n end.
Definition dim_ops (d : dim) : list op := match d with Dim _ _ o => o end.

Definition op_fn (o : op) : pyfn := match o with Op f _ _ _ _ => f end.
Definition op_args (o : op) : list arg := match o with Op _ a _ _ _ => a end.
Definition op_kwargs (o : op) : kwargs_t := match o with Op _ _ k _ _ => k end.
Definition op_reverse (o : op) : bool := match o with Op _ _ _ r _ => r end.
Definition op_accessor (o : op) : bool := match o with Op _ _ _ _ a => a end.

(** Python truthiness of an argument. *)
Definition truthy (a : arg) : bool :=
  match a with
  | ALit VNone => false
  | ALit (VBool b) => b
  | ALit (VInt z) => negb (z =? 0)%Z
  | ALit (VStr s) => negb (String.eqb s "")
  | ALit (VList xs) => negb (Nat.eqb (length xs) 0)
  | ALit (VDict kv) => negb (Nat.eqb (length kv) 0)
  | ASeq xs => negb (Nat.eqb (length xs) 0)
  | ADict kv => negb (Nat.eqb (length kv) 0)
  | _ => true
  end.

Definition is_none (a : arg) : bool :=
  match a with ALit VNone => true | _ => false end.

(** Modelled from the spec: the Transform Expression is HoloViews'
    [hv.util.transform.dim], an external collaborator whose code is not in
    the repository.  Its constructor, call and clone follow the spec's
    description of the expression tree: a node holds a function, its
    arguments, a [reverse] tag and an [accessor] tag. *)

(** [type(t)(t, fn, *args, **kwargs)]: the keyword arguments [reverse] and
    [accessor] are taken out of [kwargs] and stored as the node's tags. *)
Definition dim_new (t : dim) (fn : pyfn) (args : list arg) (kwargs : kwargs_t) : dim :=
  let reverse := match dict_get kwargs "reverse" with Some a => truthy a | None => false end in
  let accessor := match dict_get kwargs "accessor" with Some a => truthy a | None => false end in
  let kwargs' := dict_del (dict_del kwargs "reverse") "accessor" in
  Dim (dim_kind t) (dim_dimension t) (dim_ops t ++ [Op fn args kwargs' reverse accessor]).

(** Calling [t] with [args] and [kwargs]: only a trailing accessor node can be called; the
    call replaces it by a method-call node. *)
Definition dim_call (t : dim) (args : list arg) (kwargs : kwargs_t) : result dim :=
  match rev (dim_ops t) with
  | Op (FAttr name) _ _ reverse true :: before =>
      Ok (Dim (dim_kind t) (dim_dimension t)
            (rev before ++ [Op (FAttr name) args kwargs reverse false]))
  | _ => Err (ValueError "Cannot call method on expression")
  end.

(** [t.clone(dimension)] *)
Definition dim_clone (t : dim) (dimension : option string) : dim :=
  Dim (dim_kind t) (default (dim_dimension t) dimension) (dim_ops t).

(** ** The data-level capabilities invoked by the transform

    The semantics of the wrapped data (attribute lookup, calls, operators,
    and the [hv.Dataset] wrapping with its root lookup) is outside the
    wrapper; it is an interface here and is instantiated by [Pandas]
    below. *)
Class PyData : Type := {
  py_dir : value -> list string;
  py_getattr : value -> string -> result value;
  py_call : value -> list value -> list (string * value) -> result value;
  py_operator : operator.t -> list value -> result value;
  py_dataset : value -> string -> result value;
}.

(** [getattr(obj, name, default)]: only [AttributeError] is absorbed. *)
Definition getattr3 `{PyData} (obj : value) (name : string) (dflt : value) : result value :=
  match py_getattr obj name with
  | Err (AttributeError _) => Ok dflt
  | r => r
  end.

(** The class attribute [Interactive._fig] and the supply of fresh
    figures. *)
Record figs : Type := { _fig : option nat; next_fig : nat }.

(** [get_ax], the function made by [_get_ax_fn]: a new figure is stored in
    [Interactive._fig] and its axes are returned. *)
Definition get_ax (fs : figs) : result value * figs :=
  (Ok (VAxes (next_fig fs)),
   {| _fig := Some (next_fig fs); next_fig := S (next_fig fs) |}).

Section Apply.
Context `{PyData}.
(** Current values of parameters: object id and parameter name. *)
Variable params : nat -> string -> value.
(** The wrapped object the transform is applied to. *)
Variable obj : value.

(** One operation applied to the running value [data], its arguments
    already resolved. *)
Definition apply_fn (fn : pyfn) (reverse accessor : bool) (data : value)
    (args : list value) (kwargs : list (string * value)) : result value :=
  match fn with
  | FAttr name =>
      match py_getattr data name with
      | Err e => Err e
      | Ok m => if accessor then Ok m else py_call m args kwargs
      end
  | FOper f =>
      match kwargs with
      | [] => py_operator f (if reverse then rev (data :: args) else data :: args)
      | _ :: _ => Err (TypeError "operator takes no keyword arguments")
      end
  end.

(** [resolve_arg]: a dim argument is applied to the same dataset, a
    widget or parameter is replaced by its current value, the axes
    provider is invoked.  [apply_dim] is [transform.apply(ds, ...)]. *)
Fixpoint resolve_arg (a : arg) (fs : figs) {struct a} : result value * figs :=
  match a with
  | ALit v => (Ok v, fs)
  | APanelWidget id => (Ok (params id "value"), fs)
  | AIpyWidget id => (Ok (VOpaque "ipywidget"), fs)
  | AParam name (OwnerWidget id) => (Ok (params id name), fs)
  | AParam name (OwnerParameterized id) => (Ok (params id name), fs)
  | AParam name Unowned => (Ok (VOpaque name), fs)
  | AAxFn => get_ax fs
  | ASeq xs =>
      match (fix go (xs : list arg) (fs : figs) : result (list value) * figs :=
               match xs with
               | [] => (Ok [], fs)
               | x :: xs' =>
                   match resolve_arg x fs with
                   | (Err e, fs') => (Err e, fs')
                   | (Ok v, fs') =>
                       match go xs' fs' with
                       | (Err e, fs'') => (Err e, fs'')
                       | (Ok vs, fs'') => (Ok (v :: vs), fs'')
                       end
                   end
               end) xs fs with
      | (Err e, fs') => (Err e, fs')
      | (Ok vs, fs') => (Ok (VList vs), fs')
      end
  | ADict kv =>
      match (fix go (kv : kwargs_t) (fs : figs) : result (list (string * value)) * figs :=
               match kv with
               | [] => (Ok [], fs)
               | (k, x) :: kv' =>
                   match resolve_arg x fs with
                   | (Err e, fs') => (Err e, fs')
                   | (Ok v, fs') =>
                       match go kv' fs' with
                       | (Err e, fs'') => (Err e, fs'')
                       | (Ok vs, fs'') => (Ok ((k, v) :: vs), fs'')
                       end
                   end
               end) kv fs with
      | (Err e, fs') => (Err e, fs')
      | (Ok vs, fs') => (Ok (VDict vs), fs')
      end
  | ADim d => apply_dim d fs
  end
with apply_dim (d : dim) (fs : figs) {struct d} : result value * figs :=
  match d with
  | Dim _ dimension ops =>
      match py_dataset obj dimension with
      | Err e => (Err e, fs)
      | Ok data0 =>
          (fix go (ops : list op) (data : value) (fs : figs) : result value * figs :=
             match ops with
             | [] => (Ok data, fs)
             | o :: ops' =>
                 match apply_op o data fs with
                 | (Err e, fs') => (Err e, fs')
                 | (Ok data', fs') => go ops' data' fs'
                 end
             end) ops data0 fs
      end
  end
with apply_op (o : op) (data : value) (fs : figs) {struct o} : result value * figs :=
  match o with
  | Op fn args kwargs reverse accessor =>
      match (fix go (xs : list arg) (fs : figs) : result (list value) * figs :=
               match xs with
               | [] => (Ok [], fs)
               | x :: xs' =>
                   match resolve_arg x fs with
                   | (Err e, fs') => (Err e, fs')
                   | (Ok v, fs') =>
                       match go xs' fs' with
                       | (Err e, fs'') => (Err e, fs'')
                       | (Ok vs, fs'') => (Ok (v :: vs), fs'')
                       end
                   end
               end) args fs with
      | (Err e, fs1) => (Err e, fs1)
      | (Ok vs, fs1) =>
          match (fix go (kv : kwargs_t) (fs : figs) : result (list (string * value)) * figs :=
                   match kv with
                   | [] => (Ok [], fs)
                   | (k, x) :: kv' =>
                       match resolve_arg x fs with
                       | (Err e, fs') => (Err e, fs')
                       | (Ok v, fs') =>
                           match go kv' fs' with
                           | (Err e, fs'') => (Err e, fs'')
                           | (Ok kvs, fs'') => (Ok ((k, v) :: kvs), fs'')
                           end
                       end
                   end) kwargs fs1 with
          | (Err e, fs2) => (Err e, fs2)
          | (Ok kvs, fs2) => (apply_fn fn reverse accessor data vs kvs, fs2)
          end
      end
  end.

(** The loops of the three functions above, named. *)
Fixpoint resolve_args (xs : list arg) (fs : figs) : result (list value) * figs :=
  match xs with
  | [] => (Ok [], fs)
  | x :: xs' =>
      match resolve_arg x fs with
      | (Err e, fs') => (Err e, fs')
      | (Ok v, fs') =>
          match resolve_args xs' fs' with
          | (Err e, fs'') => (Err e, fs'')
          | (Ok vs, fs'') => (Ok (v :: vs), fs'')
          end
      end
  end.

Fixpoint resolve_kwargs (kv : kwargs_t) (fs : figs) : result (list (string * value)) * figs :=
  match kv with
  | [] => (Ok [], fs)
  | (k, x) :: kv' =>
      match resolve_arg x fs with
      | (Err e, fs') => (Err e, fs')
      | (Ok v, fs') =>
          match resolve_kwargs kv' fs' with
          | (Err e, fs'') => (Err e, fs'')
          | (Ok kvs, fs'') => (Ok ((k, v) :: kvs), fs'')
          end
      end
  end.

Fixpoint apply_ops (ops : list op) (data : value) (fs : figs) : result value * figs :=
  match ops with
  | [] => (Ok data, fs)
  | o :: ops' =>
      match apply_op o data fs with
      | (Err e, fs') => (Err e, fs')
      | (Ok data', fs') => apply_ops ops' data' fs'
      end
  end.

End Apply.

(** ** Wrapper instances, the heap and the monad *)

(** Heap addresses. *)
Abbreviation addr := nat.

(** The driver [_fn]: a reactive function ([pn.panel(obj, lazy=True)]) with
    its declared dependencies and its evaluation against the current
    parameter values. *)
Record driver : Type := mkDriver {
  drv_deps : list (string * owner);
  drv_eval : (nat -> string -> value) -> result value;
}.

(** The instance dictionary of an [Interactive] object. *)
Record node : Type := mkNode {
  _obj : value;
  _fn : option driver;
  _init : bool;
  _method : option string;
  _transform : dim;
  _plot : bool;
  _depth : nat;
  _loc : arg;
  _center : bool;
  _dmap : bool;
  _inherit_kwargs : kwargs_t;
  _max_rows : arg;
  _kwargs : kwargs_t;
  _current : value;
  __doc__ : option value;
}.

Definition set_method (m : option string) (n : node) : node :=
  mkNode (_obj n) (_fn n) (_init n) m (_transform n) (_plot n) (_depth n)
         (_loc n) (_center n) (_dmap n) (_inherit_kwargs n) (_max_rows n)
         (_kwargs n) (_current n) (__doc__ n).

Definition set_doc (d : option value) (n : node) : node :=
  mkNode (_obj n) (_fn n) (_init n) (_method n) (_transform n) (_plot n)
         (_depth n) (_loc n) (_center n) (_dmap n) (_inherit_kwargs n)
         (_max_rows n) (_kwargs n) (_current n) d.

Definition set_obj (o : value) (n : node) : node :=
  mkNode o (_fn n) (_init n) (_method n) (_transform n) (_plot n)
         (_depth n) (_loc n) (_center n) (_dmap n) (_inherit_kwargs n)
         (_max_rows n) (_kwargs n) (_current n) (__doc__ n).

Definition set_current (c : value) (n : node) : node :=
  mkNode (_obj n) (_fn n) (_init n) (_method n) (_transform n) (_plot n)
         (_depth n) (_loc n) (_center n) (_dmap n) (_inherit_kwargs n)
         (_max_rows n) (_kwargs n) c (__doc__ n).

Record state : Type := mkState {
  heap : list node;
  figures : figs;
  params : nat -> string -> value;
}.

Definition M (A : Type) : Type := state -> result A * state.

Definition ret {A} (a : A) : M A := fun s => (Ok a, s).

Definition raise {A} (e : exn) : M A := fun s => (Err e, s).

Definition bind {A B} (m : M A) (k : A -> M B) : M B := fun s =>
  match m s with
  | (Ok a, s') => k a s'
  | (Err e, s') => (Err e, s')
  end.

(** [try: m finally: h] *)
Definition finally {A} (m : M A) (h : M unit) : M A := fun s =>
  match m s with
  | (r, s') =>
      match h s' with
      | (Ok _, s'') => (r, s'')
      | (Err e, s'') => (Err e, s'')
      end
  end.

Notation "'let*' x ':=' m 'in' k" := (bind m (fun x => k))
  (at level 10, x name, m at level 100, k at level 200).

Definition lift {A} (r : result A) : M A := fun s => (r, s).

Definition get_node (a : addr) : M node := fun s =>
  match heap s !! a with
  | Some n => (Ok n, s)
  | None => (Err (Unsupported "dangling reference"), s)
  end.

Definition modify_node (a : addr) (f : node -> node) : M unit := fun s =>
  match heap s !! a with
  | Some n => (Ok tt, mkState (<[a := f n]> (heap s)) (figures s) (params s))
  | None => (Err (Unsupported "dangling reference"), s)
  end.

Definition alloc (n : node) : M addr := fun s =>
  (Ok (length (heap s)), mkState (heap s ++ [n]) (figures s) (params s)).

(** [transform.apply(hv.Dataset(obj), keep_index=True, compute=False)] *)
Definition transform_apply `{PyData} (t : dim) (obj : value) : M value := fun s =>
  match apply_dim (params s) obj t (figures s) with
  | (r, fs) => (r, mkState (heap s) fs (params s))
  end.

(** Truth value of an optional string ([if self._method:], [if _kind:]):
    [None] and the empty string are false. *)
Definition nonempty (m : option string) : option string :=
  match m with
  | Some s => if String.eqb s "" then None else Some s
  | None => None
  end.

Definition is_Some_b {A} (o : option A) : bool :=
  match o with Some _ => true | None => false end.

Definition method_arg (m : option string) : arg :=
  match m with Some s => ALit (VStr s) | None => ALit VNone end.

(** [super().__dir__()]: the keys of the instance dictionary followed by
    the attributes of the class and of [object]. *)
Definition instance_dir : list string :=
  ["_obj"; "_fn"; "_init"; "_method"; "_transform"; "_plot"; "_depth";
   "_loc"; "_center"; "_dmap"; "_inherit_kwargs"; "_max_rows"; "_kwargs";
   "_current"; "hvplot"].

Definition class_dir : list string :=
  ["__metaclass__"; "_fig"; "__new__"; "applies"; "__init__"; "_update_obj";
   "_fn_params"; "_params"; "_callback"; "_clone"; "_repr_mimebundle_";
   "__dir__"; "_resolve_accessor"; "__getattribute__"; "_get_ax_fn";
   "__call__"; "__array_ufunc__"; "_apply_operator"; "__abs__";
   "__round__"; "__neg__"; "__not__"; "__invert__"; "__pos__"; "__add__";
   "__and__"; "__div__"; "__eq__"; "__floordiv__"; "__ge__"; "__gt__";
   "__le__"; "__lt__"; "__lshift__"; "__mod__"; "__mul__"; "__ne__";
   "__or__"; "__rshift__"; "__pow__"; "__sub__"; "__truediv__";
   "__radd__"; "__rand__"; "__rdiv__"; "__rfloordiv__"; "__rlshift__";
   "__rmod__"; "__rmul__"; "__ror__"; "__rpow__"; "__rrshift__";
   "__rsub__"; "__rtruediv__"; "__getitem__"; "dmap"; "eval"; "layout";
   "holoviews"; "output"; "panel"; "widgets";
   "__class__"; "__delattr__"; "__dict__"; "__doc__"; "__format__";
   "__hash__"; "__init_subclass__"; "__module__"; "__reduce__";
   "__reduce_ex__"; "__repr__"; "__setattr__"; "__sizeof__"; "__str__";
   "__subclasshook__"; "__weakref__"].

Definition super_dir : list string := instance_dir ++ class_dir.

(** What an attribute access on a wrapper yields: a new wrapper that
    records a data-level name, or the wrapper's own attribute. *)
Inductive attribute : Type :=
| DataLevel (new : addr)
| WrapperLevel (name : string).

(** [super().__getattribute__(name)] *)
Definition object_getattribute (name : string) : M attribute :=
  if str_in name super_dir then ret (WrapperLevel name)
  else raise (AttributeError ("'Interactive' object has no attribute '" +:+ name +:+ "'")).

(** The names that the constructor call in [_clone] passes explicitly,
    and the positional parameter of [__new__] and [__init__]. *)
Definition explicit_init_names : list string :=
  ["obj"; "fn"; "transform"; "plot"; "depth"; "loc"; "center"; "dmap"].

(** The named parameters of [_clone], in positional order. *)
Definition clone_param_names : list string :=
  ["transform"; "plot"; "loc"; "center"; "dmap"; "copy"].

(** Positional arguments bound to parameter names, as a call does. *)
Fixpoint bind_positional (names : list string) (args : list arg) (kwargs : kwargs_t)
    : result kwargs_t :=
  match args, names with
  | [], _ => Ok kwargs
  | _ :: _, [] => Err (TypeError "too many positional arguments")
  | a :: args', n :: names' =>
      if dict_has kwargs n then Err (TypeError "got multiple values for argument")
      else bind_positional names' args' (dict_set kwargs n a)
  end.

(** The right operand of a binary operator or the key of an indexing:
    a literal, or another wrapper. *)
Inductive operand : Type :=
| Literal (a : arg)
| Wrapper (w : addr).

(** What the reactive callback hands to the display layer. *)
Inductive output : Type :=
| FigureSlot (fig : option nat)
| DataFramePane (obj : value) (max_rows : arg) (kwargs : kwargs_t)
| Raw (obj : value).

(** The first argument of [Interactive(...)]: an object, or a function
    that produces one. *)
Inductive source : Type :=
| Object (obj : value)
| Function (f : driver).

(** The Python object that the argument is: a function is not a data
    container. *)
Definition source_value (src : source) : value :=
  match src with
  | Object obj => obj
  | Function _ => VOpaque "function"
  end.

Module Interactive.
Section Methods.
Context `{PyData}.

(** Lines 145-162.  [__new__] fixes [_obj] and [_fn] of the instance:
    the [fn] keyword when there is one, else the evaluation of [obj] when
    [obj] is a function, else [obj] itself and no driver.  The loop over
    [cls.__subclasses__()] finds no subclass in this module. *)
Definition __new__ (src : source) (fn : option (option driver))
    : M (value * option driver) :=
  match fn with
  | Some fn => ret (source_value src, fn)
  | None =>
      match src with
      | Function f => fun s =>
          match drv_eval f (params s) with
          | Ok obj => (Ok (obj, Some f), s)
          | Err e => (Err e, s)
          end
      | Object obj => ret (obj, None)
      end
  end.

(** Lines 172-212.  [self_obj] and [self_fn] are the [_obj] and [_fn]
    that [__new__] has set; [obj] is the constructor's first argument
    (the [fn] parameter of the source is not read).  The instance is
    entered in the heap when [__init__] returns; an exception leaves no
    instance behind.  The subscription of [_update_obj] to the driver's
    parameters belongs to the param framework and shows here only as
    [_update_obj] itself. *)
Definition __init__ (self_obj : value) (self_fn : option driver) (obj : value)
    (transform : option dim) (plot : bool) (depth : nat) (loc : arg)
    (center dmap : bool) (inherit_kwargs : kwargs_t) (max_rows : arg)
    (method : option string) (kwargs : kwargs_t) : M addr :=
  let* transform :=
    match transform with
    | None =>
        if is_xarray obj then
          let dim := if is_xarray_dataarray obj then obj_name obj else Some "*" in
          match dim with
          | None =>
              raise (ValueError "Cannot use interactive API on DataArray without name.Assign a name to the DataArray and try again.")
          | Some d => ret (Dim xr_dim d [])
          end
        else if is_tabular obj then ret (Dim df_dim "*" [])
        else ret (Dim plain_dim "*" [])
    | Some t => ret t
    end in
  let* current := transform_apply transform self_obj in
  alloc (mkNode self_obj self_fn true method transform plot depth loc center dmap
           inherit_kwargs max_rows kwargs current None).

(** [Interactive(src)] with every keyword at its default. *)
Definition new (src : source) : M addr :=
  let* inst := __new__ src None in
  __init__ (fst inst) (snd inst) (source_value src) None false 0
    (ALit (VStr "top_left")) false false [] (ALit (VInt 100)) None [].

(** Line 214. *)
Definition _update_obj (self : addr) : M unit :=
  let* n := get_node self in
  match _fn n with
  | Some fn => fun s =>
      match drv_eval fn (params s) with
      | Ok o => modify_node self (set_obj o) s
      | Err e => (Err e, s)
      end
  | None => raise (AttributeError "'NoneType' object has no attribute 'eval'")
  end.

(** Lines 217-228. *)
Definition _fn_params (n : node) : list (string * owner) :=
  match _fn n with
  | None => []
  | Some fn => drv_deps fn
  end.

(** The value that [__getattribute__] inspects: [_current], narrowed by
    the pending method (lines 315-318). *)
Definition narrowed (n : node) : result value :=
  match nonempty (_method n) with
  | Some m => py_getattr (_current n) m
  | None => Ok (_current n)
  end.

(** Reading an attribute of [self] inside a method goes through
    [__getattribute__] too: the narrowing is evaluated (and may raise)
    before the wrapper's own attribute is returned. *)
Definition self_node (self : addr) : M node :=
  let* n := get_node self in
  if _init n then (let* _ := lift (narrowed n) in ret n) else ret n.

(** The constructor call at the end of [_clone]:
    [type(self)(self._obj, fn=..., transform=..., ..., **kwargs)];
    with the [fn] keyword present, [__new__] keeps [obj] and [fn].
    A key of [kwargs] that repeats an explicit argument is a [TypeError];
    [inherit_kwargs], [max_rows] and [method] bind to the named parameters
    of [__init__]; the rest is [**kwargs].  Values of another Python type
    than the parameter expects are outside this typed model. *)
Definition construct (obj : value) (fn : option driver) (transform : dim)
    (plot : bool) (depth : nat) (loc : arg) (center dmap : bool)
    (kwargs : kwargs_t) : M addr :=
  if existsb (dict_has kwargs) explicit_init_names
  then raise (TypeError "got multiple values for keyword argument")
  else
    let* inherit_kwargs :=
      match dict_get kwargs "inherit_kwargs" with
      | None => ret []
      | Some (ADict d) => ret d
      | Some _ => raise (Unsupported "inherit_kwargs is not a dict")
      end in
    let* method :=
      match dict_get kwargs "method" with
      | None | Some (ALit VNone) => ret None
      | Some (ALit (VStr s)) => ret (Some s)
      | Some _ => raise (Unsupported "method is not a str")
      end in
    let max_rows := default (ALit (VInt 100)) (dict_get kwargs "max_rows") in
    let rest := dict_del (dict_del (dict_del kwargs "inherit_kwargs") "max_rows") "method" in
    __init__ obj fn obj (Some transform) plot depth loc center dmap inherit_kwargs
             max_rows method rest.

(** Lines 260-273. *)
Definition _clone (self : addr) (transform : option dim) (plot : option bool)
    (loc : option arg) (center dmap : option bool) (copy : bool)
    (kwargs : kwargs_t) : M addr :=
  let* n := self_node self in
  let plot := _plot n || default false plot in
  let transform := default (_transform n) transform in
  let loc := default (_loc n) loc in
  let center := default (_center n) center in
  let dmap := default (_dmap n) dmap in
  let depth := _depth n + 1 in
  let* kwargs :=
    if copy then
      if dict_has kwargs "inherit_kwargs" || dict_has kwargs "method"
      then raise (TypeError "dict() got multiple values for keyword argument")
      else ret (dict_update (_kwargs n)
                  (dict_update [("inherit_kwargs", ADict (_inherit_kwargs n));
                                ("method", method_arg (_method n))] kwargs))
    else ret (dict_update (_inherit_kwargs n) (dict_update (_kwargs n) kwargs)) in
  construct (_obj n) (_fn n) transform plot depth loc center dmap kwargs.

(** [self._clone( *args, **kwargs)] with arguments supplied by the caller
    (line 352): positional arguments bind to [_clone]'s parameters in
    order, then every parameter is read the way [_clone] uses it. *)
Definition _clone_star (self : addr) (args : list arg) (kwargs : kwargs_t) : M addr :=
  let* kw := lift (bind_positional clone_param_names args kwargs) in
  let* transform :=
    match dict_get kw "transform" with
    | None => ret None
    | Some (ADim d) => ret (Some d)
    | Some a => if truthy a then raise (Unsupported "transform is not a dim") else ret None
    end in
  let plot := truthy <$> dict_get kw "plot" in
  let loc := match dict_get kw "loc" with
             | Some a => if is_none a then None else Some a
             | None => None
             end in
  let flag (k : string) := match dict_get kw k with
                           | Some a => if is_none a then None else Some (truthy a)
                           | None => None
                           end in
  let copy := match dict_get kw "copy" with Some a => truthy a | None => false end in
  let rest := fold_left dict_del clone_param_names kw in
  _clone self transform plot loc (flag "center") (flag "dmap") copy rest.

(** Lines 290-308. *)
Definition _resolve_accessor (self : addr) : M addr :=
  let* n := self_node self in
  match nonempty (_method n) with
  | None => _clone self None None None None None true []
  | Some m =>
      let transform :=
        dim_new (_transform n) (FAttr m) [] [("accessor", ALit (VBool true))] in
      let inherit_kwargs := if String.eqb m "plot" then [("ax", AAxFn)] else [] in
      finally
        (_clone self (Some transform) None None None None false
                [("inherit_kwargs", ADict inherit_kwargs)])
        (modify_node self (set_method None))
  end.

(** Lines 310-332. *)
Definition __getattribute__ (self : addr) (name : string) : M attribute :=
  let* n := get_node self in
  if negb (_init n) then object_getattribute name
  else
    let* current := lift (narrowed n) in
    let extras := List.filter (fun d => negb (startswith_underscore d)) (py_dir current) in
    if str_in name extras && negb (str_in name super_dir) then
      let* new := _resolve_accessor self in
      let* _ := modify_node new (set_method (Some name)) in
      let* _ :=
        match py_getattr current name with
        | Ok v =>
            match py_getattr v "__doc__" with
            | Ok d => modify_node new (set_doc (Some d))
            | Err _ => ret tt
            end
        | Err _ => ret tt
        end in
      ret (DataLevel new)
    else object_getattribute name.

(** Lines 345-368. *)
Definition __call__ (self : addr) (args : list arg) (kwargs : kwargs_t) : M addr :=
  let* n := self_node self in
  match _method n with
  | None =>
      if Nat.eqb (_depth n) 0 then _clone_star self args kwargs
      else raise (AttributeError "")
  | Some m =>
      let kwargs := if String.eqb m "plot" then dict_set kwargs "ax" AAxFn else kwargs in
      let* new := _clone self None None None None None true [] in
      finally
        (let* nn := self_node new in
         let method :=
           match _method nn with
           | Some m' => dim_new (_transform nn) (FAttr m') [] [("accessor", ALit (VBool true))]
           | None => _transform nn
           end in
         let kwargs := dict_update (_inherit_kwargs nn) kwargs in
         let* called := lift (dim_call method args kwargs) in
         let plot := match _method nn with Some m' => String.eqb m' "plot" | None => false end in
         _clone new (Some called) (Some plot) None None None false [])
        (modify_node new (set_method None))
  end.

(** Lines 381-385: the keyword arguments are accepted and not passed on
    to the transform's constructor. *)
Definition _apply_operator (self : addr) (operator : pyfn) (args : list arg)
    (kwargs : kwargs_t) : M addr :=
  let* new := _resolve_accessor self in
  let* nn := self_node new in
  let transform := dim_new (_transform nn) operator args [] in
  _clone new (Some transform) None None None None false [].

(** Lines 530-538. *)
Definition eval (self : addr) : M value :=
  let* n := self_node self in
  let obj := _current n in
  match nonempty (_method n) with
  | Some m => lift (getattr3 obj m obj)
  | None => ret obj
  end.

(** [other._transform if isinstance(other, Interactive) else other] *)
Definition operand_arg (other : operand) : M arg :=
  match other with
  | Literal a => ret a
  | Wrapper w => let* n := self_node w in ret (ADim (_transform n))
  end.

(** The common body of the binary operator methods (lines 405-502):
    [f] is the evaluation of the [operator.<name>] expression and
    [reverse] tells whether the method passes [reverse=True]. *)
Definition binary_operator (f : result operator.t) (reverse : bool)
    (self : addr) (other : operand) : M addr :=
  let* other := operand_arg other in
  let* _ := self_node self in
  let* f := lift f in
  _apply_operator self (FOper f) [other]
    (if reverse then [("reverse", ALit (VBool true))] else []).

Definition unary_operator (f : operator.t) (self : addr) : M addr :=
  let* _ := self_node self in
  _apply_operator self (FOper f) [] [].

(** Builtin functions (lines 388-393). *)
Definition __abs__ := unary_operator operator.abs.

Definition __round__ (self : addr) (ndigits : option arg) : M addr :=
  let args := match ndigits with
              | Some d => if is_none d then [] else [d]
              | None => []
              end in
  let* _ := self_node self in
  _apply_operator self (FOper operator.round) args [].

(** Unary operators (lines 396-403). *)
Definition __neg__ := unary_operator operator.neg.
Definition __not__ := unary_operator operator.not_.
Definition __invert__ := unary_operator operator.inv.
Definition __pos__ := unary_operator operator.pos.

(** Binary operators (lines 406-460). *)
Definition __add__ := binary_operator (operator.lookup "add") false.
Definition __and__ := binary_operator (operator.lookup "and_") false.
Definition __div__ := binary_operator (operator.lookup "div") false.
Definition __eq__ := binary_operator (operator.lookup "eq") false.
Definition __floordiv__ := binary_operator (operator.lookup "floordiv") false.
Definition __ge__ := binary_operator (operator.lookup "ge") false.
Definition __gt__ := binary_operator (operator.lookup "gt") false.
Definition __le__ := binary_operator (operator.lookup "le") false.
Definition __lt__ := binary_operator (operator.lookup "lt") false.
Definition __lshift__ := binary_operator (operator.lookup "lshift") false.
Definition __mod__ := binary_operator (operator.lookup "mod") false.
Definition __mul__ := binary_operator (operator.lookup "mul") false.
Definition __ne__ := binary_operator (operator.lookup "ne") false.
Definition __or__ := binary_operator (operator.lookup "or_") false.
Definition __rshift__ := binary_operator (operator.lookup "rshift") false.
Definition __pow__ := binary_operator (operator.lookup "pow") false.
Definition __sub__ := binary_operator (operator.lookup "sub") false.
Definition __truediv__ := binary_operator (operator.lookup "truediv") false.

(** Reverse binary operators (lines 463-498). *)
Definition __radd__ := binary_operator (operator.lookup "div") true.
Definition __rand__ := binary_operator (operator.lookup "and_") true.
Definition __rdiv__ := binary_operator (operator.lookup "div") true.
Definition __rfloordiv__ := binary_operator (operator.lookup "floordiv") true.
Definition __rlshift__ := binary_operator (operator.lookup "rlshift") false.
Definition __rmod__ := binary_operator (operator.lookup "mod") true.
Definition __rmul__ := binary_operator (operator.lookup "mul") true.
Definition __ror__ := binary_operator (operator.lookup "or_") true.
Definition __rpow__ := binary_operator (operator.lookup "pow") true.
Definition __rrshift__ := binary_operator (operator.lookup "rrshift") false.
Definition __rsub__ := binary_operator (operator.lookup "sub") true.
Definition __rtruediv__ := binary_operator (operator.lookup "truediv") true.

(** Lines 500-502. *)
Definition __getitem__ := binary_operator (operator.lookup "getitem") false.

(** Lines 239-258: the body of [evaluate]. *)
Definition _callback (self : addr) : M output :=
  let* n := self_node self in
  let obj := _obj n in
  let transform :=
    if is_xarray obj && is_xarray_dataarray obj
    then dim_clone (_transform n) (obj_name obj)
    else _transform n in
  let* obj := transform_apply transform obj in
  let* obj :=
    match nonempty (_method n) with
    | Some m => lift (getattr3 obj m obj)
    | None => ret obj
    end in
  if _plot n then (fun s => (Ok (FigureSlot (_fig (figures s))), s))
  else if is_dataframe obj then ret (DataFramePane obj (_max_rows n) (_kwargs n))
  else ret (Raw obj).

End Methods.
End Interactive.

(** ** Widget discovery *)

Inductive widget : Type :=
| PanelWidget (id : nat)
| IpyWidget (id : nat).

#[global] Instance widget_eq_dec : EqDecision widget.
Proof. solve_decision. Defined.

(** [if w not in widgets: widgets.append(w)] *)
Definition add_widget (w : widget) (widgets : list widget) : list widget :=
  if decide (w ∈ widgets) then widgets else widgets ++ [w].

Definition add_widgets (found widgets : list widget) : list widget :=
  fold_left (fun ws w => add_widget w ws) found widgets.

(** Modelled from the spec: the code of [_flatten] ([hvplot.util]) is
    missing; it flattens arbitrarily nested sequences, and a dictionary
    met on the way contributes its keys. *)
Fixpoint flatten_arg (a : arg) : list arg :=
  match a with
  | ASeq xs =>
      (fix go (xs : list arg) : list arg :=
         match xs with
         | [] => []
         | x :: xs' => flatten_arg x ++ go xs'
         end) xs
  | ADict kv => map (fun p => ALit (VStr (fst p))) kv
  | _ => [a]
  end.

Definition _flatten (line : list arg) : list arg := flat_map flatten_arg line.

Section Widgets.
(** ['ipywidgets' in sys.modules] *)
Variable ipywidgets_loaded : bool.

(** Lines 24-49.  [scan_arg a widgets] runs the loop body on the leaves of
    [a] in flattening order, starting from the list [widgets]. *)
Fixpoint scan_arg (a : arg) (widgets : list widget) {struct a} : list widget :=
  match a with
  | ASeq xs =>
      (fix go (xs : list arg) (ws : list widget) : list widget :=
         match xs with
         | [] => ws
         | x :: xs' => go xs' (scan_arg x ws)
         end) xs widgets
  | APanelWidget id => add_widget (PanelWidget id) widgets
  | ADim (Dim _ _ ops) =>
      (fix go (ops : list op) (ws : list widget) : list widget :=
         match ops with
         | [] => ws
         | nested_op :: ops' => go ops' (add_widgets (_find_widgets nested_op) ws)
         end) ops widgets
  | AIpyWidget id =>
      if ipywidgets_loaded then add_widget (IpyWidget id) widgets else widgets
  | AParam _ (OwnerWidget id) => add_widget (PanelWidget id) widgets
  | _ => widgets
  end
with _find_widgets (o : op) {struct o} : list widget :=
  match o with
  | Op _ args kwargs _ _ =>
      let ws :=
        (fix go (xs : list arg) (ws : list widget) : list widget :=
           match xs with
           | [] => ws
           | x :: xs' => go xs' (scan_arg x ws)
           end) args [] in
      (fix go (kv : kwargs_t) (ws : list widget) : list widget :=
         match kv with
         | [] => ws
         | (_, x) :: kv' => go kv' (scan_arg x ws)
         end) kwargs ws
  end.

(** The loop body of [_find_widgets] on one flattened argument. *)
Definition scan_leaf (widgets : list widget) (op_arg : arg) : list widget :=
  match op_arg with
  | APanelWidget id => add_widget (PanelWidget id) widgets
  | ADim d =>
      fold_left (fun ws nested_op => add_widgets (_find_widgets nested_op) ws)
                (dim_ops d) widgets
  | AIpyWidget id =>
      if ipywidgets_loaded then add_widget (IpyWidget id) widgets else widgets
  | AParam _ (OwnerWidget id) => add_widget (PanelWidget id) widgets
  | _ => widgets
  end.

(** Lines 613-630: the widgets of the driver's parameters, then those of
    every operation of the transform. *)
Definition widgets_of (n : node) : list widget :=
  let widgets :=
    fold_left (fun ws p =>
                 match snd p with
                 | OwnerWidget id => add_widget (PanelWidget id) ws
                 | _ => ws
                 end) (Interactive._fn_params n) [] in
  fold_left (fun ws o => add_widgets (_find_widgets o) ws)
            (dim_ops (_transform n)) widgets.

Definition widgets `{PyData} (self : addr) : M (list widget) :=
  let* n := Interactive.self_node self in
  ret (widgets_of n).

End Widgets.

(** ** The plotting accessor *)

Module _hvplot.
Section Methods.
Context `{PyData}.
(** [tuple(HoloViewsConverter._kind_mapping)]: the table of plot kinds
    lives in [hvplot.converter] and is a parameter here. *)
Variable _kinds : list string.

(** Lines 641-654. *)
Definition __call__ (_interactive : addr) (args : list arg) (_kind : option string)
    (kwargs : kwargs_t) : M addr :=
  if is_Some_b (nonempty _kind) && dict_has kwargs "kind" then
    raise (TypeError (default "" _kind +:+ "() got an unexpected keyword argument 'kind'"))
  else
    let kwargs :=
      match nonempty _kind with
      | Some k => dict_set kwargs "kind" (ALit (VStr k))
      | None => kwargs
      end in
    let* new := Interactive._resolve_accessor _interactive in
    let* nn := Interactive.self_node new in
    let transform :=
      dim_new (_transform nn) (FAttr "hvplot") [] [("accessor", ALit (VBool true))] in
    let dmap :=
      match dict_get kwargs "kind" with
      | None => true
      | Some (ALit (VStr _)) => false
      | Some _ => true
      end in
    let* called := lift (dim_call transform args kwargs) in
    Interactive._clone new (Some called) None None None (Some dmap) false [].

(** Lines 656-660: [partial(self, _kind=attr)], represented by the kind it
    binds. *)
Definition __getattr__ (attr : string) : result string :=
  if str_in attr _kinds then Ok attr
  else Err (AttributeError ("'hvplot' object has no attribute '" +:+ attr +:+ "'")).

(** A call of the partial returned by [__getattr__]. *)
Definition kind_call (_interactive : addr) (attr : string) (args : list arg)
    (kwargs : kwargs_t) : M addr :=
  match __getattr__ attr with
  | Ok kind => __call__ _interactive args (Some kind) kwargs
  | Err e => raise e
  end.

End Methods.
End _hvplot.

(** ** A small pandas: the data interface instantiated

    Integer columns, boolean masks, column access by attribute, [max],
    [min] and [sum] on a series, arithmetic and comparison operators on
    integers and series, and boolean-mask indexing of a frame.  Frames,
    series and xarray objects can be wrapped in a dataset, whose root
    dimension ["*"] is the object itself. *)
Module Pandas.

Definition as_int (v : value) : option Z :=
  match v with VInt z => Some z | VBool b => Some (if b then 1 else 0)%Z | _ => None end.

Fixpoint as_ints (xs : list value) : option (list Z) :=
  match xs with
  | [] => Some []
  | x :: xs' =>
      match as_int x, as_ints xs' with
      | Some z, Some zs => Some (z :: zs)
      | _, _ => None
      end
  end.

Fixpoint as_mask (xs : list value) : option (list bool) :=
  match xs with
  | [] => Some []
  | VBool b :: xs' => match as_mask xs' with Some bs => Some (b :: bs) | None => None end
  | _ => None
  end.

Fixpoint select {A} (mask : list bool) (xs : list A) : list A :=
  match mask, xs with
  | b :: mask', x :: xs' => if b then x :: select mask' xs' else select mask' xs'
  | _, _ => []
  end.

Definition series_methods : list string := ["max"; "min"; "sum"; "head"; "plot"; "hvplot"].

Definition frame_methods : list string :=
  ["max"; "min"; "sum"; "head"; "eval"; "plot"; "hvplot"; "_data"].

Definition scalar_op (f : operator.t) (a b : Z) : option value :=
  match f with
  | operator.add => Some (VInt (a + b))
  | operator.sub => Some (VInt (a - b))
  | operator.mul => Some (VInt (a * b))
  | operator.gt => Some (VBool (b <? a)%Z)
  | operator.ge => Some (VBool (b <=? a)%Z)
  | operator.lt => Some (VBool (a <? b)%Z)
  | operator.le => Some (VBool (a <=? b)%Z)
  | operator.eq => Some (VBool (a =? b)%Z)
  | operator.ne => Some (VBool (negb (a =? b)%Z))
  | _ => None
  end.

Fixpoint map_opt {A B} (f : A -> option B) (xs : list A) : option (list B) :=
  match xs with
  | [] => Some []
  | x :: xs' =>
      match f x, map_opt f xs' with
      | Some y, Some ys => Some (y :: ys)
      | _, _ => None
      end
  end.

Fixpoint zip_opt {A B C} (f : A -> B -> option C) (xs : list A) (ys : list B)
    : option (list C) :=
  match xs, ys with
  | [], [] => Some []
  | x :: xs', y :: ys' =>
      match f x y, zip_opt f xs' ys' with
      | Some z, Some zs => Some (z :: zs)
      | _, _ => None
      end
  | _, _ => None
  end.

Definition unsupported_operand : exn := TypeError "unsupported operand type(s)".

Definition of_option (o : option value) : result value :=
  match o with Some v => Ok v | None => Err unsupported_operand end.

Definition dir (v : value) : list string :=
  match v with
  | VFrame cols => map fst cols ++ frame_methods
  | VSeries _ => series_methods
  | _ => []
  end.

Definition getattr (v : value) (name : string) : result value :=
  let missing := Err (AttributeError ("object has no attribute '" +:+ name +:+ "'")) in
  match v with
  | VFrame cols =>
      match dict_get cols name with
      | Some col => Ok (VSeries col)
      | None => if str_in name frame_methods then Ok (VBound v name) else missing
      end
  | VSeries _ => if str_in name series_methods then Ok (VBound v name) else missing
  | _ => missing
  end.

Definition call (f : value) (args : list value) (kwargs : list (string * value))
    : result value :=
  match f, args, kwargs with
  | VBound (VSeries xs) meth, [], [] =>
      match as_ints xs with
      | Some (z :: zs) =>
          if String.eqb meth "max" then Ok (VInt (fold_left Z.max zs z))
          else if String.eqb meth "min" then Ok (VInt (fold_left Z.min zs z))
          else if String.eqb meth "sum" then Ok (VInt (fold_left Z.add zs z))
          else Err (TypeError "unsupported method")
      | _ => Err (ValueError "empty or non-numeric series")
      end
  | VBound _ meth, _, _ =>
      if String.eqb meth "hvplot" || String.eqb meth "plot" then Ok (VOpaque meth)
      else Err (TypeError "unexpected arguments")
  | _, _, _ => Err (TypeError "object is not callable")
  end.

Definition operator_apply (f : operator.t) (args : list value) : result value :=
  match f, args with
  | operator.neg, [VInt a] => Ok (VInt (- a))
  | operator.neg, [VSeries xs] =>
      of_option (VSeries <$> map_opt (fun x => z ← as_int x; Some (VInt (- z))) xs)
  | operator.abs, [VInt a] => Ok (VInt (Z.abs a))
  | operator.getitem, [VFrame cols; VStr c] =>
      match dict_get cols c with
      | Some col => Ok (VSeries col)
      | None => Err (KeyError c)
      end
  | operator.getitem, [VFrame cols; VSeries mask] =>
      match as_mask mask with
      | Some bs => Ok (VFrame (map (fun c => (fst c, select bs (snd c))) cols))
      | None => Err (KeyError "not a boolean mask")
      end
  | _, [VInt a; VInt b] => of_option (scalar_op f a b)
  | _, [VSeries xs; VInt b] =>
      of_option (VSeries <$> map_opt (fun x => a ← as_int x; scalar_op f a b) xs)
  | _, [VInt a; VSeries xs] =>
      of_option (VSeries <$> map_opt (fun x => b ← as_int x; scalar_op f a b) xs)
  | _, [VSeries xs; VSeries ys] =>
      of_option (VSeries <$> zip_opt (fun x y => a ← as_int x; b ← as_int y;
                                                 scalar_op f a b) xs ys)
  | _, _ => Err unsupported_operand
  end.

Definition dataset (obj : value) (dimension : string) : result value :=
  if String.eqb dimension "*" then
    if is_tabular obj || is_xarray obj then Ok obj
    else Err (ValueError "Dataset: no interface supports this data")
  else
    match obj with
    | VDataArray (Some n) _ =>
        if String.eqb n dimension then Ok obj else Err (KeyError dimension)
    | VFrame cols =>
        match dict_get cols dimension with
        | Some col => Ok (VSeries col)
        | None => Err (KeyError dimension)
        end
    | _ => Err (KeyError dimension)
    end.

#[global] Instance data : PyData := {|
  py_dir := dir;
  py_getattr := getattr;
  py_call := call;
  py_operator := operator_apply;
  py_dataset := dataset;
|}.

(** The frame of the running example: column [A = [1, 2, 3]] and a second
    column [B = [4, 5, 6]]. *)
Definition df : value :=
  VFrame [("A", [VInt 1; VInt 2; VInt 3]); ("B", [VInt 4; VInt 5; VInt 6])].

End Pandas.

(** The empty program state. *)
Definition s0 : state :=
  mkState [] {| _fig := None; next_fig := 0 |} (fun _ _ => VNone).

(** [Interactive(obj)] with every keyword at its default. *)
Definition wrap `{PyData} (obj : value) : M addr :=
  Interactive.__init__ obj None obj None false 0 (ALit (VStr "top_left")) false false
    [] (ALit (VInt 100)) None [].

(** [w.name], expected to record a data-level attribute. *)
Definition data_attr `{PyData} (w : addr) (name : string) : M addr :=
  let* r := Interactive.__getattribute__ w name in
  match r with
  | DataLevel new => ret new
  | WrapperLevel _ => raise (Unsupported "wrapper-level attribute")
  end.

(** ** What a method may do to the heap

    [keeps k s s']: the heap only grows, and every instance below address
    [k] is still there with all its fields but [_method] as they were. *)

Definition same_but_method (n n' : node) : Prop :=
  set_method None n' = set_method None n.

Definition keeps (k : nat) (s s' : state) : Prop :=
  length (heap s) <= length (heap s') /\
  forall a n, a < k -> heap s !! a = Some n ->
    exists n', heap s' !! a = Some n' /\ same_but_method n n'.

Definition preserves {A} (m : M A) : Prop :=
  forall k s r s', m s = (r, s') -> keeps k s s'.

Definition allocates (m : M addr) : Prop :=
  forall s new s', m s = (Ok new, s') ->
    length (heap s) <= new /\ new < length (heap s').

(** The operations that a wrapper intercepts: attribute access that
    records a data-level name, call, unary operator, [round], binary
    operator (the function is named as the method names it on [operator],
    with the [reverse] keyword the method passes), and a call of the
    plotting accessor. *)
Inductive interception : Type :=
| GetAttr (name : string)
| Call (args : list arg) (kwargs : kwargs_t)
| Unary (f : operator.t)
| Round (ndigits : option arg)
| Binary (name : string) (reverse : bool) (other : operand)
| Plotting (_kind : option string) (args : list arg) (kwargs : kwargs_t).

Definition intercept `{PyData} (i : interception) (self : addr) : M addr :=
  match i with
  | GetAttr name => data_attr self name
  | Call args kwargs => Interactive.__call__ self args kwargs
  | Unary f => Interactive.unary_operator f self
  | Round ndigits => Interactive.__round__ self ndigits
  | Binary name reverse other =>
      Interactive.binary_operator (operator.lookup name) reverse self other
  | Plotting _kind args kwargs => _hvplot.__call__ self args _kind kwargs
  end.

(** The public attribute names of a value (line 321). *)
Definition public_names `{PyData} (current : value) : list string :=
  List.filter (fun d => negb (startswith_underscore d)) (py_dir current).

(** The test of line 322, on the narrowed current value of a wrapper. *)
Definition data_level `{PyData} (n : node) (name : string) : bool :=
  match Interactive.narrowed n with
  | Ok current => str_in name (public_names current) && negb (str_in name super_dir)
  | Err _ => false
  end.

(** The condition of lines 185-193 under which [__init__] raises. *)
Definition unnamed_array (obj : value) : bool :=
  is_xarray obj && is_xarray_dataarray obj && negb (is_Some_b (obj_name obj)).

Definition unnamed_array_error : exn :=
  ValueError "Cannot use interactive API on DataArray without name.Assign a name to the DataArray and try again.".

(** The identity transform that [__init__] builds when none is given. *)
Definition initial_transform (obj : value) : dim :=
  if is_xarray obj then
    Dim xr_dim (if is_xarray_dataarray obj then default "*" (obj_name obj) else "*") []
  else if is_tabular obj then Dim df_dim "*" []
  else Dim plain_dim "*" [].

(** The transform that the callback applies (lines 245-247). *)
Definition live_transform (n : node) : dim :=
  if is_xarray (_obj n) && is_xarray_dataarray (_obj n)
  then dim_clone (_transform n) (obj_name (_obj n))
  else _transform n.

(** The callback's narrowing and presentation of a computed value
    (lines 249-257). *)
Definition present `{PyData} (n : node) (fs : figs) (v : value) : result output :=
  match (match nonempty (_method n) with
         | Some m => getattr3 v m v
         | None => Ok v
         end) with
  | Err e => Err e
  | Ok v' =>
      Ok (if _plot n then FigureSlot (_fig fs)
          else if is_dataframe v' then DataFramePane v' (_max_rows n) (_kwargs n)
          else Raw v')
  end.

(** The widget references met by [_find_widgets], in the order of the
    traversal and with repetitions. *)
Section Seen.
Variable ipywidgets_loaded : bool.

Fixpoint seen_arg (a : arg) {struct a} : list widget :=
  match a with
  | ASeq xs =>
      (fix go (xs : list arg) : list widget :=
         match xs with
         | [] => []
         | x :: xs' => seen_arg x ++ go xs'
         end) xs
  | APanelWidget id => [PanelWidget id]
  | ADim (Dim _ _ ops) =>
      (fix go (ops : list op) : list widget :=
         match ops with
         | [] => []
         | o :: ops' => seen_op o ++ go ops'
         end) ops
  | AIpyWidget id => if ipywidgets_loaded then [IpyWidget id] else []
  | AParam _ (OwnerWidget id) => [PanelWidget id]
  | _ => []
  end
with seen_op (o : op) {struct o} : list widget :=
  match o with
  | Op _ args kwargs _ _ =>
      (fix go (xs : list arg) : list widget :=
         match xs with
         | [] => []
         | x :: xs' => seen_arg x ++ go xs'
         end) args ++
      (fix go (kv : kwargs_t) : list widget :=
         match kv with
         | [] => []
         | (_, x) :: kv' => seen_arg x ++ go kv'
         end) kwargs
  end.

(** The widgets that own a parameter of the driver, then the references
    of every operation of the transform. *)
Definition seen_node (n : node) : list widget :=
  flat_map (fun p => match snd p with
                     | OwnerWidget id => [PanelWidget id]
                     | _ => []
                     end) (Interactive._fn_params n)
  ++ flat_map seen_op (dim_ops (_transform n)).

End Seen.

(** The loops of [scan_arg] and [_find_widgets] over positional and
    keyword arguments. *)
Definition scan_args (ipy : bool) (xs : list arg) (ws : list widget) : list widget :=
  fold_left (fun ws x => scan_arg ipy x ws) xs ws.

Definition scan_kwargs (ipy : bool) (kv : kwargs_t) (ws : list widget) : list widget :=
  fold_left (fun ws p => scan_arg ipy (snd p) ws) kv ws.

(** [w not in acc] *)
Definition not_in (acc : list widget) (w : widget) : bool :=
  negb (bool_decide (w ∈ acc)).

(** Each element once, at the place of its first occurrence. *)
Fixpoint first_seen (l : list widget) : list widget :=
  match l with
  | [] => []
  | w :: l' => w :: List.filter (fun w' => negb (bool_decide (w' = w))) (first_seen l')
  end.

(** ** Recorded operations and their direct application

    An operation on a wrapper with literal operands, the wrapper standing
    on the left: an attribute, a method call, a unary operator, a binary
    operator or indexing. *)
Inductive recorded : Type :=
| RAttr (name : string)
| RMethod (name : string) (args : list value) (kwargs : list (string * value))
| RUnary (f : operator.t)
| RBinary (f : operator.t) (other : value).

Definition lit_kwargs (kwargs : list (string * value)) : kwargs_t :=
  map (fun p => (fst p, ALit (snd p))) kwargs.

(** The operation performed on a wrapper. *)
Definition record `{PyData} (r : recorded) (w : addr) : M addr :=
  match r with
  | RAttr name => data_attr w name
  | RMethod name args kwargs =>
      let* m := data_attr w name in
      Interactive.__call__ m (map ALit args) (lit_kwargs kwargs)
  | RUnary f => Interactive.unary_operator f w
  | RBinary f other => Interactive.binary_operator (Ok f) false w (Literal (ALit other))
  end.

(** The same operation performed on the data. *)
Definition directly `{PyData} (r : recorded) (v : value) : result value :=
  match r with
  | RAttr name => py_getattr v name
  | RMethod name args kwargs =>
      match py_getattr v name with
      | Ok m => py_call m args kwargs
      | Err e => Err e
      end
  | RUnary f => py_operator f [v]
  | RBinary f other => py_operator f [v; other]
  end.

Fixpoint record_all `{PyData} (rs : list recorded) (w : addr) : M addr :=
  match rs with
  | [] => ret w
  | r :: rs' => let* w' := record r w in record_all rs' w'
  end.

Fixpoint directly_all `{PyData} (rs : list recorded) (v : value) : result value :=
  match rs with
  | [] => Ok v
  | r :: rs' =>
      match directly r v with
      | Ok v' => directly_all rs' v'
      | Err e => Err e
      end
  end.

(** A name that an attribute access on a wrapper over [v] records as a
    data-level name, the plotting method [plot] (which gets an axes
    provider injected) apart. *)
Definition data_name `{PyData} (v : value) (name : string) : Prop :=
  name <> "" /\ name <> "plot" /\
  str_in name (public_names v) = true /\ str_in name super_dir = false.

Definition admissible `{PyData} (r : recorded) (v : value) : Prop :=
  match r with
  | RAttr name => data_name v name
  | RMethod name _ kwargs => data_name v name /\ NoDup (map fst kwargs)
  | RUnary _ | RBinary _ _ => True
  end.

Fixpoint admissible_all `{PyData} (rs : list recorded) (v : value) : Prop :=
  match rs with
  | [] => True
  | r :: rs' =>
      admissible r v /\
      match directly r v with
      | Ok v' => admissible_all rs' v'
      | Err _ => True
      end
  end.

(** [shape obj s w c m]: the wrapper [w] is a node over [obj] that
    carries no display keywords, whose transform evaluates to its cached
    value [c] whatever the figure slot holds, and whose pending method is
    [m].  [tracks obj s w v] says that [v] is that value narrowed by the
    pending method, which is what [eval] returns. *)
Definition shape `{PyData} (obj : value) (s : state) (w : addr) (c : value)
    (m : option string) : Prop :=
  exists n,
    heap s !! w = Some n /\ _init n = true /\ _obj n = obj /\
    _kwargs n = [] /\ _inherit_kwargs n = [] /\
    (forall fs, apply_dim (params s) obj (_transform n) fs = (Ok c, fs)) /\
    _current n = c /\ _method n = m.

Definition pending `{PyData} (c : value) (m : option string) (v : value) : Prop :=
  match m with
  | None => v = c
  | Some name => name <> "" /\ name <> "plot" /\ py_getattr c name = Ok v
  end.

Definition tracks `{PyData} (obj : value) (s : state) (w : addr) (v : value) : Prop :=
  exists c m, shape obj s w c m /\ pending c m v.

(** ** The running example

    [w = Interactive(df)] over the frame with [A = [1, 2, 3]], and the
    expressions built on it. *)
Module Example.
Import Pandas.

Definition lit (z : Z) : operand := Literal (ALit (VInt z)).

(** The state after [w = Interactive(df)]; [w] is at address 0. *)
Definition s_w : state := snd (wrap df s0).

(** The state after [a = w.A]; [a] is at address 1. *)
Definition s_a : state := snd (intercept (GetAttr "A") 0 s_w).

(** The instances [w] and [a]. *)
Definition n_w : node :=
  mkNode df None true None (Dim df_dim "*" []) false 0 (ALit (VStr "top_left"))
         false false [] (ALit (VInt 100)) [] df None.

Definition n_a : node :=
  mkNode df None true (Some "A") (Dim df_dim "*" []) false 1 (ALit (VStr "top_left"))
         false false [] (ALit (VInt 100)) [] df None.

(** [w.A.max()] *)
Definition A_max : M value :=
  let* w := wrap df in
  let* a := data_attr w "A" in
  let* m := data_attr a "max" in
  let* r := Interactive.__call__ m [] [] in
  Interactive.eval r.

(** [w.A > 1] *)
Definition A_gt_1 : M value :=
  let* w := wrap df in
  let* a := data_attr w "A" in
  let* r := Interactive.__gt__ a (lit 1) in
  Interactive.eval r.

(** [w[w.A > 1]] *)
Definition rows_A_gt_1 : M value :=
  let* w := wrap df in
  let* a := data_attr w "A" in
  let* mask := Interactive.__gt__ a (lit 1) in
  let* r := Interactive.__getitem__ w (Wrapper mask) in
  Interactive.eval r.

(** [w.A - 10]: the wrapper on the left. *)
Definition A_minus_10 : M value :=
  let* w := wrap df in
  let* a := data_attr w "A" in
  let* r := Interactive.__sub__ a (lit 10) in
  Interactive.eval r.

(** [10 - w.A]: Python finds no [int.__sub__] for a wrapper and calls the
    wrapper's [__rsub__] with 10. *)
Definition ten_minus_A : M value :=
  let* w := wrap df in
  let* a := data_attr w "A" in
  let* r := Interactive.__rsub__ a (lit 10) in
  Interactive.eval r.

(** [10 + w.A]: the wrapper's [__radd__]. *)
Definition ten_plus_A : M value :=
  let* w := wrap df in
  let* a := data_attr w "A" in
  let* r := Interactive.__radd__ a (lit 10) in
  Interactive.eval r.

(** [w.A + w.B]: the right operand is a wrapper whose method [B] is
    still pending. *)
Definition A_plus_B : M value :=
  let* w := wrap df in
  let* a := data_attr w "A" in
  let* b := data_attr w "B" in
  let* r := Interactive.__add__ a (Wrapper b) in
  Interactive.eval r.

(** A transform that asks the frame for an attribute it does not have. *)
Definition missing_column : dim :=
  Dim df_dim "*" [Op (FAttr "Z") [] [] false true].

Definition plot_kinds : list string := ["line"; "scatter"; "bar"].

End Example.

(** ** Display: autocompletion, dependencies, output and layout *)

(** [name.startswith(prefix)] *)
Fixpoint startswith (name prefix : string) : bool :=
  match prefix with
  | EmptyString => true
  | String c prefix' =>
      match name with
      | String d name' => Ascii.eqb c d && startswith name' prefix'
      | EmptyString => false
      end
  end.

(** [sorted(set(names))]: ascending order of the code points, each name
    once. *)
Fixpoint insert_sorted (x : string) (l : list string) : list string :=
  match l with
  | [] => [x]
  | y :: l' =>
      match String.compare x y with
      | Lt => x :: l
      | Eq => l
      | Gt => y :: insert_sorted x l'
      end
  end.

Definition sorted_set (names : list string) : list string :=
  fold_right insert_sorted [] names.

(** [current.columns], the column labels of a DataFrame; a Series has no
    such attribute, so [hasattr(current, 'columns')] is false for it. *)
Definition columns (current : value) : option (list string) :=
  match current with
  | VFrame cols => Some (map fst cols)
  | _ => None
  end.

#[global] Instance owner_eq_dec : EqDecision owner.
Proof. solve_decision. Defined.

(** [x in names] for [loc], which is compared with strings. *)
Definition loc_in (loc : arg) (names : list string) : bool :=
  match loc with
  | ALit (VStr s) => str_in s names
  | _ => false
  end.

Definition loc_startswith (loc : arg) (prefix : string) : bool :=
  match loc with
  | ALit (VStr s) => startswith s prefix
  | _ => false
  end.

Module Display.

(** The object made from the callback of a node: [hv.DynamicMap(callback)]
    or [pn.panel(callback, **kwargs)].  What HoloViews and Panel do with
    the callback is theirs; the objects are kept as what they were made
    from. *)
Inductive view : Type :=
| DynamicMap (callback_of : addr)
| Panel (callback_of : addr) (kwargs : kwargs_t).

(** The two objects that [layout] arranges: the column of widgets returned
    by [widgets()] and the output. *)
Inductive item : Type :=
| WidgetBox (widgets : list widget)
| Output (v : view).

(** Panel's layout objects, as [layout] nests them. *)
Inductive component : Type :=
| VSpacer
| HSpacer
| Obj (x : item)
| Column (objects : list component)
| Row (objects : list component) (kwargs : kwargs_t).

(** Truth value of a layout object: Panel's rows and columns are
    list-like and define [__len__], so an empty one is false; anything
    else is true. *)
Definition component_truthy (c : component) : bool :=
  match c with
  | Column objects => negb (Nat.eqb (length objects) 0)
  | Row objects _ => negb (Nat.eqb (length objects) 0)
  | _ => true
  end.

(** A local variable that is read before any branch has assigned it:
    [layout] has no [else] after its tests of [loc] (line 561). *)
Inductive unbound : Type :=
| UnboundLocalError (name : string).

Section Methods.
Context `{PyData}.
(** ['ipywidgets' in sys.modules] *)
Variable ipywidgets_loaded : bool.
(** [transform.params] of HoloViews: the parameters met in the arguments
    of the operations, keyed by name. *)
Variable dim_params : dim -> list (string * (string * owner)).

(** Lines 230-237.  A parameter is identified by its name and its
    owner. *)
Definition _params (n : node) : list (string * owner) :=
  fold_left (fun ps kp =>
               if String.eqb (fst kp) "ax" || bool_decide (snd kp ∈ ps) then ps
               else ps ++ [snd kp])
            (dim_params (_transform n)) (Interactive._fn_params n).

(** Lines 278-288.  The names are strings, so the sort of line 286 does
    not raise and line 288 is not reached. *)
Definition __dir__ (self : addr) : M (list string) :=
  let* n := Interactive.self_node self in
  let* current := lift (Interactive.narrowed n) in
  let extras := public_names current in
  let extras :=
    if is_tabular current then
      match columns current with
      | Some cols => extras ++ cols
      | None => extras
      end
    else extras in
  ret (sorted_set (super_dir ++ extras)).

(** Lines 588-594. *)
Definition holoviews (self : addr) : M view :=
  let* _ := Interactive.self_node self in
  ret (DynamicMap self).

(** Lines 523-528. *)
Definition dmap (self : addr) : M view :=
  let* _ := Interactive.self_node self in
  ret (DynamicMap self).

(** Lines 607-611. *)
Definition panel (self : addr) (kwargs : kwargs_t) : M view :=
  let* _ := Interactive.self_node self in
  ret (Panel self kwargs).

(** Lines 596-605. *)
Definition output (self : addr) : M view :=
  let* n := Interactive.self_node self in
  if _dmap n then holoviews self else panel self (_kwargs n).

(** Lines 540-586. *)
Definition layout (self : addr) (kwargs : kwargs_t) : M (unbound + component) :=
  let* ws := widgets ipywidgets_loaded self in
  let widget_box := Obj (WidgetBox ws) in
  let* out := output self in
  let panel := Obj (Output out) in
  let* n := Interactive.self_node self in
  let loc := _loc n in
  let widgets :=
    if loc_in loc ["left"; "right"] then Some (Column [VSpacer; widget_box; VSpacer])
    else if loc_in loc ["top"; "bottom"] then Some (Row [HSpacer; widget_box; HSpacer] [])
    else if loc_in loc ["top_left"; "bottom_left"] then Some (Row [widget_box; HSpacer] [])
    else if loc_in loc ["top_right"; "bottom_right"] then Some (Row [HSpacer; widget_box] [])
    else if loc_in loc ["left_top"; "right_top"] then Some (Column [widget_box; VSpacer])
    else if loc_in loc ["left_bottom"; "right_bottom"] then Some (Column [VSpacer; widget_box])
    else None in
  let center := _center n in
  match widgets with
  | None => ret (inl (UnboundLocalError "widgets"))
  | Some widgets =>
      let components :=
        if negb (component_truthy widgets) then
          if center then Some [HSpacer; panel; HSpacer] else Some [panel]
        else if center then
          if loc_startswith loc "left" then Some [widgets; HSpacer; panel; HSpacer]
          else if loc_startswith loc "right" then Some [HSpacer; panel; HSpacer; widgets]
          else if loc_startswith loc "top" then
            Some [HSpacer; Column [widgets; Row [HSpacer; panel; HSpacer] []]; HSpacer]
          else if loc_startswith loc "bottom" then
            Some [HSpacer; Column [Row [HSpacer; panel; HSpacer] []; widgets]; HSpacer]
          else None
        else
          if loc_startswith loc "left" then Some [widgets; panel]
          else if loc_startswith loc "right" then Some [panel; widgets]
          else if loc_startswith loc "top" then Some [Column [widgets; panel]]
          else if loc_startswith loc "bottom" then Some [Column [panel; widgets]]
          else None in
      match components with
      | None => ret (inl (UnboundLocalError "components"))
      | Some components => ret (inr (Row components kwargs))
      end
  end.

End Methods.
End Display.

(** The widget box and the output met in a layout, from left to right
    and from top to bottom. *)
Fixpoint leaves (c : Display.component) : list Display.item :=
  match c with
  | Display.VSpacer | Display.HSpacer => []
  | Display.Obj x => [x]
  | Display.Column objects =>
      (fix go (cs : list Display.component) : list Display.item :=
         match cs with
         | [] => []
         | c' :: cs' => leaves c' ++ go cs'
         end) objects
  | Display.Row objects _ =>
      (fix go (cs : list Display.component) : list Display.item :=
         match cs with
         | [] => []
         | c' :: cs' => leaves c' ++ go cs'
         end) objects
  end.

(** The values of [loc] that one of the tests of lines 549-560 accepts. *)
Definition layout_locs : list string :=
  ["left"; "right"; "top"; "bottom"; "top_left"; "bottom_left"; "top_right";
   "bottom_right"; "left_top"; "right_top"; "left_bottom"; "right_bottom"].

(** The output of a node (line 605). *)
Definition output_of (self : addr) (n : node) : Display.view :=
  if _dmap n then Display.DynamicMap self else Display.Panel self (_kwargs n).

(** Ascending order without repetition. *)
Definition string_lt (a b : string) : Prop := String.compare a b = Lt.

(** ** Heap and figure disciplines

    [appends m]: whatever [m] returns or raises, the nodes that existed
    are all there, untouched, and new ones may follow them. *)
Definition appends {A} (m : M A) : Prop :=
  forall s r s', m s = (r, s') -> exists tail, heap s' = heap s ++ tail.

(** [created fs fs']: the figure in the slot of [fs'] was made after
    [fs]; [fresh_since fs fs']: the slot was left alone or holds such a
    figure. *)
Definition created (fs fs' : figs) : Prop :=
  exists k, _fig fs' = Some k /\ next_fig fs <= k /\ k < next_fig fs'.

Definition fresh_since (fs fs' : figs) : Prop :=
  fs' = fs \/ created fs fs'.

(** The keyword names that the constructor binds to named parameters;
    [**kwargs] of [__init__] never holds one of them. *)
Definition reserved_names : list string :=
  explicit_init_names ++ ["inherit_kwargs"; "max_rows"; "method"].

Definition clean (kw : kwargs_t) : bool :=
  forallb (fun k => negb (dict_has kw k)) reserved_names.

(** The keyword dictionaries of a node made through the public
    interface: [_kwargs] is a dictionary (its keys are distinct) of
    display keywords only, and [_inherit_kwargs] is empty or holds the
    axes provider (lines 299-301). *)
Definition wf_node (n : node) : Prop :=
  clean (_kwargs n) = true /\ NoDup (map fst (_kwargs n)) /\
  (_inherit_kwargs n = [] \/ _inherit_kwargs n = [("ax", AAxFn)]).

(** The merged keyword dictionary that [_clone] passes to the
    constructor (lines 268-271). *)
Definition merged_kwargs (n : node) (copy : bool) (kwargs : kwargs_t) : kwargs_t :=
  if copy then
    dict_update (_kwargs n)
      (dict_update [("inherit_kwargs", ADict (_inherit_kwargs n));
                    ("method", method_arg (_method n))] kwargs)
  else dict_update (_inherit_kwargs n) (dict_update (_kwargs n) kwargs).

Fixpoint ascending (names : list string) : Prop :=
  match names with
  | [] => True
  | x :: names' => Forall (string_lt x) names' /\ ascending names'
  end.

(** [derived n nn k]: [nn] is a node made from [n] in [k] clones that
    leave the layout options alone. *)
Definition derived (n nn : node) (k : nat) : Prop :=
  _obj nn = _obj n /\ _fn nn = _fn n /\ _init nn = true /\
  _depth nn = _depth n + k /\ _loc nn = _loc n /\ _center nn = _center n /\
  (_plot n = true -> _plot nn = true) /\
  wf_node nn /\ _max_rows nn = ALit (VInt 100) /\
  forall k v, dict_get (_kwargs n) k = Some v -> dict_get (_kwargs nn) k = Some v.

(** The interceptions that record an operation: all but the call of a
    wrapper that has no pending method, which configures the root
    (line 352). *)
Definition recording (i : interception) (n : node) : Prop :=
  match i with
  | Call _ _ => _method n <> None
  | _ => True
  end.

(** The number of clones an interception makes, and the pending method
    it leaves on its result. *)
Definition clones_of (i : interception) : nat :=
  match i with GetAttr _ => 1 | _ => 2 end.

Definition pending_of (i : interception) : option string :=
  match i with GetAttr name => Some name | _ => None end.

(** ** Further instances on the running example *)
Module Cases.
Import Pandas.

(** The state after [c = w(loc='center')]; [c] is at address 1. *)
Definition s_center : state :=
  snd (Interactive.__call__ 0 [] [("loc", ALit (VStr "center"))] Example.s_w).

Definition n_center : node :=
  mkNode df None true None (Dim df_dim "*" []) false 1 (ALit (VStr "center"))
         false false [] (ALit (VInt 100)) [] df None.

(** The state after [r = w(max_rows=5)]; [r] is at address 1. *)
Definition s_rows : state :=
  snd (Interactive.__call__ 0 [] [("max_rows", ALit (VInt 5))] Example.s_w).

Definition n_rows : node :=
  mkNode df None true None (Dim df_dim "*" []) false 1 (ALit (VStr "top_left"))
         false false [] (ALit (VInt 5)) [] df None.

(** The state after [p = w.plot]; [p] is at address 1. *)
Definition s_plot : state := snd (intercept (GetAttr "plot") 0 Example.s_w).

Definition n_plot : node :=
  mkNode df None true (Some "plot") (Dim df_dim "*" []) false 1 (ALit (VStr "top_left"))
         false false [] (ALit (VInt 100)) [] df None.

(** The state after [m = w.A > 1]; [m] is at address 3. *)
Definition s_mask : state :=
  snd (Interactive.__gt__ 1 (Example.lit 1) Example.s_a).

(** A function of one slider (widget 7) that returns a frame with the
    slider's value in column [A]. *)
Definition slider : driver :=
  mkDriver [("value", OwnerWidget 7)]
           (fun pv => Ok (VFrame [("A", [pv 7 "value"])])).

Definition n_slider : node :=
  mkNode (VFrame [("A", [VNone])]) (Some slider) true None (Dim plain_dim "*" []) false 0
         (ALit (VStr "top_left")) false false [] (ALit (VInt 100)) []
         (VFrame [("A", [VNone])]) None.

(** The state after [f = Interactive(slider)], once the slider has been
    moved to 5. *)
Definition s_slider : state :=
  mkState [n_slider] {| _fig := None; next_fig := 0 |}
          (fun id name => if Nat.eqb id 7 then VInt 5 else VNone).

End Cases.

(** * Properties *)

(** ** The transform application, equationally *)

Section ApplyFacts.
Context `{PyData}.
Variable pv : nat -> string -> value.
Variable obj : value.

Lemma apply_op_unfold fn args kwargs reverse accessor data fs :
  apply_op pv obj (Op fn args kwargs reverse accessor) data fs =
  match resolve_args pv obj args fs with
  | (Err e, fs1) => (Err e, fs1)
  | (Ok vs, fs1) =>
      match resolve_kwargs pv obj kwargs fs1 with
      | (Err e, fs2) => (Err e, fs2)
      | (Ok kvs, fs2) => (apply_fn fn reverse accessor data vs kvs, fs2)
      end
  end.
Proof. reflexivity. Qed.

Lemma apply_dim_unfold k dimension ops fs :
  apply_dim pv obj (Dim k dimension ops) fs =
  match py_dataset obj dimension with
  | Err e => (Err e, fs)
  | Ok data0 => apply_ops pv obj ops data0 fs
  end.
Proof. reflexivity. Qed.

Lemma apply_ops_app ops1 ops2 data fs :
  apply_ops pv obj (ops1 ++ ops2) data fs =
  match apply_ops pv obj ops1 data fs with
  | (Err e, fs') => (Err e, fs')
  | (Ok data', fs') => apply_ops pv obj ops2 data' fs'
  end.
Proof.
  revert data fs. induction ops1 as [|o ops1 IH]; intros data fs; [reflexivity|].
  cbn [app apply_ops]. destruct (apply_op pv obj o data fs) as [[d'|e] s']; [|reflexivity].
  apply IH.
Qed.

End ApplyFacts.

(** ** What a method may do to the heap *)

Lemma keeps_refl k s : keeps k s s.
Proof. split; [lia|]. intros a n _ Hn. exists n. split; [exact Hn | reflexivity]. Qed.

Lemma keeps_heap_eq k s s' : heap s' = heap s -> keeps k s s'.
Proof.
  intros E. split; [rewrite E; lia|]. intros a n _ Hn. exists n.
  rewrite E. split; [exact Hn | reflexivity].
Qed.

Lemma keeps_trans k s1 s2 s3 : keeps k s1 s2 -> keeps k s2 s3 -> keeps k s1 s3.
Proof.
  intros [L1 F1] [L2 F2]. split; [lia|]. intros a n Ha Hn.
  destruct (F1 a n Ha Hn) as (n1 & Hn1 & E1).
  destruct (F2 a n1 Ha Hn1) as (n2 & Hn2 & E2).
  exists n2. split; [exact Hn2|]. unfold same_but_method in *. congruence.
Qed.

Lemma preserves_ret {A} (a : A) : preserves (ret a).
Proof. intros k s r s' E. inversion E; subst. apply keeps_refl. Qed.

Lemma preserves_raise {A} (e : exn) : preserves (@raise A e).
Proof. intros k s r s' E. inversion E; subst. apply keeps_refl. Qed.

Lemma preserves_lift {A} (x : result A) : preserves (lift x).
Proof. intros k s r s' E. inversion E; subst. apply keeps_refl. Qed.

Lemma preserves_bind {A B} (m : M A) (f : A -> M B) :
  preserves m -> (forall a, preserves (f a)) -> preserves (bind m f).
Proof.
  intros Hm Hf k s r s' E. unfold bind in E.
  destruct (m s) as [[a|e] s1] eqn:Em.
  - eapply keeps_trans; [eapply Hm, Em | eapply Hf, E].
  - inversion E; subst. eapply Hm, Em.
Qed.

Lemma preserves_finally {A} (m : M A) (h : M unit) :
  preserves m -> preserves h -> preserves (finally m h).
Proof.
  intros Hm Hh k s r s' E. unfold finally in E.
  destruct (m s) as [r1 s1] eqn:Em. destruct (h s1) as [[u|e] s2] eqn:Eh;
    inversion E; subst; (eapply keeps_trans; [eapply Hm, Em | eapply Hh, Eh]).
Qed.

Lemma preserves_get_node a : preserves (get_node a).
Proof.
  intros k s r s' E. unfold get_node in E.
  destruct (heap s !! a); inversion E; subst; apply keeps_refl.
Qed.

Lemma preserves_alloc n : preserves (alloc n).
Proof.
  intros k s r s' E. inversion E; subst. split; cbn [heap].
  - rewrite length_app. lia.
  - intros a n0 _ Hn. exists n0. split; [|reflexivity].
    apply lookup_app_l_Some, Hn.
Qed.

Lemma preserves_set_method a m : preserves (modify_node a (set_method m)).
Proof.
  intros k s r s' E. unfold modify_node in E.
  destruct (heap s !! a) as [n|] eqn:Ea; inversion E; subst; [|apply keeps_refl].
  split; cbn [heap]; [rewrite length_insert; lia|].
  intros b nb _ Hb. destruct (decide (a = b)) as [->|Hne].
  - exists (set_method m n). split.
    + apply list_lookup_insert_eq. eapply lookup_lt_Some, Ea.
    + assert (nb = n) by congruence. subst. reflexivity.
  - exists nb. split; [|reflexivity]. rewrite list_lookup_insert_ne; auto.
Qed.

Lemma keeps_modify_above k a f s r s' :
  k <= a -> modify_node a f s = (r, s') -> keeps k s s'.
Proof.
  intros Hk E. unfold modify_node in E.
  destruct (heap s !! a) as [n|] eqn:Ea; inversion E; subst; [|apply keeps_refl].
  split; cbn [heap]; [rewrite length_insert; lia|].
  intros b nb Hb Hnb. exists nb. split; [|reflexivity].
  rewrite list_lookup_insert_ne; [exact Hnb | lia].
Qed.

Lemma preserves_transform_apply `{PyData} t obj : preserves (transform_apply t obj).
Proof.
  intros k s r s' E. unfold transform_apply in E.
  destruct (apply_dim (params s) obj t (figures s)) as [r1 fs]. inversion E; subst.
  apply keeps_heap_eq. reflexivity.
Qed.

Lemma allocates_raise e : allocates (raise e).
Proof. intros s new s' E. inversion E. Qed.

Lemma allocates_bind {A} (m : M A) (f : A -> M addr) :
  preserves m -> (forall a, allocates (f a)) -> allocates (bind m f).
Proof.
  intros Hm Hf s new s' E. unfold bind in E.
  destruct (m s) as [[a|e] s1] eqn:Em; [|inversion E].
  destruct (Hm 0 _ _ _ Em) as [L _]. destruct (Hf a _ _ _ E). lia.
Qed.

Lemma allocates_finally (m : M addr) (h : M unit) :
  allocates m -> preserves h -> allocates (finally m h).
Proof.
  intros Hm Hh s new s' E. unfold finally in E.
  destruct (m s) as [r1 s1] eqn:Em. destruct (h s1) as [[u|e] s2] eqn:Eh;
    inversion E; subst.
  destruct (Hm _ _ _ Em). destruct (Hh 0 _ _ _ Eh) as [L _]. lia.
Qed.

Lemma allocates_alloc n : allocates (alloc n).
Proof.
  intros s new s' E. inversion E; subst. cbn [heap]. rewrite length_app. cbn. lia.
Qed.

Create HintDb frame.

#[local] Hint Resolve preserves_ret preserves_raise preserves_lift preserves_get_node
  preserves_alloc preserves_set_method preserves_transform_apply
  allocates_raise allocates_alloc : frame.

(** Splits a goal about a method body along its control structure. *)
Ltac frame_step :=
  match goal with
  | |- preserves (let _ := _ in _) => cbv zeta
  | |- allocates (let _ := _ in _) => cbv zeta
  | |- preserves (bind _ _) => apply preserves_bind; [|intros ?]
  | |- preserves (finally _ _) => apply preserves_finally
  | |- allocates (bind _ _) => apply allocates_bind; [|intros ?]
  | |- allocates (finally _ _) => apply allocates_finally
  | |- preserves (match ?x with _ => _ end) => destruct x
  | |- allocates (match ?x with _ => _ end) => destruct x
  | |- preserves (if ?x then _ else _) => destruct x
  | |- allocates (if ?x then _ else _) => destruct x
  | |- _ => solve [auto with frame]
  end.

Ltac frame := repeat frame_step.

Section MethodFrames.
Context `{PyData}.

Lemma preserves_self_node self : preserves (Interactive.self_node self).
Proof. unfold Interactive.self_node. frame. Qed.

Lemma preserves_init sobj fn obj transform plot depth loc center dmap ik mr method kw :
  preserves (Interactive.__init__ sobj fn obj transform plot depth loc center dmap ik mr
               method kw).
Proof. unfold Interactive.__init__. frame. Qed.

Lemma allocates_init sobj fn obj transform plot depth loc center dmap ik mr method kw :
  allocates (Interactive.__init__ sobj fn obj transform plot depth loc center dmap ik mr
               method kw).
Proof. unfold Interactive.__init__. frame. Qed.

Lemma preserves_construct obj fn t plot depth loc center dmap kw :
  preserves (Interactive.construct obj fn t plot depth loc center dmap kw).
Proof.
  unfold Interactive.construct.
  destruct (existsb _ _); [frame|].
  do 2 (apply preserves_bind; [frame | intros ?]). apply preserves_init.
Qed.

Lemma allocates_construct obj fn t plot depth loc center dmap kw :
  allocates (Interactive.construct obj fn t plot depth loc center dmap kw).
Proof.
  unfold Interactive.construct.
  destruct (existsb _ _); [frame|].
  do 2 (apply allocates_bind; [frame | intros ?]). apply allocates_init.
Qed.

#[local] Hint Resolve preserves_self_node preserves_init allocates_init
  preserves_construct allocates_construct : frame.

Lemma preserves_clone self tr plot loc center dmap copy kw :
  preserves (Interactive._clone self tr plot loc center dmap copy kw).
Proof. unfold Interactive._clone. frame. Qed.

Lemma allocates_clone self tr plot loc center dmap copy kw :
  allocates (Interactive._clone self tr plot loc center dmap copy kw).
Proof. unfold Interactive._clone. frame. Qed.

#[local] Hint Resolve preserves_clone allocates_clone : frame.

Lemma preserves_clone_star self args kw :
  preserves (Interactive._clone_star self args kw).
Proof. unfold Interactive._clone_star. frame. Qed.

Lemma allocates_clone_star self args kw :
  allocates (Interactive._clone_star self args kw).
Proof. unfold Interactive._clone_star. frame. Qed.

Lemma preserves_resolve_accessor self :
  preserves (Interactive._resolve_accessor self).
Proof. unfold Interactive._resolve_accessor. frame. Qed.

Lemma allocates_resolve_accessor self :
  allocates (Interactive._resolve_accessor self).
Proof. unfold Interactive._resolve_accessor. frame. Qed.

#[local] Hint Resolve preserves_clone_star allocates_clone_star
  preserves_resolve_accessor allocates_resolve_accessor : frame.

Lemma preserves_call self args kw : preserves (Interactive.__call__ self args kw).
Proof. unfold Interactive.__call__. frame. Qed.

Lemma allocates_call self args kw : allocates (Interactive.__call__ self args kw).
Proof. unfold Interactive.__call__. frame. Qed.

Lemma preserves_apply_operator self f args kw :
  preserves (Interactive._apply_operator self f args kw).
Proof. unfold Interactive._apply_operator. frame. Qed.

Lemma allocates_apply_operator self f args kw :
  allocates (Interactive._apply_operator self f args kw).
Proof. unfold Interactive._apply_operator. frame. Qed.

#[local] Hint Resolve preserves_apply_operator allocates_apply_operator : frame.

Lemma preserves_operand_arg other : preserves (Interactive.operand_arg other).
Proof. unfold Interactive.operand_arg. frame. Qed.

#[local] Hint Resolve preserves_operand_arg : frame.

Lemma preserves_binary_operator f reverse self other :
  preserves (Interactive.binary_operator f reverse self other).
Proof. unfold Interactive.binary_operator. frame. Qed.

Lemma allocates_binary_operator f reverse self other :
  allocates (Interactive.binary_operator f reverse self other).
Proof. unfold Interactive.binary_operator. frame. Qed.

Lemma preserves_unary_operator f self :
  preserves (Interactive.unary_operator f self).
Proof. unfold Interactive.unary_operator. frame. Qed.

Lemma allocates_unary_operator f self :
  allocates (Interactive.unary_operator f self).
Proof. unfold Interactive.unary_operator. frame. Qed.

Lemma preserves_round self ndigits : preserves (Interactive.__round__ self ndigits).
Proof. unfold Interactive.__round__. frame. Qed.

Lemma allocates_round self ndigits : allocates (Interactive.__round__ self ndigits).
Proof. unfold Interactive.__round__. frame. Qed.

Lemma preserves_hvplot_call self args kind kw :
  preserves (_hvplot.__call__ self args kind kw).
Proof. unfold _hvplot.__call__. frame. Qed.

Lemma allocates_hvplot_call self args kind kw :
  allocates (_hvplot.__call__ self args kind kw).
Proof. unfold _hvplot.__call__. frame. Qed.

End MethodFrames.

(** ** Attribute resolution *)

Lemma str_in_In name names : str_in name names = true <-> In name names.
Proof.
  unfold str_in. rewrite existsb_exists. split.
  - intros (x & Hx & E). apply String.eqb_eq in E. subst. exact Hx.
  - intros Hin. exists name. split; [exact Hin | apply String.eqb_refl].
Qed.

Lemma private_not_public `{PyData} current name :
  startswith_underscore name = true -> str_in name (public_names current) = false.
Proof.
  intros Hp. destruct (str_in name (public_names current)) eqn:E; [|reflexivity].
  apply str_in_In in E. unfold public_names in E. apply filter_In in E.
  destruct E as [_ E]. rewrite Hp in E. discriminate.
Qed.

Section Resolution.
Context `{PyData}.

Lemma getattribute_data s self n name current :
  heap s !! self = Some n -> _init n = true ->
  Interactive.narrowed n = Ok current ->
  str_in name (public_names current) && negb (str_in name super_dir) = true ->
  Interactive.__getattribute__ self name s =
  (let* new := Interactive._resolve_accessor self in
   let* _ := modify_node new (set_method (Some name)) in
   let* _ :=
     match py_getattr current name with
     | Ok v =>
         match py_getattr v "__doc__" with
         | Ok d => modify_node new (set_doc (Some d))
         | Err _ => ret tt
         end
     | Err _ => ret tt
     end in
   ret (DataLevel new)) s.
Proof.
  intros Hn Hi Hc Hd. unfold Interactive.__getattribute__, bind at 1, get_node.
  rewrite Hn, Hi. cbn [negb]. unfold bind at 1, lift. rewrite Hc.
  unfold public_names in Hd. rewrite Hd. reflexivity.
Qed.

Lemma getattribute_own s self n name :
  heap s !! self = Some n -> _init n = true ->
  is_ok (Interactive.narrowed n) = true -> data_level n name = false ->
  Interactive.__getattribute__ self name s = object_getattribute name s.
Proof.
  intros Hn Hi Hc Hd. unfold Interactive.__getattribute__, bind at 1, get_node.
  rewrite Hn, Hi. cbn [negb]. unfold bind at 1, lift. unfold data_level in Hd.
  destruct (Interactive.narrowed n) as [current|e]; [|discriminate].
  unfold public_names in Hd. rewrite Hd. reflexivity.
Qed.

Lemma object_getattribute_inv name s r s' :
  object_getattribute name s = (Ok r, s') -> r = WrapperLevel name /\ s' = s.
Proof.
  unfold object_getattribute. destruct (str_in name super_dir); intros E;
    inversion E; auto.
Qed.

Lemma modify_node_lookup a f s r s' :
  modify_node a f s = (r, s') ->
  length (heap s') = length (heap s) /\
  forall n, heap s !! a = Some n -> heap s' !! a = Some (f n).
Proof.
  unfold modify_node. destruct (heap s !! a) as [n|] eqn:Ea; intros E;
    inversion E; subst; cbn [heap].
  - split; [apply length_insert|]. intros n0 E0. inversion E0; subst.
    apply list_lookup_insert_eq. eapply lookup_lt_Some, Ea.
  - split; [reflexivity|]. intros n0 E0. discriminate.
Qed.

(** The data-level path: the node returned is new, records [name] as its
    pending method, and the nodes that existed keep their fields. *)
Lemma getattribute_data_result s self n name current r s' :
  heap s !! self = Some n -> _init n = true ->
  Interactive.narrowed n = Ok current ->
  str_in name (public_names current) && negb (str_in name super_dir) = true ->
  Interactive.__getattribute__ self name s = (Ok r, s') ->
  exists new nn, r = DataLevel new /\ length (heap s) <= new /\
    heap s' !! new = Some nn /\ _method nn = Some name /\
    keeps (length (heap s)) s s'.
Proof.
  intros Hn Hi Hc Hd E. rewrite (getattribute_data _ _ _ _ _ Hn Hi Hc Hd) in E.
  unfold bind at 1 in E.
  destruct (Interactive._resolve_accessor self s) as [[new|e] s1] eqn:E1; [|discriminate].
  destruct (allocates_resolve_accessor _ _ _ _ E1) as [Hlo Hhi].
  pose proof (preserves_resolve_accessor _ (length (heap s)) _ _ _ E1) as K1.
  unfold bind at 1 in E.
  destruct (modify_node new (set_method (Some name)) s1) as [[u|e] s2] eqn:E2; [|discriminate].
  destruct (modify_node_lookup _ _ _ _ _ E2) as [L2 Look2].
  pose proof (preserves_set_method _ _ (length (heap s)) _ _ _ E2) as K2.
  destruct (lookup_lt_is_Some_2 (heap s1) new Hhi) as [n1 Hn1].
  specialize (Look2 _ Hn1).
  unfold bind at 1 in E.
  match type of E with
  | context [match ?m s2 with _ => _ end] => destruct (m s2) as [[u3|e3] s3] eqn:E3
  end; [|discriminate].
  inversion E; subst r s'. clear E.
  assert (K3 : keeps (length (heap s)) s2 s3 /\
               exists n3, heap s3 !! new = Some n3 /\ _method n3 = Some name).
  { destruct (py_getattr current name) as [v|e].
    - destruct (py_getattr v "__doc__") as [d|e].
      + split; [eapply keeps_modify_above; [exact Hlo | exact E3]|].
        destruct (modify_node_lookup _ _ _ _ _ E3) as [_ Look3].
        eexists. split; [apply Look3, Look2 | reflexivity].
      + inversion E3; subst. split; [apply keeps_refl|].
        eexists. split; [exact Look2 | reflexivity].
    - inversion E3; subst. split; [apply keeps_refl|].
      eexists. split; [exact Look2 | reflexivity]. }
  destruct K3 as [K3 (n3 & Hn3 & Hm3)].
  exists new, n3. repeat split; auto.
  - eapply keeps_trans; [exact K1|]. eapply keeps_trans; [exact K2 | exact K3].
  - destruct (keeps_trans _ _ _ _ K1 (keeps_trans _ _ _ _ K2 K3)) as [_ F]. exact F.
Qed.

End Resolution.


(** ** New nodes, untouched origins *)

Lemma intercept_frame `{PyData} (i : interception) (self : addr) (s s' : state)
    (r : result addr) :
  intercept i self s = (r, s') ->
  keeps (length (heap s)) s s' /\
  forall new, r = Ok new -> length (heap s) <= new /\ new < length (heap s').
Proof.
  destruct i as [name|args kw|f|nd|name rev other|kind args kw]; cbn [intercept]; intros E.
  - unfold data_attr, bind in E.
    destruct (Interactive.__getattribute__ self name s) as [[a|e] s1] eqn:E1.
    + assert (G : keeps (length (heap s)) s s1 /\
                  forall new, a = DataLevel new ->
                    length (heap s) <= new /\ new < length (heap s1)).
      { unfold Interactive.__getattribute__, bind at 1, get_node in E1.
        destruct (heap s !! self) as [n|] eqn:Hn; [|discriminate].
        destruct (_init n) eqn:Hi; cbn [negb] in E1.
        - unfold bind at 1, lift in E1.
          destruct (Interactive.narrowed n) as [current|e] eqn:Hc; [|discriminate].
          match type of E1 with
          | context [if ?c then _ else _] => destruct c eqn:Hd
          end.
          + assert (E1' : Interactive.__getattribute__ self name s = (Ok a, s1)).
            { rewrite (getattribute_data _ _ _ _ _ Hn Hi Hc Hd). exact E1. }
            destruct (getattribute_data_result _ _ _ _ _ _ _ Hn Hi Hc Hd E1')
              as (new & nn & -> & Hlo & Hnn & _ & K).
            split; [exact K|]. intros new' Eq. inversion Eq; subst.
            split; [exact Hlo | eapply lookup_lt_Some, Hnn].
          + apply object_getattribute_inv in E1. destruct E1 as [-> ->].
            split; [apply keeps_refl | intros new' Eq; discriminate].
        - apply object_getattribute_inv in E1. destruct E1 as [-> ->].
          split; [apply keeps_refl | intros new' Eq; discriminate]. }
      destruct G as [K G]. destruct a as [new|nm]; inversion E; subst.
      * split; [exact K|]. intros new' Eq. inversion Eq; subst. apply G. reflexivity.
      * split; [exact K | intros new' Eq; discriminate].
    + inversion E; subst. split; [|intros new' Eq; discriminate].
      unfold Interactive.__getattribute__, bind at 1, get_node in E1.
      destruct (heap s !! self) as [n|] eqn:Hn;
        [|inversion E1; subst; apply keeps_refl].
      destruct (_init n) eqn:Hi; cbn [negb] in E1.
      * unfold bind at 1, lift in E1.
        destruct (Interactive.narrowed n) as [current|e'] eqn:Hc;
          [|inversion E1; subst; apply keeps_refl].
        match type of E1 with
        | context [if ?c then _ else _] => destruct c eqn:Hd
        end.
        -- unfold bind at 1 in E1.
           destruct (Interactive._resolve_accessor self s) as [[new|e1] s2] eqn:E2.
           ++ destruct (allocates_resolve_accessor _ _ _ _ E2) as [Hlo _].
              pose proof (preserves_resolve_accessor _ (length (heap s)) _ _ _ E2) as K1.
              unfold bind at 1 in E1.
              destruct (modify_node new (set_method (Some name)) s2) as [[u|e2] s3] eqn:E3.
              ** pose proof (preserves_set_method _ _ (length (heap s)) _ _ _ E3) as K2.
                 unfold bind at 1 in E1.
                 match type of E1 with
                 | context [match ?m s3 with _ => _ end] =>
                     destruct (m s3) as [[u3|e3] s4] eqn:E4
                 end; [discriminate|]. inversion E1; subst.
                 eapply keeps_trans; [exact K1|]. eapply keeps_trans; [exact K2|].
                 destruct (py_getattr current name) as [v|ev];
                   [destruct (py_getattr v "__doc__") as [d|ed]|];
                   first [ eapply keeps_modify_above; [exact Hlo | exact E4]
                         | inversion E4 ].
              ** inversion E1; subst.
                 eapply keeps_trans; [exact K1|].
                 eapply preserves_set_method, E3.
           ++ inversion E1; subst.
              eapply preserves_resolve_accessor, E2.
        -- unfold object_getattribute in E1.
           destruct (str_in name super_dir); inversion E1; subst. apply keeps_refl.
      * unfold object_getattribute in E1.
        destruct (str_in name super_dir); inversion E1; subst. apply keeps_refl.
  - split; [eapply preserves_call, E|]. intros new ->. eapply allocates_call, E.
  - split; [eapply preserves_unary_operator, E|]. intros new ->.
    eapply allocates_unary_operator, E.
  - split; [eapply preserves_round, E|]. intros new ->. eapply allocates_round, E.
  - split; [eapply preserves_binary_operator, E|]. intros new ->.
    eapply allocates_binary_operator, E.
  - split; [eapply preserves_hvplot_call, E|]. intros new ->.
    eapply allocates_hvplot_call, E.
Qed.

(** C6: an intercepting operation that returns, returns a node that did
    not exist before, and every node that existed, the originating one
    included, still has all its fields as they were, the pending-method
    slot [_method] excepted.  (The replacement of [_obj] when a driver's
    dependency fires is [_update_obj], which is not an interception.) *)
Theorem interception_returns_new_node `{PyData} (i : interception) (self new : addr)
    (s s' : state) :
  intercept i self s = (Ok new, s') ->
  heap s !! new = None /\ is_Some (heap s' !! new) /\
  forall a n, heap s !! a = Some n ->
    exists n', heap s' !! a = Some n' /\
      _obj n' = _obj n /\ _fn n' = _fn n /\ _init n' = _init n /\
      _transform n' = _transform n /\ _plot n' = _plot n /\
      _depth n' = _depth n /\ _loc n' = _loc n /\ _center n' = _center n /\
      _dmap n' = _dmap n /\ _inherit_kwargs n' = _inherit_kwargs n /\
      _max_rows n' = _max_rows n /\ _kwargs n' = _kwargs n /\
      _current n' = _current n /\ __doc__ n' = __doc__ n.
Proof.
  intros E. destruct (intercept_frame _ _ _ _ _ E) as [[_ K] F].
  destruct (F new eq_refl) as [Hlo Hhi]. split; [|split].
  - apply lookup_ge_None. lia.
  - apply lookup_lt_is_Some. exact Hhi.
  - intros a n Hn. destruct (K a n) as (n' & Hn' & Same).
    + eapply lookup_lt_Some, Hn.
    + exact Hn.
    + exists n'. split; [exact Hn'|]. unfold same_but_method in Same.
      destruct n, n'. cbn in *. inversion Same; subst. repeat split.
Qed.

(** ** Construction *)

Section Construction.
Context `{PyData}.

Lemma init_transform_inv sobj fn obj t plot depth loc center dmap ik mr method kw s r s' :
  Interactive.__init__ sobj fn obj (Some t) plot depth loc center dmap ik mr method kw s
  = (r, s') ->
  match apply_dim (params s) sobj t (figures s) with
  | (Ok cur, fs) =>
      r = Ok (length (heap s)) /\
      s' = mkState (heap s ++ [mkNode sobj fn true method t plot depth loc center
                                 dmap ik mr kw cur None]) fs (params s)
  | (Err e, fs) => r = Err e /\ s' = mkState (heap s) fs (params s)
  end.
Proof.
  unfold Interactive.__init__, bind, ret, transform_apply, alloc.
  destruct (apply_dim (params s) sobj t (figures s)) as [[cur|e] fs]; cbn;
    intros E; inversion E; subst; auto.
Qed.

(** The fields of a clone. *)
Lemma clone_ok_inv self tr plot loc center dmap copy kw s new s' :
  Interactive._clone self tr plot loc center dmap copy kw s = (Ok new, s') ->
  exists n nn,
    heap s !! self = Some n /\ new = length (heap s) /\
    heap s' = heap s ++ [nn] /\ params s' = params s /\
    _obj nn = _obj n /\ _fn nn = _fn n /\ _init nn = true /\
    _transform nn = default (_transform n) tr /\
    _plot nn = (_plot n || default false plot) /\
    _depth nn = _depth n + 1 /\
    _loc nn = default (_loc n) loc /\
    _center nn = default (_center n) center /\
    _dmap nn = default (_dmap n) dmap /\
    apply_dim (params s) (_obj n) (_transform nn) (figures s) = (Ok (_current nn), figures s').
Proof.
  unfold Interactive._clone, bind at 1. unfold Interactive.self_node, bind at 1, get_node.
  destruct (heap s !! self) as [n|] eqn:Hn; [|discriminate].
  intros E.
  assert (E' : (let* kwargs :=
                  if copy
                  then if dict_has kw "inherit_kwargs" || dict_has kw "method"
                       then raise (TypeError "dict() got multiple values for keyword argument")
                       else ret (dict_update (_kwargs n)
                              (dict_update [("inherit_kwargs", ADict (_inherit_kwargs n));
                                            ("method", method_arg (_method n))] kw))
                  else ret (dict_update (_inherit_kwargs n) (dict_update (_kwargs n) kw)) in
                Interactive.construct (_obj n) (_fn n) (default (_transform n) tr)
                  (_plot n || default false plot) (_depth n + 1) (default (_loc n) loc)
                  (default (_center n) center) (default (_dmap n) dmap) kwargs) s
               = (Ok new, s')).
  { destruct (_init n); [|exact E].
    unfold bind at 1, lift in E. destruct (Interactive.narrowed n); [exact E | discriminate]. }
  clear E. unfold bind at 1 in E'.
  match type of E' with
  | context [match ?m s with _ => _ end] => destruct (m s) as [[kw'|e] s1] eqn:Ek
  end; [|discriminate].
  assert (s1 = s) as ->.
  { destruct copy; [destruct (_ || _)|]; inversion Ek; reflexivity. }
  unfold Interactive.construct in E'.
  destruct (existsb _ _); [discriminate|].
  unfold bind at 1 in E'.
  match type of E' with
  | context [match ?m s with _ => _ end] => destruct (m s) as [[ik|e] s2] eqn:Ei
  end; [|discriminate].
  assert (s2 = s) as ->.
  { destruct (dict_get kw' "inherit_kwargs") as [[]|]; inversion Ei; reflexivity. }
  unfold bind at 1 in E'.
  match type of E' with
  | context [match ?m s with _ => _ end] => destruct (m s) as [[me|e] s3] eqn:Em
  end; [|discriminate].
  assert (s3 = s) as ->.
  { destruct (dict_get kw' "method") as [[[]| | | | | | |]|]; inversion Em; reflexivity. }
  apply init_transform_inv in E'.
  destruct (apply_dim (params s) (_obj n) (default (_transform n) tr) (figures s))
    as [[cur|e] fs] eqn:Ea; destruct E' as [E1 E2]; [|discriminate].
  inversion E1; subst new. subst s'. cbn [heap params figures].
  eexists n, _. repeat split; try reflexivity. cbn. exact Ea.
Qed.

End Construction.

(** ** Calling a wrapper that has no pending method *)


(** ** The plotting accessor *)

Lemma dict_get_set_eq {A} (d : list (string * A)) k v :
  dict_get (dict_set d k v) k = Some v.
Proof.
  induction d as [|[k' v'] d IH]; cbn.
  - rewrite String.eqb_refl. reflexivity.
  - destruct (String.eqb k' k) eqn:E; cbn.
    + rewrite String.eqb_refl. reflexivity.
    + rewrite E. exact IH.
Qed.

Lemma dim_call_accessor t m args kwargs :
  dim_call (dim_new t (FAttr m) [] [("accessor", ALit (VBool true))]) args kwargs =
  Ok (Dim (dim_kind t) (dim_dimension t)
        (dim_ops t ++ [Op (FAttr m) args kwargs false false])).
Proof.
  unfold dim_call, dim_new. cbn. rewrite rev_app_distr. cbn.
  rewrite rev_involutive. reflexivity.
Qed.

(** ** Eager validation and eager application *)

Lemma init_default_transform `{PyData} sobj fn obj plot depth loc center dmap ik mr method
    kw s :
  unnamed_array obj = false ->
  Interactive.__init__ sobj fn obj None plot depth loc center dmap ik mr method kw s
  = Interactive.__init__ sobj fn obj (Some (initial_transform obj)) plot depth loc center
      dmap ik mr method kw s.
Proof.
  intros Hu. unfold unnamed_array in Hu.
  unfold Interactive.__init__, bind, initial_transform.
  destruct (is_xarray obj); [|destruct (is_tabular obj); reflexivity].
  destruct (is_xarray_dataarray obj); [|reflexivity].
  destruct (obj_name obj); [reflexivity | discriminate].
Qed.

(** C4: constructing a wrapper, with no transform given, over a
    DataArray that has no name raises the [ValueError] at once and leaves
    the state as it was.  For every other object the constructor goes on
    to apply the identity transform, and when it raises, the error is
    the one of that application: no other check is made. *)
Theorem unnamed_array_rejected `{PyData} (self_obj : value) (self_fn : option driver)
    (obj : value) (plot : bool) (depth : nat) (loc : arg) (center dmap : bool)
    (ik : kwargs_t) (mr : arg) (method : option string) (kw : kwargs_t) (s : state) :
  (is_xarray_dataarray obj = true -> obj_name obj = None ->
     Interactive.__init__ self_obj self_fn obj None plot depth loc center dmap ik mr method
       kw s
     = (Err unnamed_array_error, s)) /\
  (unnamed_array obj = false ->
     Interactive.__init__ self_obj self_fn obj None plot depth loc center dmap ik mr method
       kw s
     = Interactive.__init__ self_obj self_fn obj (Some (initial_transform obj)) plot depth
         loc center dmap ik mr method kw s /\
     forall e s',
       Interactive.__init__ self_obj self_fn obj None plot depth loc center dmap ik mr
         method kw s = (Err e, s') ->
       fst (apply_dim (params s) self_obj (initial_transform obj) (figures s)) = Err e /\
       heap s' = heap s).
Proof.
  split.
  - intros Ha Hname. unfold Interactive.__init__, bind at 1.
    assert (is_xarray obj = true) as -> by (destruct obj; try discriminate; reflexivity).
    rewrite Ha, Hname. reflexivity.
  - intros Hu.
    pose proof (init_default_transform self_obj self_fn obj plot depth loc center dmap ik mr
                  method kw s Hu) as Eq.
    split; [exact Eq|]. intros e s' E. rewrite Eq in E.
    apply init_transform_inv in E.
    destruct (apply_dim (params s) self_obj (initial_transform obj) (figures s))
      as [[cur|e'] fs]; destruct E as [E1 E2]; [discriminate|].
    inversion E1; subst. split; reflexivity.
Qed.

(** ** Construction from a function *)

Lemma new_object `{PyData} (obj : value) (s : state) :
  Interactive.new (Object obj) s = wrap obj s.
Proof. reflexivity. Qed.

(** For a function, the class tests of [__init__] see the function and
    not the object it produces: the identity transform is the generic one
    whatever the function returns, a DataArray without a name included. *)
Lemma new_function `{PyData} (f : driver) (obj : value) (s : state) :
  drv_eval f (params s) = Ok obj ->
  Interactive.new (Function f) s =
  Interactive.__init__ obj (Some f) (VOpaque "function") (Some (Dim plain_dim "*" []))
    false 0 (ALit (VStr "top_left")) false false [] (ALit (VInt 100)) None [] s.
Proof.
  intros E. unfold Interactive.new, Interactive.__new__, bind at 1. rewrite E. reflexivity.
Qed.

Section Requests.
Context `{PyData}.

Lemma self_node_ok s self n :
  heap s !! self = Some n -> _init n = true ->
  is_ok (Interactive.narrowed n) = true ->
  Interactive.self_node self s = (Ok n, s).
Proof.
  intros Hn Hi Hc. unfold Interactive.self_node, bind, get_node, lift.
  rewrite Hn, Hi. destruct (Interactive.narrowed n); [reflexivity | discriminate].
Qed.

Lemma callback_unfold s self n :
  heap s !! self = Some n -> _init n = true ->
  is_ok (Interactive.narrowed n) = true ->
  Interactive._callback self s =
  match apply_dim (params s) (_obj n) (live_transform n) (figures s) with
  | (Err e, fs) => (Err e, mkState (heap s) fs (params s))
  | (Ok v, fs) => (present n fs v, mkState (heap s) fs (params s))
  end.
Proof.
  intros Hn Hi Hc. unfold Interactive._callback, bind at 1.
  rewrite (self_node_ok _ _ _ Hn Hi Hc). unfold bind at 1, transform_apply.
  fold (live_transform n).
  destruct (apply_dim (params s) (_obj n) (live_transform n) (figures s)) as [[v|e] fs];
    [|reflexivity].
  unfold present, bind, lift, ret.
  destruct (nonempty (_method n)) as [m|].
  - destruct (getattr3 v m v) as [v'|e]; [|reflexivity].
    destruct (_plot n); [reflexivity|]. destruct (is_dataframe v'); reflexivity.
  - destruct (_plot n); [reflexivity|]. destruct (is_dataframe v); reflexivity.
Qed.

Lemma eval_unfold s self n :
  heap s !! self = Some n -> _init n = true ->
  Interactive.eval self s = (Interactive.narrowed n, s).
Proof.
  intros Hn Hi.
  unfold Interactive.eval, Interactive.self_node, bind, get_node, lift, ret,
    Interactive.narrowed, getattr3.
  rewrite Hn, Hi.
  destruct (nonempty (_method n)) as [m|] eqn:Em.
  - destruct (py_getattr (_current n) m) as [v|e] eqn:Eg; cbn;
      rewrite ?Em, ?Eg; reflexivity.
  - cbn. rewrite Em. reflexivity.
Qed.

(** When a dependency of the driver fires, the node's [_obj] is replaced
    in place and nothing else changes; the next callback applies the
    transform to the new object. *)
Lemma update_obj_replaces_source s self n fn o :
  heap s !! self = Some n -> _fn n = Some fn -> drv_eval fn (params s) = Ok o ->
  Interactive._update_obj self s =
  (Ok tt, mkState (<[self := set_obj o n]> (heap s)) (figures s) (params s)).
Proof.
  intros Hn Hf Hd. unfold Interactive._update_obj, bind, get_node, modify_node.
  rewrite Hn, Hf, Hd, Hn. reflexivity.
Qed.

End Requests.

(** C3, as the code has it: when the eager application of the transform
    raises, the constructor raises that error and no node is created;
    nothing is swallowed.  On a node that exists, the reactive callback
    applies the transform to the current object and raises the error of
    that application, and [eval] returns the value cached at construction
    (narrowed by the pending method) without applying the transform. *)
Theorem eager_failure_raises_at_construction `{PyData} :
  (forall self_obj self_fn obj t plot depth loc center dmap ik mr method kw s e fs,
     apply_dim (params s) self_obj t (figures s) = (Err e, fs) ->
     Interactive.__init__ self_obj self_fn obj (Some t) plot depth loc center dmap ik mr
       method kw s
     = (Err e, mkState (heap s) fs (params s))) /\
  (forall s self n e fs,
     heap s !! self = Some n -> _init n = true ->
     is_ok (Interactive.narrowed n) = true ->
     apply_dim (params s) (_obj n) (live_transform n) (figures s) = (Err e, fs) ->
     Interactive._callback self s = (Err e, mkState (heap s) fs (params s))) /\
  (forall s self n,
     heap s !! self = Some n -> _init n = true ->
     Interactive.eval self s = (Interactive.narrowed n, s)).
Proof.
  split; [|split].
  - intros sobj fn obj t plot depth loc center dmap ik mr method kw s e fs Ha.
    destruct (Interactive.__init__ sobj fn obj (Some t) plot depth loc center dmap ik mr
                method kw s) as [r s'] eqn:E.
    apply init_transform_inv in E. rewrite Ha in E. destruct E as [-> ->]. reflexivity.
  - intros s self n e fs Hn Hi Hc Ha.
    rewrite (callback_unfold _ _ _ Hn Hi Hc), Ha. reflexivity.
  - intros s self n Hn Hi. apply eval_unfold; assumption.
Qed.

(** C7: the callback applies the transform (re-bound to the array's
    name for a DataArray) to the object the node holds now, narrows the
    result by the pending method, and returns the shared figure slot if
    [_plot] is set, a bounded-row pane with [_max_rows] and [_kwargs] if
    the result is a DataFrame, and the result itself otherwise.  The
    value cached in [_current] plays no part in what is returned. *)
Theorem callback_recomputes `{PyData} (s : state) (self : addr) (n : node) :
  heap s !! self = Some n -> _init n = true ->
  is_ok (Interactive.narrowed n) = true ->
  Interactive._callback self s =
    match apply_dim (params s) (_obj n) (live_transform n) (figures s) with
    | (Err e, fs) => (Err e, mkState (heap s) fs (params s))
    | (Ok v, fs) =>
        (match (match nonempty (_method n) with
                | Some m => getattr3 v m v
                | None => Ok v
                end) with
         | Err e => Err e
         | Ok v' =>
             Ok (if _plot n then FigureSlot (_fig fs)
                 else if is_dataframe v' then DataFramePane v' (_max_rows n) (_kwargs n)
                 else Raw v')
         end, mkState (heap s) fs (params s))
    end /\
  forall c,
    is_ok (Interactive.narrowed (set_current c n)) = true ->
    fst (Interactive._callback self
           (mkState (<[self := set_current c n]> (heap s)) (figures s) (params s)))
    = fst (Interactive._callback self s).
Proof.
  intros Hn Hi Hc. split.
  - rewrite (callback_unfold _ _ _ Hn Hi Hc). reflexivity.
  - intros c Hc'.
    rewrite (callback_unfold _ _ _ Hn Hi Hc).
    rewrite (callback_unfold _ self (set_current c n)); [| |exact Hi|exact Hc'].
    + cbn [params figures heap]. unfold live_transform. cbn [_obj _transform set_current].
      fold (live_transform n).
      destruct (apply_dim (params s) (_obj n) (live_transform n) (figures s)) as [[v|e] fs];
        reflexivity.
    + cbn [heap]. apply list_lookup_insert_eq. eapply lookup_lt_Some, Hn.
Qed.

(** ** Widget discovery *)

(** Induction over arguments and operations, which nest through lists. *)
Section ArgInduction.
Variable P : arg -> Prop.
Variable Q : op -> Prop.
Hypothesis HLit : forall v, P (ALit v).
Hypothesis HPanel : forall id, P (APanelWidget id).
Hypothesis HIpy : forall id, P (AIpyWidget id).
Hypothesis HParam : forall name own, P (AParam name own).
Hypothesis HAx : P AAxFn.
Hypothesis HSeq : forall xs, Forall P xs -> P (ASeq xs).
Hypothesis HDict : forall kv, Forall (fun p => P (snd p)) kv -> P (ADict kv).
Hypothesis HDim : forall k name ops, Forall Q ops -> P (ADim (Dim k name ops)).
Hypothesis HOp : forall f args kw r a,
  Forall P args -> Forall (fun p => P (snd p)) kw -> Q (Op f args kw r a).

Fixpoint arg_nested_ind (a : arg) {struct a} : P a :=
  match a with
  | ALit v => HLit v
  | APanelWidget id => HPanel id
  | AIpyWidget id => HIpy id
  | AParam name own => HParam name own
  | AAxFn => HAx
  | ASeq xs =>
      HSeq xs ((fix go (xs : list arg) : Forall P xs :=
                  match xs with
                  | [] => Forall_nil P
                  | x :: xs' => Forall_cons P x xs' (arg_nested_ind x) (go xs')
                  end) xs)
  | ADict kv =>
      HDict kv ((fix go (kv : kwargs_t) : Forall (fun p => P (snd p)) kv :=
                   match kv with
                   | [] => Forall_nil _
                   | (k, x) :: kv' =>
                       Forall_cons (fun p => P (snd p)) (k, x) kv' (arg_nested_ind x) (go kv')
                   end) kv)
  | ADim (Dim k name ops) =>
      HDim k name ops ((fix go (ops : list op) : Forall Q ops :=
                          match ops with
                          | [] => Forall_nil Q
                          | o :: ops' => Forall_cons Q o ops' (op_nested_ind o) (go ops')
                          end) ops)
  end
with op_nested_ind (o : op) {struct o} : Q o :=
  match o with
  | Op f args kw r a =>
      HOp f args kw r a
        ((fix go (xs : list arg) : Forall P xs :=
            match xs with
            | [] => Forall_nil P
            | x :: xs' => Forall_cons P x xs' (arg_nested_ind x) (go xs')
            end) args)
        ((fix go (kv : kwargs_t) : Forall (fun p => P (snd p)) kv :=
            match kv with
            | [] => Forall_nil _
            | (k, x) :: kv' =>
                Forall_cons (fun p => P (snd p)) (k, x) kv' (arg_nested_ind x) (go kv')
            end) kw)
  end.

End ArgInduction.

Lemma add_widget_elem w ws x : x ∈ add_widget w ws <-> x = w \/ x ∈ ws.
Proof.
  unfold add_widget. destruct (decide (w ∈ ws)) as [Hin|Hnin].
  - split; [auto|]. intros [->|Hx]; assumption.
  - rewrite elem_of_app, list_elem_of_singleton. tauto.
Qed.

Lemma add_widget_NoDup w ws : NoDup ws -> NoDup (add_widget w ws).
Proof.
  intros Hnd. unfold add_widget. destruct (decide (w ∈ ws)) as [Hin|Hnin]; [exact Hnd|].
  apply list.NoDup_app. split; [exact Hnd|]. split.
  - intros x Hx Hx'. apply list_elem_of_singleton in Hx'. subst. contradiction.
  - apply NoDup_singleton.
Qed.

Lemma add_widgets_app l1 l2 ws :
  add_widgets (l1 ++ l2) ws = add_widgets l2 (add_widgets l1 ws).
Proof. unfold add_widgets. apply fold_left_app. Qed.

Lemma add_widgets_elem l ws x : x ∈ add_widgets l ws <-> x ∈ l \/ x ∈ ws.
Proof.
  revert ws. induction l as [|w l IH]; intros ws; cbn.
  - rewrite elem_of_nil. tauto.
  - rewrite IH, add_widget_elem, elem_of_cons. tauto.
Qed.

Lemma add_widgets_NoDup l ws : NoDup ws -> NoDup (add_widgets l ws).
Proof.
  revert ws. induction l as [|w l IH]; intros ws Hnd; cbn; [exact Hnd|].
  apply IH, add_widget_NoDup, Hnd.
Qed.

(** Adding an element commutes with adding a list of them. *)
Lemma add_widget_add_widgets w acc ws :
  add_widgets (add_widget w acc) ws = add_widget w (add_widgets acc ws).
Proof.
  unfold add_widget at 1. destruct (decide (w ∈ acc)) as [Hin|Hnin].
  - unfold add_widget. destruct (decide (w ∈ add_widgets acc ws)) as [_|Hn]; [reflexivity|].
    exfalso. apply Hn. apply add_widgets_elem. left. exact Hin.
  - rewrite add_widgets_app. reflexivity.
Qed.

(** Re-adding the widgets found by a nested call, already without
    repetitions, is the same as adding the references themselves. *)
Lemma add_widgets_nested l acc ws :
  add_widgets (add_widgets l acc) ws = add_widgets l (add_widgets acc ws).
Proof.
  revert acc ws. induction l as [|w l IH]; intros acc ws; cbn; [reflexivity|].
  change (add_widgets (add_widgets l (add_widget w acc)) ws =
          add_widgets l (add_widget w (add_widgets acc ws))).
  rewrite IH, add_widget_add_widgets. reflexivity.
Qed.

Section Discovery.
Variable ipy : bool.

Lemma scan_args_fix xs ws :
  (fix go (xs : list arg) (ws : list widget) : list widget :=
     match xs with
     | [] => ws
     | x :: xs' => go xs' (scan_arg ipy x ws)
     end) xs ws = scan_args ipy xs ws.
Proof. revert ws. induction xs as [|x xs IH]; intros ws; [reflexivity | apply IH]. Qed.

Lemma scan_kwargs_fix kv ws :
  (fix go (kv : kwargs_t) (ws : list widget) : list widget :=
     match kv with
     | [] => ws
     | (_, x) :: kv' => go kv' (scan_arg ipy x ws)
     end) kv ws = scan_kwargs ipy kv ws.
Proof. revert ws. induction kv as [|[k x] kv IH]; intros ws; [reflexivity | apply IH]. Qed.

Lemma scan_ops_fix ops ws :
  (fix go (ops : list op) (ws : list widget) : list widget :=
     match ops with
     | [] => ws
     | nested_op :: ops' => go ops' (add_widgets (_find_widgets ipy nested_op) ws)
     end) ops ws
  = fold_left (fun ws o => add_widgets (_find_widgets ipy o) ws) ops ws.
Proof. revert ws. induction ops as [|o ops IH]; intros ws; [reflexivity | apply IH]. Qed.

Lemma seen_args_fix xs :
  (fix go (xs : list arg) : list widget :=
     match xs with
     | [] => []
     | x :: xs' => seen_arg ipy x ++ go xs'
     end) xs = flat_map (seen_arg ipy) xs.
Proof. induction xs as [|x xs IH]; [reflexivity | cbn; rewrite IH; reflexivity]. Qed.

Lemma seen_kwargs_fix kv :
  (fix go (kv : kwargs_t) : list widget :=
     match kv with
     | [] => []
     | (_, x) :: kv' => seen_arg ipy x ++ go kv'
     end) kv = flat_map (fun p => seen_arg ipy (snd p)) kv.
Proof. induction kv as [|[k x] kv IH]; [reflexivity | cbn; rewrite IH; reflexivity]. Qed.

Lemma seen_ops_fix ops :
  (fix go (ops : list op) : list widget :=
     match ops with
     | [] => []
     | o :: ops' => seen_op ipy o ++ go ops'
     end) ops = flat_map (seen_op ipy) ops.
Proof. induction ops as [|o ops IH]; [reflexivity | cbn; rewrite IH; reflexivity]. Qed.

Lemma find_widgets_unfold f args kw r a :
  _find_widgets ipy (Op f args kw r a) = scan_kwargs ipy kw (scan_args ipy args []).
Proof.
  change (_find_widgets ipy (Op f args kw r a)) with
    ((fix go (kv : kwargs_t) (ws : list widget) : list widget :=
        match kv with
        | [] => ws
        | (_, x) :: kv' => go kv' (scan_arg ipy x ws)
        end) kw
       ((fix go (xs : list arg) (ws : list widget) : list widget :=
           match xs with
           | [] => ws
           | x :: xs' => go xs' (scan_arg ipy x ws)
           end) args [])).
  rewrite scan_kwargs_fix, scan_args_fix. reflexivity.
Qed.

Lemma seen_op_unfold f args kw r a :
  seen_op ipy (Op f args kw r a) =
  flat_map (seen_arg ipy) args ++ flat_map (fun p => seen_arg ipy (snd p)) kw.
Proof.
  rewrite <- seen_args_fix, <- seen_kwargs_fix. reflexivity.
Qed.

Lemma scan_args_seen xs :
  Forall (fun a => forall ws, scan_arg ipy a ws = add_widgets (seen_arg ipy a) ws) xs ->
  forall ws, scan_args ipy xs ws = add_widgets (flat_map (seen_arg ipy) xs) ws.
Proof.
  induction 1 as [|x xs Hx _ IH]; intros ws; [reflexivity|].
  cbn. rewrite add_widgets_app, <- Hx. apply IH.
Qed.

Lemma scan_kwargs_seen kv :
  Forall (fun p => forall ws,
            scan_arg ipy (snd p) ws = add_widgets (seen_arg ipy (snd p)) ws) kv ->
  forall ws, scan_kwargs ipy kv ws =
             add_widgets (flat_map (fun p => seen_arg ipy (snd p)) kv) ws.
Proof.
  induction 1 as [|x xs Hx _ IH]; intros ws; [reflexivity|].
  cbn. rewrite add_widgets_app, <- Hx. apply IH.
Qed.

Lemma scan_seq_seen xs :
  Forall (fun a => forall ws, scan_arg ipy a ws = add_widgets (seen_arg ipy a) ws) xs ->
  forall ws, scan_arg ipy (ASeq xs) ws = add_widgets (seen_arg ipy (ASeq xs)) ws.
Proof.
  intros HF ws.
  change (scan_arg ipy (ASeq xs) ws) with
    ((fix go (xs : list arg) (ws : list widget) : list widget :=
        match xs with
        | [] => ws
        | x :: xs' => go xs' (scan_arg ipy x ws)
        end) xs ws).
  rewrite scan_args_fix.
  change (seen_arg ipy (ASeq xs)) with
    ((fix go (xs : list arg) : list widget :=
        match xs with
        | [] => []
        | x :: xs' => seen_arg ipy x ++ go xs'
        end) xs).
  rewrite seen_args_fix. apply scan_args_seen, HF.
Qed.

Lemma scan_dim_seen k name ops :
  Forall (fun o => _find_widgets ipy o = add_widgets (seen_op ipy o) []) ops ->
  forall ws, scan_arg ipy (ADim (Dim k name ops)) ws
             = add_widgets (seen_arg ipy (ADim (Dim k name ops))) ws.
Proof.
  intros HF ws.
  change (scan_arg ipy (ADim (Dim k name ops)) ws) with
    ((fix go (ops : list op) (ws : list widget) : list widget :=
        match ops with
        | [] => ws
        | nested_op :: ops' => go ops' (add_widgets (_find_widgets ipy nested_op) ws)
        end) ops ws).
  rewrite scan_ops_fix.
  change (seen_arg ipy (ADim (Dim k name ops))) with
    ((fix go (ops : list op) : list widget :=
        match ops with
        | [] => []
        | o :: ops' => seen_op ipy o ++ go ops'
        end) ops).
  rewrite seen_ops_fix. revert ws.
  induction HF as [|o ops' Ho _ IH]; intros ws; [reflexivity|].
  cbn. rewrite add_widgets_app, IH, Ho, add_widgets_nested. reflexivity.
Qed.

Lemma find_op_seen f args kw r a :
  Forall (fun a => forall ws, scan_arg ipy a ws = add_widgets (seen_arg ipy a) ws) args ->
  Forall (fun p => forall ws,
            scan_arg ipy (snd p) ws = add_widgets (seen_arg ipy (snd p)) ws) kw ->
  _find_widgets ipy (Op f args kw r a) = add_widgets (seen_op ipy (Op f args kw r a)) [].
Proof.
  intros HA HK.
  rewrite find_widgets_unfold, seen_op_unfold, add_widgets_app.
  rewrite (scan_kwargs_seen kw HK), (scan_args_seen args HA). reflexivity.
Qed.

(** The scan of an argument adds the references it holds. *)
Lemma scan_arg_seen a ws : scan_arg ipy a ws = add_widgets (seen_arg ipy a) ws.
Proof.
  revert ws.
  apply (arg_nested_ind
           (fun a => forall ws, scan_arg ipy a ws = add_widgets (seen_arg ipy a) ws)
           (fun o => _find_widgets ipy o = add_widgets (seen_op ipy o) []));
    auto using scan_seq_seen, scan_dim_seen, find_op_seen.
  - intros id ws. cbn. destruct ipy; reflexivity.
  - intros name [id|id|] ws; reflexivity.
Qed.

Lemma find_widgets_seen o : _find_widgets ipy o = add_widgets (seen_op ipy o) [].
Proof.
  destruct o as [f args kw r a]. apply find_op_seen.
  - apply Forall_forall. intros x _ ws. apply scan_arg_seen.
  - apply Forall_forall. intros x _ ws. apply scan_arg_seen.
Qed.

End Discovery.

(** [add_widgets] keeps the first occurrence of every element. *)

Lemma filter_swap {A} (p q : A -> bool) l :
  List.filter p (List.filter q l) = List.filter q (List.filter p l).
Proof.
  induction l as [|x l IH]; [reflexivity|]. cbn.
  destruct (q x) eqn:Eq, (p x) eqn:Ep; cbn; rewrite ?Eq, ?Ep, IH; reflexivity.
Qed.

Lemma filter_absorb {A} (p q : A -> bool) l :
  (forall y, p y = true -> q y = true) ->
  List.filter p (List.filter q l) = List.filter p l.
Proof.
  intros Hpq. induction l as [|x l IH]; [reflexivity|]. cbn.
  destruct (q x) eqn:Eq; cbn.
  - destruct (p x); rewrite IH; reflexivity.
  - destruct (p x) eqn:Ep; [|exact IH]. apply Hpq in Ep. congruence.
Qed.

Lemma first_seen_filter p l :
  List.filter p (first_seen l) = first_seen (List.filter p l).
Proof.
  induction l as [|x l IH]; [reflexivity|]. cbn. destruct (p x) eqn:Ep; cbn.
  - rewrite filter_swap, IH. reflexivity.
  - rewrite <- IH. apply filter_absorb. intros y Hy.
    apply negb_true_iff, bool_decide_eq_false. intros ->. congruence.
Qed.

Lemma filter_both {A} (p q : A -> bool) l :
  List.filter (fun y => p y && q y) l = List.filter p (List.filter q l).
Proof.
  induction l as [|x l IH]; [reflexivity|]. cbn.
  destruct (q x) eqn:Eq; cbn; rewrite ?andb_true_r, ?andb_false_r;
    [destruct (p x)|]; rewrite IH; reflexivity.
Qed.

Lemma not_in_snoc acc x l :
  List.filter (not_in (acc ++ [x])) l =
  List.filter (fun w' => negb (bool_decide (w' = x))) (List.filter (not_in acc) l).
Proof.
  rewrite <- filter_both. apply filter_ext. intros y. unfold not_in.
  rewrite <- negb_orb. f_equal. rewrite <- bool_decide_or. apply bool_decide_ext.
  rewrite elem_of_app, list_elem_of_singleton. tauto.
Qed.

Lemma add_widgets_first_seen l acc :
  add_widgets l acc = acc ++ first_seen (List.filter (not_in acc) l).
Proof.
  revert acc. induction l as [|x l IH]; intros acc; cbn.
  - rewrite app_nil_r. reflexivity.
  - change (fold_left (fun ws w => add_widget w ws) l (add_widget x acc))
      with (add_widgets l (add_widget x acc)).
    unfold add_widget, not_in at 1. destruct (decide (x ∈ acc)) as [Hin|Hnin].
    + rewrite (bool_decide_eq_true_2 _ Hin). cbn. apply IH.
    + rewrite (bool_decide_eq_false_2 _ Hnin). cbn.
      rewrite IH, not_in_snoc, first_seen_filter, <- app_assoc. reflexivity.
Qed.

Lemma add_widgets_nil l : add_widgets l [] = first_seen l.
Proof.
  rewrite add_widgets_first_seen. cbn. f_equal.
  induction l as [|x l IH]; [reflexivity|]. cbn. rewrite IH. reflexivity.
Qed.

Section Panel.
Variable ipy : bool.

Lemma driver_widgets_fold ps ws :
  fold_left (fun ws (p : string * owner) =>
               match snd p with
               | OwnerWidget id => add_widget (PanelWidget id) ws
               | _ => ws
               end) ps ws
  = add_widgets (flat_map (fun p => match snd p with
                                    | OwnerWidget id => [PanelWidget id]
                                    | _ => []
                                    end) ps) ws.
Proof.
  revert ws. induction ps as [|[name own] ps IH]; intros ws; [reflexivity|].
  cbn. rewrite add_widgets_app, IH. destruct own; reflexivity.
Qed.

Lemma op_widgets_fold ops ws :
  fold_left (fun ws o => add_widgets (_find_widgets ipy o) ws) ops ws
  = add_widgets (flat_map (seen_op ipy) ops) ws.
Proof.
  revert ws. induction ops as [|o ops IH]; intros ws; [reflexivity|].
  cbn. rewrite add_widgets_app, IH.
  rewrite (find_widgets_seen ipy o), add_widgets_nested. reflexivity.
Qed.

Lemma widgets_of_seen n : widgets_of ipy n = add_widgets (seen_node ipy n) [].
Proof.
  unfold widgets_of, seen_node.
  rewrite driver_widgets_fold, op_widgets_fold, add_widgets_app. reflexivity.
Qed.

(** The structural scan agrees with the loop over the flattened
    arguments, as the source writes it. *)
Lemma scan_arg_flatten a ws :
  scan_arg ipy a ws = fold_left (scan_leaf ipy) (flatten_arg a) ws.
Proof.
  revert ws.
  apply (arg_nested_ind
           (fun a => forall ws, scan_arg ipy a ws = fold_left (scan_leaf ipy) (flatten_arg a) ws)
           (fun _ => True)); try (intros; reflexivity); try (intros; exact I).
  - intros xs HF ws.
    change (scan_arg ipy (ASeq xs) ws) with
      ((fix go (xs : list arg) (ws : list widget) : list widget :=
          match xs with
          | [] => ws
          | x :: xs' => go xs' (scan_arg ipy x ws)
          end) xs ws).
    change (flatten_arg (ASeq xs)) with
      ((fix go (xs : list arg) : list arg :=
          match xs with
          | [] => []
          | x :: xs' => flatten_arg x ++ go xs'
          end) xs).
    revert ws. induction HF as [|x xs' Hx _ IH]; intros ws; [reflexivity|].
    rewrite fold_left_app, <- Hx. apply IH.
  - intros kv _ ws. cbn. induction kv as [|[k x] kv IH]; [reflexivity | exact IH].
Qed.

Lemma find_widgets_flatten o :
  _find_widgets ipy o =
  fold_left (scan_leaf ipy) (_flatten (op_args o ++ dict_values (op_kwargs o))) [].
Proof.
  destruct o as [f args kw r a]. rewrite find_widgets_unfold. cbn [op_args op_kwargs].
  unfold _flatten, dict_values. rewrite flat_map_app, fold_left_app.
  assert (Hk : forall ws, scan_kwargs ipy kw ws
                 = fold_left (scan_leaf ipy) (flat_map flatten_arg (map snd kw)) ws).
  { induction kw as [|[k x] kw IH]; intros ws; [reflexivity|].
    cbn. rewrite fold_left_app, <- scan_arg_flatten. apply IH. }
  assert (Ha : forall ws, scan_args ipy args ws
                 = fold_left (scan_leaf ipy) (flat_map flatten_arg args) ws).
  { induction args as [|x xs IH]; intros ws; [reflexivity|].
    cbn. rewrite fold_left_app, <- scan_arg_flatten. apply IH. }
  rewrite Hk, Ha. reflexivity.
Qed.

End Panel.

Lemma first_seen_elem l x : x ∈ first_seen l <-> x ∈ l.
Proof.
  rewrite <- add_widgets_nil, add_widgets_elem, elem_of_nil. tauto.
Qed.

Lemma first_seen_NoDup l : NoDup (first_seen l).
Proof. rewrite <- add_widgets_nil. apply add_widgets_NoDup, NoDup_nil_2. Qed.

(** C8: the widgets found in an operation are the widget references of
    its flattened positional and keyword arguments (nested expressions
    included), each kept once at the place of its first occurrence; the
    contents of the control panel are, in the same way, the widgets that
    own the driver's parameters followed by the references of all the
    operations of the transform. *)
Theorem widget_discovery (ipywidgets_loaded : bool) :
  (forall o : op,
     _find_widgets ipywidgets_loaded o = first_seen (seen_op ipywidgets_loaded o) /\
     NoDup (_find_widgets ipywidgets_loaded o) /\
     forall w, w ∈ _find_widgets ipywidgets_loaded o <-> w ∈ seen_op ipywidgets_loaded o) /\
  (forall n : node,
     widgets_of ipywidgets_loaded n = first_seen (seen_node ipywidgets_loaded n) /\
     NoDup (widgets_of ipywidgets_loaded n) /\
     forall w, w ∈ widgets_of ipywidgets_loaded n <-> w ∈ seen_node ipywidgets_loaded n).
Proof.
  split.
  - intros o. rewrite (find_widgets_seen ipywidgets_loaded o), add_widgets_nil.
    split; [reflexivity|]. split; [apply first_seen_NoDup | intros w; apply first_seen_elem].
  - intros n. rewrite widgets_of_seen, add_widgets_nil.
    split; [reflexivity|]. split; [apply first_seen_NoDup | intros w; apply first_seen_elem].
Qed.

(** ** The operations on which [eval] agrees with the data *)

Section Forward.
Context `{PyData}.

Lemma nonempty_Some m : m <> "" -> nonempty (Some m) = Some m.
Proof.
  intros Hm. unfold nonempty. destruct (String.eqb_spec m ""); [contradiction | reflexivity].
Qed.

Lemma resolve_args_lit pv obj vs fs :
  resolve_args pv obj (map ALit vs) fs = (Ok vs, fs).
Proof. induction vs as [|v vs IH]; [reflexivity|]. cbn. rewrite IH. reflexivity. Qed.

Lemma resolve_kwargs_lit pv obj kvs fs :
  resolve_kwargs pv obj (lit_kwargs kvs) fs = (Ok kvs, fs).
Proof.
  unfold lit_kwargs. induction kvs as [|[k v] kvs IH]; [reflexivity|].
  cbn. rewrite IH. reflexivity.
Qed.

Lemma apply_dim_snoc pv obj t o c c' :
  (forall fs, apply_dim pv obj t fs = (Ok c, fs)) ->
  (forall fs, apply_op pv obj o c fs = (Ok c', fs)) ->
  forall fs, apply_dim pv obj (Dim (dim_kind t) (dim_dimension t) (dim_ops t ++ [o])) fs
             = (Ok c', fs).
Proof.
  intros Ht Ho fs. destruct t as [k d ops]. cbn [dim_kind dim_dimension dim_ops].
  specialize (Ht fs). rewrite apply_dim_unfold in *.
  destruct (py_dataset obj d) as [data0|e]; [|discriminate].
  rewrite apply_ops_app, Ht. cbn [apply_ops]. rewrite Ho. reflexivity.
Qed.

Lemma pending_narrowed n c m v :
  _current n = c -> _method n = m -> pending c m v -> Interactive.narrowed n = Ok v.
Proof.
  intros <- <- Hp. unfold Interactive.narrowed, pending in *.
  destruct (_method n) as [name|].
  - destruct Hp as (Hm & _ & Hg). rewrite (nonempty_Some _ Hm). exact Hg.
  - subst. reflexivity.
Qed.

(** A clone of a node that carries no display keywords. *)
Lemma clone_forward self n s tr plot dmap copy kw c' :
  heap s !! self = Some n -> _init n = true ->
  is_ok (Interactive.narrowed n) = true ->
  _kwargs n = [] -> _inherit_kwargs n = [] ->
  (copy = true /\ kw = []) \/ (copy = false /\ kw = []) \/
  (copy = false /\ kw = [("inherit_kwargs", ADict [])]) ->
  (forall fs, apply_dim (params s) (_obj n) (default (_transform n) tr) fs = (Ok c', fs)) ->
  exists s',
    Interactive._clone self tr plot None None dmap copy kw s = (Ok (length (heap s)), s') /\
    params s' = params s /\
    heap s' = heap s ++
      [mkNode (_obj n) (_fn n) true (if copy then _method n else None)
              (default (_transform n) tr) (_plot n || default false plot) (_depth n + 1)
              (_loc n) (_center n) (default (_dmap n) dmap) [] (ALit (VInt 100)) [] c' None].
Proof.
  intros Hn Hi Hc Hk Hik Hshape Ha.
  unfold Interactive._clone, bind at 1. rewrite (self_node_ok _ _ _ Hn Hi Hc).
  rewrite Hk, Hik. cbn [default].
  destruct Hshape as [[-> ->]|[[-> ->]|[-> ->]]].
  - destruct (_method n) as [m|]; cbn; unfold bind, ret, transform_apply; cbn;
      rewrite Ha; eexists; split; reflexivity || (split; reflexivity).
  - cbn; unfold bind, ret, transform_apply; cbn;
      rewrite Ha; eexists; split; reflexivity || (split; reflexivity).
  - cbn; unfold bind, ret, transform_apply; cbn;
      rewrite Ha; eexists; split; reflexivity || (split; reflexivity).
Qed.


Lemma accessor_op_pure pv obj c name v :
  py_getattr c name = Ok v ->
  forall fs, apply_op pv obj (Op (FAttr name) [] [] false true) c fs = (Ok v, fs).
Proof. intros Hg fs. rewrite apply_op_unfold. cbn. rewrite Hg. reflexivity. Qed.

(** Finalising the pending method (or copying when none is pending). *)
Lemma resolve_accessor_forward obj s w c m v :
  shape obj s w c m -> pending c m v ->
  exists s',
    Interactive._resolve_accessor w s = (Ok (length (heap s)), s') /\
    params s' = params s /\ length (heap s') = S (length (heap s)) /\
    shape obj s' (length (heap s)) v None.
Proof.
  intros (n & Hn & Hi & Ho & Hk & Hik & Ha & Hcur & Hm) Hp.
  assert (Hc : Interactive.narrowed n = Ok v) by (eapply pending_narrowed; eauto).
  assert (Hc' : is_ok (Interactive.narrowed n) = true) by (rewrite Hc; reflexivity).
  unfold Interactive._resolve_accessor, bind at 1. rewrite (self_node_ok _ _ _ Hn Hi Hc').
  rewrite Hm. destruct m as [name|]; cbn [pending] in Hp.
  - destruct Hp as (Hne & Hnp & Hg). rewrite (nonempty_Some _ Hne).
    assert (String.eqb name "plot" = false) as -> by (apply String.eqb_neq; exact Hnp).
    set (t' := dim_new (_transform n) (FAttr name) [] [("accessor", ALit (VBool true))]).
    assert (Ha' : forall fs, apply_dim (params s) (_obj n) (default (_transform n) (Some t')) fs
                             = (Ok v, fs)).
    { intros fs. cbn [default]. subst t'. unfold dim_new. cbn [dict_get dict_del].
      cbn. rewrite Ho. apply apply_dim_snoc with (c := c); [exact Ha|].
      apply accessor_op_pure. exact Hg. }
    destruct (clone_forward w n s (Some t') None None false [("inherit_kwargs", ADict [])] v
                Hn Hi Hc' Hk Hik ltac:(auto) Ha') as (s1 & E1 & Hp1 & Hh1).
    unfold finally. rewrite E1. unfold modify_node.
    assert (Hn1 : heap s1 !! w = Some n) by (rewrite Hh1; apply lookup_app_l_Some, Hn).
    rewrite Hn1. eexists. split; [reflexivity|]. cbn [params heap].
    split; [exact Hp1|]. split.
    + rewrite length_insert, Hh1, length_app. cbn. lia.
    + unfold shape. cbn [heap params]. eexists. split.
      * rewrite list_lookup_insert_ne by (apply lookup_lt_Some in Hn; lia).
        rewrite Hh1. apply list_lookup_middle. reflexivity.
      * cbn. repeat split; auto. intros fs. rewrite Hp1. rewrite <- Ho. apply Ha'.
  - subst v. cbn [nonempty].
    assert (Ha' : forall fs, apply_dim (params s) (_obj n) (default (_transform n) None) fs
                             = (Ok c, fs)).
    { intros fs. cbn [default]. rewrite Ho. apply Ha. }
    destruct (clone_forward w n s None None None true [] c
                Hn Hi Hc' Hk Hik ltac:(auto) Ha') as (s1 & E1 & Hp1 & Hh1).
    rewrite E1. eexists. split; [reflexivity|]. split; [exact Hp1|]. split.
    + rewrite Hh1, length_app. cbn. lia.
    + eexists. split; [rewrite Hh1; apply list_lookup_middle; reflexivity|].
      cbn. rewrite Hm. repeat split; auto. intros fs. rewrite Hp1. rewrite <- Ho. apply Ha'.
Qed.


Lemma shape_narrowed obj s w c m v n :
  shape obj s w c m -> pending c m v -> heap s !! w = Some n ->
  Interactive.narrowed n = Ok v.
Proof.
  intros (n' & Hn' & _ & _ & _ & _ & _ & Hcur & Hm) Hp Hn.
  assert (n' = n) by congruence. subst. eapply pending_narrowed; eauto.
Qed.

Lemma data_attr_forward obj s w c m v name v' :
  shape obj s w c m -> pending c m v -> data_name v name -> py_getattr v name = Ok v' ->
  exists s',
    data_attr w name s = (Ok (length (heap s)), s') /\
    params s' = params s /\ shape obj s' (length (heap s)) v (Some name).
Proof.
  intros Hs Hp (Hne & Hnp & Hpub & Hown) Hg.
  pose proof Hs as (n & Hn & Hi & Ho & Hk & Hik & Ha & Hcur & Hm).
  pose proof (shape_narrowed _ _ _ _ _ _ _ Hs Hp Hn) as Hc.
  assert (Hd : str_in name (public_names v) && negb (str_in name super_dir) = true)
    by (rewrite Hpub, Hown; reflexivity).
  unfold data_attr, bind at 1. rewrite (getattribute_data _ _ _ _ _ Hn Hi Hc Hd).
  destruct (resolve_accessor_forward _ _ _ _ _ _ Hs Hp) as (s1 & E1 & Hp1 & Hl1 & Hs1).
  destruct Hs1 as (nn & Hnn & Hi1 & Ho1 & Hk1 & Hik1 & Ha1 & Hcur1 & Hm1).
  unfold bind at 1. rewrite E1. unfold bind at 1, modify_node at 1. rewrite Hnn.
  assert (Hlt : length (heap s) < length (heap s1)) by lia.
  rewrite Hg. unfold bind at 1.
  destruct (py_getattr v' "__doc__") as [d|e].
  - unfold modify_node. cbn [heap]. rewrite list_lookup_insert_eq by exact Hlt.
    eexists. split; [reflexivity|]. cbn [params]. split; [exact Hp1|].
    unfold shape. cbn [heap params]. eexists. split.
    + apply list_lookup_insert_eq. rewrite length_insert. exact Hlt.
    + cbn. repeat split; auto.
  - unfold ret. eexists. split; [reflexivity|]. cbn [params]. split; [exact Hp1|].
    unfold shape. cbn [heap params]. eexists. split.
    + apply list_lookup_insert_eq. exact Hlt.
    + cbn. repeat split; auto.
Qed.

Lemma apply_operator_forward obj s w c m v f args vals v' kw :
  shape obj s w c m -> pending c m v ->
  (forall fs, resolve_args (params s) obj args fs = (Ok vals, fs)) ->
  py_operator f (v :: vals) = Ok v' ->
  exists s',
    Interactive._apply_operator w (FOper f) args kw s = (Ok (S (length (heap s))), s') /\
    params s' = params s /\ shape obj s' (S (length (heap s))) v' None.
Proof.
  intros Hs Hp Hargs Hop.
  destruct (resolve_accessor_forward _ _ _ _ _ _ Hs Hp) as (s1 & E1 & Hp1 & Hl1 & Hs1).
  destruct Hs1 as (nn & Hnn & Hi1 & Ho1 & Hk1 & Hik1 & Ha1 & Hcur1 & Hm1).
  assert (Hc1 : is_ok (Interactive.narrowed nn) = true).
  { unfold Interactive.narrowed. rewrite Hm1. reflexivity. }
  unfold Interactive._apply_operator, bind at 1. rewrite E1.
  unfold bind at 1. rewrite (self_node_ok _ _ _ Hnn Hi1 Hc1).
  set (t' := dim_new (_transform nn) (FOper f) args []).
  assert (Ha' : forall fs, apply_dim (params s1) (_obj nn) (default (_transform nn) (Some t')) fs
                           = (Ok v', fs)).
  { intros fs. cbn [default]. subst t'. unfold dim_new. cbn [dict_get dict_del].
    rewrite Ho1. apply apply_dim_snoc with (c := v); [exact Ha1|].
    intros fs'. rewrite apply_op_unfold, Hp1, Hargs. cbn [resolve_kwargs apply_fn].
    rewrite Hop. reflexivity. }
  destruct (clone_forward (length (heap s)) nn s1 (Some t') None None false [] v'
              Hnn Hi1 Hc1 Hk1 Hik1 ltac:(auto) Ha') as (s2 & E2 & Hp2 & Hh2).
  rewrite E2, Hl1. eexists. split; [reflexivity|]. split; [congruence|].
  eexists. split; [rewrite Hh2, <- Hl1; apply list_lookup_middle; reflexivity|].
  cbn [_init _obj _kwargs _inherit_kwargs _transform _current _method default].
  repeat split; auto. intros fs. rewrite Hp2, <- Ho1. apply Ha'.
Qed.

Lemma dict_set_fresh {A} (d : list (string * A)) k v :
  k ∉ map fst d -> dict_set d k v = d ++ [(k, v)].
Proof.
  induction d as [|[k' v'] d IH]; intros Hk; [reflexivity|]. cbn in *.
  apply not_elem_of_cons in Hk. destruct Hk as [Hne Hk].
  destruct (String.eqb_spec k' k); [congruence|]. rewrite IH by exact Hk. reflexivity.
Qed.

Lemma dict_update_fresh {A} (d e : list (string * A)) :
  NoDup (map fst e) -> (forall k, k ∈ map fst e -> k ∉ map fst d) ->
  dict_update d e = d ++ e.
Proof.
  unfold dict_update. revert d. induction e as [|[k v] e IH]; intros d Hnd Hdis; cbn.
  - rewrite app_nil_r. reflexivity.
  - cbn in Hnd. apply list.NoDup_cons in Hnd. destruct Hnd as [Hk Hnd].
    rewrite dict_set_fresh by (apply Hdis; cbn; apply elem_of_cons; auto).
    rewrite IH; [rewrite <- app_assoc; reflexivity | exact Hnd |].
    intros k' Hk'. rewrite map_app, elem_of_app. cbn. intros [Hin|Hin].
    + eapply Hdis; [|exact Hin]. cbn. apply elem_of_cons. auto.
    + apply list_elem_of_singleton in Hin. subst. contradiction.
Qed.

Lemma lit_kwargs_keys kwargs : map fst (lit_kwargs kwargs) = map fst kwargs.
Proof. unfold lit_kwargs. rewrite map_map. reflexivity. Qed.

Lemma call_forward obj s w c name args kwargs mval v' :
  shape obj s w c (Some name) -> name <> "" -> name <> "plot" ->
  py_getattr c name = Ok mval -> py_call mval args kwargs = Ok v' ->
  NoDup (map fst kwargs) ->
  exists s',
    Interactive.__call__ w (map ALit args) (lit_kwargs kwargs) s
      = (Ok (S (length (heap s))), s') /\
    params s' = params s /\ shape obj s' (S (length (heap s))) v' None.
Proof.
  intros Hs Hne Hnp Hg Hcall Hnd.
  pose proof Hs as (n & Hn & Hi & Ho & Hk & Hik & Ha & Hcur & Hm).
  assert (Hc : Interactive.narrowed n = Ok mval).
  { unfold Interactive.narrowed. rewrite Hm, (nonempty_Some _ Hne), Hcur. exact Hg. }
  assert (Hc' : is_ok (Interactive.narrowed n) = true) by (rewrite Hc; reflexivity).
  assert (Hplot : String.eqb name "plot" = false) by (apply String.eqb_neq; exact Hnp).
  unfold Interactive.__call__, bind at 1. rewrite (self_node_ok _ _ _ Hn Hi Hc').
  rewrite Hm, Hplot.
  assert (Ha0 : forall fs, apply_dim (params s) (_obj n) (default (_transform n) None) fs
                           = (Ok c, fs)).
  { intros fs. cbn [default]. rewrite Ho. apply Ha. }
  destruct (clone_forward w n s None None None true [] c Hn Hi Hc' Hk Hik ltac:(auto) Ha0)
    as (s1 & E1 & Hp1 & Hh1).
  unfold bind at 1. rewrite E1. rewrite Hm in Hh1.
  set (n1 := mkNode (_obj n) (_fn n) true (Some name) (default (_transform n) None)
               (_plot n || default false None) (_depth n + 1) (_loc n) (_center n)
               (default (_dmap n) None) [] (ALit (VInt 100)) [] c None) in *.
  assert (Hn1 : heap s1 !! length (heap s) = Some n1)
    by (rewrite Hh1; apply list_lookup_middle; reflexivity).
  assert (Hc1 : is_ok (Interactive.narrowed n1) = true).
  { unfold Interactive.narrowed, n1. cbn [_method _current].
    rewrite (nonempty_Some _ Hne), Hg. reflexivity. }
  unfold finally, bind at 1. rewrite (self_node_ok _ _ _ Hn1 eq_refl Hc1).
  cbn [_method _transform _inherit_kwargs n1 default].
  rewrite dim_call_accessor. unfold bind at 1, lift.
  assert (Hkw : dict_update [] (lit_kwargs kwargs) = lit_kwargs kwargs).
  { rewrite dict_update_fresh; [reflexivity | rewrite lit_kwargs_keys; exact Hnd |].
    intros k _. cbn. apply not_elem_of_nil. }
  rewrite Hkw, Hplot.
  set (t' := Dim (dim_kind (_transform n)) (dim_dimension (_transform n))
               (dim_ops (_transform n) ++
                [Op (FAttr name) (map ALit args) (lit_kwargs kwargs) false false])).
  assert (Ha' : forall fs, apply_dim (params s1) (_obj n1) (default (_transform n1) (Some t')) fs
                           = (Ok v', fs)).
  { intros fs. cbn [default n1 _obj]. subst t'. rewrite Hp1, Ho.
    apply apply_dim_snoc with (c := c); [exact Ha|].
    intros fs'. rewrite apply_op_unfold, resolve_args_lit, resolve_kwargs_lit.
    cbn. rewrite Hg, Hcall. reflexivity. }
  destruct (clone_forward (length (heap s)) n1 s1 (Some t') (Some false) None false [] v'
              Hn1 eq_refl Hc1 eq_refl eq_refl ltac:(auto) Ha') as (s2 & E2 & Hp2 & Hh2).
  rewrite E2. unfold modify_node.
  assert (Hl1 : length (heap s1) = S (length (heap s)))
    by (rewrite Hh1, length_app; cbn; lia).
  assert (Hn2 : heap s2 !! length (heap s) = Some n1)
    by (rewrite Hh2; apply lookup_app_l_Some, Hn1).
  rewrite Hn2, Hl1. eexists. split; [reflexivity|]. cbn [params].
  split; [congruence|]. unfold shape. cbn [heap params]. eexists. split.
  - rewrite list_lookup_insert_ne by lia. rewrite Hh2, <- Hl1.
    apply list_lookup_middle. reflexivity.
  - cbn [_init _obj _kwargs _inherit_kwargs _transform _current _method default].
    repeat split; auto. intros fs. rewrite Hp2. specialize (Ha' fs).
    unfold n1 in Ha'. cbn [_obj default] in Ha'. rewrite Ho in Ha'. exact Ha'.
Qed.


Lemma tracks_self_node obj s w v :
  tracks obj s w v ->
  exists n, heap s !! w = Some n /\ _init n = true /\ Interactive.narrowed n = Ok v /\
            Interactive.self_node w s = (Ok n, s).
Proof.
  intros (c & m & Hs & Hp).
  pose proof Hs as (n & Hn & Hi & _).
  pose proof (shape_narrowed _ _ _ _ _ _ _ Hs Hp Hn) as Hc.
  exists n. repeat split; auto. apply self_node_ok; auto. rewrite Hc. reflexivity.
Qed.

Lemma settled_tracks obj s w v : shape obj s w v None -> tracks obj s w v.
Proof. intros Hs. exists v, None. split; [exact Hs | reflexivity]. Qed.

(** One recorded operation: if it succeeds on the data, it succeeds on the
    wrapper, and the new wrapper tracks its result. *)
Lemma record_forward obj s w v r v' :
  tracks obj s w v -> admissible r v -> directly r v = Ok v' ->
  exists s' w', record r w s = (Ok w', s') /\ tracks obj s' w' v'.
Proof.
  intros Ht Hadm Hdir.
  destruct (tracks_self_node _ _ _ _ Ht) as (n & Hn & Hi & Hc & Hself).
  destruct Ht as (c & m & Hs & Hp).
  destruct r as [name|name args kwargs|f|f other]; cbn [record directly admissible] in *.
  - destruct (data_attr_forward _ _ _ _ _ _ _ _ Hs Hp Hadm Hdir) as (s' & E & _ & Hs').
    exists s', (length (heap s)). split; [exact E|].
    exists v, (Some name). split; [exact Hs'|].
    destruct Hadm as (Hne & Hnp & _). cbn. auto.
  - destruct Hadm as [Hname Hnd].
    destruct (py_getattr v name) as [mval|e] eqn:Hg; [|discriminate].
    destruct (data_attr_forward _ _ _ _ _ _ _ _ Hs Hp Hname Hg) as (s1 & E1 & _ & Hs1).
    destruct Hname as (Hne & Hnp & _).
    destruct (call_forward _ _ _ _ _ _ _ _ _ Hs1 Hne Hnp Hg Hdir Hnd) as (s2 & E2 & _ & Hs2).
    exists s2, (S (length (heap s1))). split.
    + unfold bind. rewrite E1. exact E2.
    + apply settled_tracks, Hs2.
  - destruct (apply_operator_forward _ _ _ _ _ _ f [] [] v' [] Hs Hp
                ltac:(reflexivity) Hdir) as (s' & E & _ & Hs').
    exists s', (S (length (heap s))). split.
    + unfold Interactive.unary_operator, bind. rewrite Hself. exact E.
    + apply settled_tracks, Hs'.
  - destruct (apply_operator_forward _ _ _ _ _ _ f [ALit other] [other] v' [] Hs Hp
                ltac:(reflexivity) Hdir) as (s' & E & _ & Hs').
    exists s', (S (length (heap s))). split.
    + unfold Interactive.binary_operator, Interactive.operand_arg, bind, ret, lift.
      rewrite Hself. exact E.
    + apply settled_tracks, Hs'.
Qed.

(** The recorded fragment on which [eval] agrees with the data: any
    sequence of data-level attribute accesses, method calls, unary
    operators and binary operators or indexing with the wrapper on the
    left and a literal on the right.  If the sequence succeeds on the
    value that [w] stands for, recording it on [w] succeeds and [eval]
    of the final wrapper returns the same value. *)
Lemma recorded_operations_eval obj rs :
  forall s w v v',
    tracks obj s w v -> admissible_all rs v -> directly_all rs v = Ok v' ->
    exists s' w',
      record_all rs w s = (Ok w', s') /\ tracks obj s' w' v' /\
      Interactive.eval w' s' = (Ok v', s').
Proof.
  induction rs as [|r rs IH]; intros s w v v' Ht Hadm Hdir; cbn in *.
  - inversion Hdir; subst. exists s, w. split; [reflexivity|]. split; [exact Ht|].
    destruct (tracks_self_node _ _ _ _ Ht) as (n & Hn & Hi & Hc & _).
    rewrite (eval_unfold _ _ _ Hn Hi), Hc. reflexivity.
  - destruct Hadm as [Hadm Hrest].
    destruct (directly r v) as [v1|e] eqn:Hd; [|discriminate].
    destruct (record_forward _ _ _ _ _ _ Ht Hadm Hd) as (s1 & w1 & E1 & Ht1).
    destruct (IH _ _ _ _ Ht1 Hrest Hdir) as (s2 & w2 & E2 & Ht2 & Hev).
    exists s2, w2. split; [|split; assumption].
    unfold bind. rewrite E1. exact E2.
Qed.

(** A freshly constructed wrapper tracks the root value of its dataset. *)
Lemma wrap_tracks obj s v0 :
  unnamed_array obj = false ->
  py_dataset obj (dim_dimension (initial_transform obj)) = Ok v0 ->
  exists s', wrap obj s = (Ok (length (heap s)), s') /\
             tracks obj s' (length (heap s)) v0.
Proof.
  intros Hu Hds. unfold wrap.
  rewrite (init_default_transform _ _ _ _ _ _ _ _ _ _ _ _ _ Hu).
  assert (Ha : forall fs, apply_dim (params s) obj (initial_transform obj) fs = (Ok v0, fs)).
  { intros fs. destruct (initial_transform obj) as [k d ops] eqn:Et.
    assert (ops = []) as ->.
    { unfold initial_transform in Et.
      destruct (is_xarray obj); [|destruct (is_tabular obj)]; inversion Et; reflexivity. }
    rewrite apply_dim_unfold. cbn in Hds. rewrite Hds. reflexivity. }
  unfold Interactive.__init__, bind, ret, transform_apply, alloc. rewrite Ha.
  eexists. split; [reflexivity|]. apply settled_tracks.
  eexists. cbn [heap params]. split; [apply list_lookup_middle; reflexivity|].
  cbn. repeat split; auto.
Qed.


(** A binary operator or an indexing whose right operand is another
    wrapper over the same object, with no method pending: the operand's
    transform is evaluated on the same dataset. *)
Lemma wrapper_operand_eval obj s w v w2 v2 f v' :
  tracks obj s w v -> shape obj s w2 v2 None ->
  py_operator f [v; v2] = Ok v' ->
  exists s' w',
    Interactive.binary_operator (Ok f) false w (Wrapper w2) s = (Ok w', s') /\
    tracks obj s' w' v' /\ Interactive.eval w' s' = (Ok v', s').
Proof.
  intros Ht Hs2 Hop.
  destruct (tracks_self_node _ _ _ _ Ht) as (n & Hn & Hi & Hc & Hself).
  destruct (tracks_self_node _ _ _ _ (settled_tracks _ _ _ _ Hs2))
    as (n2 & Hn2 & Hi2 & Hc2 & Hself2).
  destruct Ht as (c & m & Hs & Hp).
  assert (Ha2 : forall fs, resolve_args (params s) obj [ADim (_transform n2)] fs
                           = (Ok [v2], fs)).
  { intros fs. destruct Hs2 as (n2' & Hn2' & _ & _ & _ & _ & Ha2 & _).
    assert (n2' = n2) by congruence. subst.
    change (resolve_args (params s) obj [ADim (_transform n2)] fs) with
      (match apply_dim (params s) obj (_transform n2) fs with
       | (Err e, fs') => (Err e, fs')
       | (Ok v, fs') => (Ok [v], fs')
       end).
    rewrite Ha2. reflexivity. }
  destruct (apply_operator_forward _ _ _ _ _ _ f _ _ v' [] Hs Hp Ha2 Hop)
    as (s' & E & _ & Hs').
  exists s', (S (length (heap s))).
  assert (Ht' : tracks obj s' (S (length (heap s))) v') by (apply settled_tracks, Hs').
  split; [|split; [exact Ht'|]].
  - unfold Interactive.binary_operator, Interactive.operand_arg, bind, ret, lift.
    rewrite Hself2, Hself. exact E.
  - destruct (tracks_self_node _ _ _ _ Ht') as (n' & Hn' & Hi' & Hc' & _).
    rewrite (eval_unfold _ _ _ Hn' Hi'), Hc'. reflexivity.
Qed.

(** From construction to [eval]. *)
Lemma recorded_expression_eval obj rs v0 v s :
  unnamed_array obj = false ->
  py_dataset obj (dim_dimension (initial_transform obj)) = Ok v0 ->
  admissible_all rs v0 -> directly_all rs v0 = Ok v ->
  exists s' w',
    (let* w := wrap obj in record_all rs w) s = (Ok w', s') /\
    Interactive.eval w' s' = (Ok v, s').
Proof.
  intros Hu Hds Hadm Hdir.
  destruct (wrap_tracks obj s v0 Hu Hds) as (s1 & E1 & Ht1).
  destruct (recorded_operations_eval obj rs _ _ _ _ Ht1 Hadm Hdir) as (s2 & w2 & E2 & _ & Hev).
  exists s2, w2. split; [|exact Hev]. unfold bind. rewrite E1. exact E2.
Qed.

End Forward.

(** The hypotheses hold on the running example: [w.A.max()]. *)
Lemma recorded_expression_eval_example :
  exists s' w',
    (let* w := wrap Pandas.df in
     record_all [RAttr "A"; RMethod "max" [] []] w) s0 = (Ok w', s') /\
    Interactive.eval w' s' = (Ok (VInt 3), s').
Proof.
  apply (recorded_expression_eval Pandas.df [RAttr "A"; RMethod "max" [] []] Pandas.df).
  - reflexivity.
  - reflexivity.
  - cbn. repeat split; try discriminate; try reflexivity. apply NoDup_nil_2.
  - reflexivity.
Qed.

(** ** Calls of the plotting accessor *)

Section PlottingCall.
Context `{PyData}.

Lemma dict_has_keys {A} (d : list (string * A)) k :
  dict_has d k = false -> k ∉ map fst d.
Proof.
  unfold dict_has. induction d as [|[k' v] d IH]; cbn; intros Hk.
  - apply not_elem_of_nil.
  - destruct (String.eqb_spec k' k) as [->|Hne]; [discriminate|].
    apply not_elem_of_cons. split; [congruence | exact (IH Hk)].
Qed.

Lemma lit_kwargs_snoc kvs k v :
  "kind" ∉ map fst kvs -> k = "kind" ->
  dict_set (lit_kwargs kvs) k (ALit v) = lit_kwargs (kvs ++ [(k, v)]).
Proof.
  intros Hk ->. rewrite dict_set_fresh by (rewrite lit_kwargs_keys; exact Hk).
  unfold lit_kwargs. rewrite map_app. reflexivity.
Qed.

(** The accessor call goes through whenever the data's own [hvplot]
    method accepts the arguments. *)
Lemma hvplot_call_forward obj s w c m v vals kvs mval v' :
  shape obj s w c m -> pending c m v ->
  py_getattr v "hvplot" = Ok mval -> py_call mval vals kvs = Ok v' ->
  exists s',
    _hvplot.__call__ w (map ALit vals) None (lit_kwargs kvs) s
      = (Ok (S (length (heap s))), s') /\
    shape obj s' (S (length (heap s))) v' None.
Proof.
  intros Hs Hp Hg Hcall.
  destruct (resolve_accessor_forward _ _ _ _ _ _ Hs Hp) as (s1 & E1 & Hp1 & Hl1 & Hs1).
  destruct Hs1 as (nn & Hnn & Hi1 & Ho1 & Hk1 & Hik1 & Ha1 & Hcur1 & Hm1).
  assert (Hc1 : is_ok (Interactive.narrowed nn) = true).
  { unfold Interactive.narrowed. rewrite Hm1. reflexivity. }
  unfold _hvplot.__call__. cbn [nonempty is_Some_b andb].
  unfold bind at 1. rewrite E1.
  unfold bind at 1. rewrite (self_node_ok _ _ _ Hnn Hi1 Hc1).
  rewrite dim_call_accessor. unfold bind at 1, lift.
  match goal with
  | |- context [Interactive._clone _ (Some ?t) None None None (Some ?d) false []] =>
      set (t' := t); set (dm := d)
  end.
  assert (Ha' : forall fs, apply_dim (params s1) (_obj nn) (default (_transform nn) (Some t')) fs
                           = (Ok v', fs)).
  { intros fs. cbn [default]. subst t'. rewrite Ho1.
    apply apply_dim_snoc with (c := v); [exact Ha1|].
    intros fs'. rewrite apply_op_unfold, resolve_args_lit, resolve_kwargs_lit.
    cbn [apply_fn]. rewrite Hg, Hcall. reflexivity. }
  destruct (clone_forward (length (heap s)) nn s1 (Some t') None (Some dm) false [] v'
              Hnn Hi1 Hc1 Hk1 Hik1 ltac:(auto) Ha') as (s2 & E2 & Hp2 & Hh2).
  rewrite E2, Hl1. eexists. split; [reflexivity|].
  eexists. split; [rewrite Hh2, <- Hl1; apply list_lookup_middle; reflexivity|].
  cbn [_init _obj _kwargs _inherit_kwargs _transform _current _method default].
  repeat split; auto. intros fs. rewrite Hp2, <- Ho1. apply Ha'.
Qed.

End PlottingCall.


(** ** Reflected operators *)

(** The reflected subtraction builds the very expression of the direct
    one: [_apply_operator] does not forward [reverse=True]. *)
Lemma rsub_is_sub `{PyData} (self : addr) (other : operand) (s : state) :
  Interactive.__rsub__ self other s = Interactive.__sub__ self other s.
Proof. reflexivity. Qed.

(** The node appended for an operator is never tagged as reversed. *)
Lemma apply_operator_untagged `{PyData} self f args kwargs s new s' :
  Interactive._apply_operator self f args kwargs s = (Ok new, s') ->
  exists nn ops, heap s' !! new = Some nn /\
    dim_ops (_transform nn) = ops ++ [Op f args [] false false].
Proof.
  unfold Interactive._apply_operator, bind at 1. intros E.
  destruct (Interactive._resolve_accessor self s) as [[a|e] s1]; [|discriminate].
  unfold bind at 1 in E.
  destruct (Interactive.self_node a s1) as [[na|e] s2] eqn:E2; [|discriminate].
  apply clone_ok_inv in E.
  destruct E as (n0 & nn & _ & -> & Hh & _ & _ & _ & _ & Ht & _).
  exists nn, (dim_ops (_transform na)). split.
  - rewrite Hh. apply list_lookup_middle. reflexivity.
  - rewrite Ht. reflexivity.
Qed.

(** [__radd__] names [operator.div], which Python 3 does not have: the
    method never returns a node. *)
Lemma radd_raises `{PyData} (self : addr) (other : operand) (s : state) :
  is_ok (fst (Interactive.__radd__ self other s)) = false.
Proof.
  unfold Interactive.__radd__, Interactive.binary_operator, bind.
  destruct (Interactive.operand_arg other s) as [[a|e] s1]; [|reflexivity].
  destruct (Interactive.self_node self s1) as [[n|e] s2]; reflexivity.
Qed.

(** C2: with [a = w.A], the column [[1, 2, 3]], and [b = 10], the
    expression [a - b] evaluates to [[-9, -8, -7]] and [b - a], built by
    the reflected subtraction, evaluates to [[-9, -8, -7]] as well, not to
    its negation [[9, 8, 7]]; [b + a], built by the reflected addition,
    raises [AttributeError] instead of evaluating to a sum. *)
Theorem reflected_subtraction_same_as_direct :
  fst (Example.A_minus_10 s0) = Ok (VSeries [VInt (-9); VInt (-8); VInt (-7)]) /\
  fst (Example.ten_minus_A s0) = Ok (VSeries [VInt (-9); VInt (-8); VInt (-7)]) /\
  py_operator operator.neg [VSeries [VInt (-9); VInt (-8); VInt (-7)]] =
    Ok (VSeries [VInt 9; VInt 8; VInt 7]) /\
  fst (Example.ten_plus_A s0) =
    Err (AttributeError "module 'operator' has no attribute 'div'").
Proof. repeat split; vm_compute; reflexivity. Qed.

(** ** Evaluation of recorded expressions *)

(** The three expressions of the running example evaluate as they do on
    the frame itself. *)
Lemma example_expressions :
  fst (Example.A_max s0) = Ok (VInt 3) /\
  fst (Example.A_gt_1 s0) = Ok (VSeries [VBool false; VBool true; VBool true]) /\
  fst (Example.rows_A_gt_1 s0) =
    Ok (VFrame [("A", [VInt 2; VInt 3]); ("B", [VInt 5; VInt 6])]).
Proof. repeat split; vm_compute; reflexivity. Qed.

(** C1: on the frame with [A = [1, 2, 3]], [10 - w.A] applied to the data
    is [[9, 8, 7]]; [eval()] of the recorded expression returns
    [[-9, -8, -7]], the value of [w.A - 10]. *)
Theorem reflected_operator_eval :
  py_getattr Pandas.df "A" = Ok (VSeries [VInt 1; VInt 2; VInt 3]) /\
  py_operator operator.sub [VInt 10; VSeries [VInt 1; VInt 2; VInt 3]] =
    Ok (VSeries [VInt 9; VInt 8; VInt 7]) /\
  fst (Example.ten_minus_A s0) = Ok (VSeries [VInt (-9); VInt (-8); VInt (-7)]).
Proof. repeat split; vm_compute; reflexivity. Qed.

(** A wrapper used as right operand contributes its transform only: a
    method still pending on it is not part of the operand. *)
Lemma operand_without_pending_method `{PyData} (s : state) (w : addr) (n : node) :
  heap s !! w = Some n -> _init n = true -> is_ok (Interactive.narrowed n) = true ->
  Interactive.operand_arg (Wrapper w) s = (Ok (ADim (_transform n)), s).
Proof.
  intros Hn Hi Hc. unfold Interactive.operand_arg, bind.
  rewrite (self_node_ok _ _ _ Hn Hi Hc). reflexivity.
Qed.

Lemma pending_operand_example :
  py_operator operator.add [VSeries [VInt 1; VInt 2; VInt 3];
                            VSeries [VInt 4; VInt 5; VInt 6]] =
    Ok (VSeries [VInt 5; VInt 7; VInt 9]) /\
  py_operator operator.add [VSeries [VInt 1; VInt 2; VInt 3]; Pandas.df] =
    fst (Example.A_plus_B s0) /\
  fst (Example.A_plus_B s0) <> Ok (VSeries [VInt 5; VInt 7; VInt 9]).
Proof.
  split; [vm_compute; reflexivity|]. split; [vm_compute; reflexivity|].
  vm_compute. discriminate.
Qed.

(** ** Instances of the statements above on the running example *)

(** C3 does not hold as stated: constructing a wrapper over the frame
    with a transform whose application raises does not succeed; the
    constructor raises the error of the application and the heap stays
    empty. *)
Lemma construction_raises_with_transform :
  fst (apply_dim (params s0) Pandas.df Example.missing_column (figures s0)) =
    Err (AttributeError "object has no attribute 'Z'") /\
  fst (Interactive.__init__ Pandas.df None Pandas.df (Some Example.missing_column) false 0
         (ALit (VStr "top_left")) false false [] (ALit (VInt 100)) None [] s0) =
    Err (AttributeError "object has no attribute 'Z'") /\
  heap (snd (Interactive.__init__ Pandas.df None Pandas.df (Some Example.missing_column)
               false 0 (ALit (VStr "top_left")) false false [] (ALit (VInt 100)) None []
               s0)) = [].
Proof. repeat split; vm_compute; reflexivity. Qed.

(** The missing column at construction. *)
Lemma eager_failure_raises_at_construction_witness :
  apply_dim (params s0) Pandas.df Example.missing_column (figures s0) =
    (Err (AttributeError "object has no attribute 'Z'"), figures s0) /\
  Interactive.__init__ Pandas.df None Pandas.df (Some Example.missing_column) false 0
    (ALit (VStr "top_left")) false false [] (ALit (VInt 100)) None [] s0 =
    (Err (AttributeError "object has no attribute 'Z'"), s0).
Proof.
  split; [vm_compute; reflexivity|].
  apply (proj1 eager_failure_raises_at_construction Pandas.df None Pandas.df
           Example.missing_column false 0 (ALit (VStr "top_left")) false false []
           (ALit (VInt 100)) None [] s0).
  vm_compute. reflexivity.
Defined.

(** A DataArray without a name. *)
Lemma unnamed_array_rejected_witness :
  is_xarray_dataarray (VDataArray None [VInt 1; VInt 2]) = true /\
  obj_name (VDataArray None [VInt 1; VInt 2]) = None /\
  wrap (VDataArray None [VInt 1; VInt 2]) s0 = (Err unnamed_array_error, s0).
Proof.
  split; [reflexivity|]. split; [reflexivity|].
  apply (proj1 (unnamed_array_rejected (VDataArray None [VInt 1; VInt 2]) None
                  (VDataArray None [VInt 1; VInt 2]) false 0 (ALit (VStr "top_left"))
                  false false [] (ALit (VInt 100)) None [] s0));
    reflexivity.
Defined.


(** [w.A] is a new node. *)
Lemma interception_returns_new_node_witness :
  intercept (GetAttr "A") 0 Example.s_w = (Ok 1, Example.s_a) /\
  heap Example.s_w !! 1 = None /\ is_Some (heap Example.s_a !! 1).
Proof.
  assert (E : intercept (GetAttr "A") 0 Example.s_w = (Ok 1, Example.s_a))
    by (vm_compute; reflexivity).
  split; [exact E|].
  destruct (interception_returns_new_node (GetAttr "A") 0 1 Example.s_w Example.s_a E)
    as (Hnew & Hsome & _).
  split; [exact Hnew | exact Hsome].
Defined.

(** The callback of [w.A] returns the column. *)
Lemma callback_recomputes_witness :
  heap Example.s_a !! 1 = Some Example.n_a /\ _init Example.n_a = true /\
  is_ok (Interactive.narrowed Example.n_a) = true /\
  fst (Interactive._callback 1 Example.s_a) = Ok (Raw (VSeries [VInt 1; VInt 2; VInt 3])).
Proof.
  assert (Hn : heap Example.s_a !! 1 = Some Example.n_a) by (vm_compute; reflexivity).
  assert (Hc : is_ok (Interactive.narrowed Example.n_a) = true) by reflexivity.
  split; [exact Hn|]. split; [reflexivity|]. split; [exact Hc|].
  rewrite (proj1 (callback_recomputes Example.s_a 1 Example.n_a Hn eq_refl Hc)).
  vm_compute. reflexivity.
Defined.



(** * More of the module *)

(** ** The layout *)

Section LayoutFacts.
Context `{PyData}.
Variable ipy : bool.

Lemma widgets_ok s self n :
  heap s !! self = Some n -> _init n = true ->
  is_ok (Interactive.narrowed n) = true ->
  widgets ipy self s = (Ok (widgets_of ipy n), s).
Proof.
  intros Hn Hi Hc. unfold widgets, bind. rewrite (self_node_ok _ _ _ Hn Hi Hc). reflexivity.
Qed.

Lemma output_ok s self n :
  heap s !! self = Some n -> _init n = true ->
  is_ok (Interactive.narrowed n) = true ->
  Display.output self s = (Ok (output_of self n), s).
Proof.
  intros Hn Hi Hc. unfold Display.output, bind. rewrite (self_node_ok _ _ _ Hn Hi Hc).
  unfold output_of, Display.holoviews, Display.panel, bind.
  destruct (_dmap n); rewrite (self_node_ok _ _ _ Hn Hi Hc); reflexivity.
Qed.

Lemma loc_in_inv loc names :
  loc_in loc names = true -> exists name, loc = ALit (VStr name) /\ In name names.
Proof.
  destruct loc as [[]| | | | | | |]; cbn; try discriminate.
  intros E. eexists. split; [reflexivity|]. apply str_in_In, E.
Qed.

End LayoutFacts.

(** X1: for each of the twelve positions that [layout] knows, the layout
    is a row carrying the caller's keywords that holds the widget box
    exactly once and the output exactly once, and nothing else but
    spacers; the widget box comes first when the position starts with
    [left] or [top] and last when it starts with [right] or [bottom],
    centred or not.  The widget box is part of the layout even when no
    widget was found. *)
Theorem layout_places_widgets_and_output `{PyData} (ipy : bool) (s : state) (self : addr)
    (n : node) (name : string) (kwargs : kwargs_t) :
  heap s !! self = Some n -> _init n = true ->
  is_ok (Interactive.narrowed n) = true ->
  _loc n = ALit (VStr name) -> In name layout_locs ->
  exists objects,
    Display.layout ipy self kwargs s = (Ok (inr (Display.Row objects kwargs)), s) /\
    leaves (Display.Row objects kwargs) =
      if startswith name "left" || startswith name "top"
      then [Display.WidgetBox (widgets_of ipy n); Display.Output (output_of self n)]
      else [Display.Output (output_of self n); Display.WidgetBox (widgets_of ipy n)].
Proof.
  intros Hn Hi Hc Hloc Hin.
  unfold Display.layout, bind at 1. rewrite (widgets_ok ipy _ _ _ Hn Hi Hc).
  unfold bind at 1. rewrite (output_ok _ _ _ Hn Hi Hc).
  unfold bind at 1. rewrite (self_node_ok _ _ _ Hn Hi Hc). rewrite Hloc.
  unfold layout_locs in Hin. cbn [In] in Hin.
  repeat (destruct Hin as [<-|Hin];
          [destruct (_center n); eexists; split; reflexivity|]).
  destruct Hin.
Qed.

(** X2: [layout] does not validate [loc]: for any other value, a string
    or not, no branch assigns the local [widgets] and reading it raises
    [UnboundLocalError]; a layout is returned only for the twelve
    positions.  The state is not touched. *)
Theorem layout_unknown_loc `{PyData} (ipy : bool) (s : state) (self : addr) (n : node)
    (kwargs : kwargs_t) :
  heap s !! self = Some n -> _init n = true ->
  is_ok (Interactive.narrowed n) = true ->
  (loc_in (_loc n) layout_locs = false ->
     Display.layout ipy self kwargs s =
     (Ok (inl (Display.UnboundLocalError "widgets")), s)) /\
  (forall c s', Display.layout ipy self kwargs s = (Ok (inr c), s') ->
     exists name, _loc n = ALit (VStr name) /\ In name layout_locs).
Proof.
  intros Hn Hi Hc.
  assert (E : forall P : Prop,
             (loc_in (_loc n) layout_locs = true -> P) ->
             (Display.layout ipy self kwargs s =
                (Ok (inl (Display.UnboundLocalError "widgets")), s) -> 
              loc_in (_loc n) layout_locs = false -> P) -> P).
  { intros P Hyes Hno.
    destruct (loc_in (_loc n) layout_locs) eqn:El; [apply Hyes; reflexivity|].
    apply Hno; [|reflexivity].
    unfold Display.layout, bind at 1. rewrite (widgets_ok ipy _ _ _ Hn Hi Hc).
    unfold bind at 1. rewrite (output_ok _ _ _ Hn Hi Hc).
    unfold bind at 1. rewrite (self_node_ok _ _ _ Hn Hi Hc).
    destruct (_loc n) as [[| | |name| | | | | | | | |]| | | | | | |]; try reflexivity.
    cbn [loc_in] in *.
    unfold layout_locs, str_in in El. cbn [existsb] in El.
    repeat (apply orb_false_elim in El; destruct El as [? El]).
    unfold str_in. cbn [existsb].
    repeat match goal with
           | E : String.eqb name _ = false |- _ => rewrite E; clear E
           end.
    reflexivity. }
  split.
  - intros Hl. apply E; [congruence | auto].
  - intros c s' El. apply E.
    + apply loc_in_inv.
    + intros El' _. rewrite El' in El. discriminate.
Qed.

(** ** Autocompletion *)

Lemma ascii_compare_refl a : Ascii.compare a a = Eq.
Proof. unfold Ascii.compare. apply N.compare_refl. Qed.

Lemma ascii_lt_trans a b c :
  Ascii.compare a b = Lt -> Ascii.compare b c = Lt -> Ascii.compare a c = Lt.
Proof. unfold Ascii.compare. rewrite !N.compare_lt_iff. lia. Qed.

Lemma string_compare_refl a : String.compare a a = Eq.
Proof. induction a as [|c a IH]; cbn; [reflexivity|]. rewrite ascii_compare_refl. exact IH. Qed.

Lemma string_lt_irrefl a : ~ string_lt a a.
Proof. unfold string_lt. rewrite string_compare_refl. discriminate. Qed.

Lemma string_lt_trans a b c : string_lt a b -> string_lt b c -> string_lt a c.
Proof.
  unfold string_lt. revert b c.
  induction a as [|x a IH]; intros [|y b] [|z c]; cbn; try discriminate; try reflexivity.
  destruct (Ascii.compare x y) eqn:Exy; try discriminate.
  - apply Ascii.compare_eq_iff in Exy. subst y.
    destruct (Ascii.compare x z) eqn:Exz; try discriminate; [apply IH | reflexivity].
  - intros _. destruct (Ascii.compare y z) eqn:Eyz; try discriminate.
    + apply Ascii.compare_eq_iff in Eyz. subst z. rewrite Exy. reflexivity.
    + rewrite (ascii_lt_trans _ _ _ Exy Eyz). reflexivity.
Qed.

Lemma insert_sorted_In x y l : In x (insert_sorted y l) <-> x = y \/ In x l.
Proof.
  induction l as [|z l IH]; cbn.
  - split; [intros [->|[]]|intros [->|[]]]; auto.
  - destruct (String.compare y z) eqn:E; cbn.
    + apply String.compare_eq_iff in E. subst. split; [auto|]. intros [->|Hin]; auto.
    + split; [intros [->|Hin]|intros [->|Hin]]; auto.
    + rewrite IH. split; [intros [->|[->|Hin]]|intros [->|[->|Hin]]]; auto.
Qed.

Lemma sorted_set_In x l : In x (sorted_set l) <-> In x l.
Proof.
  induction l as [|y l IH]; cbn; [reflexivity|].
  rewrite insert_sorted_In, IH. split; intros [->|Hin]; auto.
Qed.

Lemma insert_sorted_ascending x l : ascending l -> ascending (insert_sorted x l).
Proof.
  induction l as [|y l IH]; cbn.
  - intros _. split; [constructor | exact I].
  - intros [Hy Hl]. destruct (String.compare x y) eqn:E; cbn.
    + split; assumption.
    + split; [|split; assumption]. constructor; [exact E|].
      eapply Forall_impl; [|exact Hy]. intros z Hz. eapply string_lt_trans; [exact E | exact Hz].
    + split; [|apply IH, Hl].
      apply Forall_forall. intros z Hz. apply insert_sorted_In in Hz.
      destruct Hz as [->|Hz].
      * unfold string_lt. rewrite String.compare_antisym, E. reflexivity.
      * rewrite Forall_forall in Hy. apply Hy, Hz.
Qed.

Lemma sorted_set_ascending l : ascending (sorted_set l).
Proof. induction l as [|x l IH]; cbn; [exact I | apply insert_sorted_ascending, IH]. Qed.

Lemma ascending_NoDup l : ascending l -> NoDup l.
Proof.
  induction l as [|x l IH]; cbn; [intros _; apply NoDup_nil_2|].
  intros [Hx Hl]. apply list.NoDup_cons. split; [|apply IH, Hl].
  intros Hin. rewrite Forall_forall in Hx. apply (string_lt_irrefl x), Hx, list_elem_of_In, Hin.
Qed.



(** ** The dependencies of the callback *)

Lemma params_fold (ps0 : list (string * owner)) (l : list (string * (string * owner))) :
  forall acc,
    NoDup acc -> (forall p, p ∈ acc -> p ∉ ps0) ->
    exists acc',
      fold_left (fun ps kp =>
                   if String.eqb (fst kp) "ax" || bool_decide (snd kp ∈ ps) then ps
                   else ps ++ [snd kp]) l (ps0 ++ acc) = ps0 ++ acc' /\
      NoDup acc' /\
      forall p, p ∈ acc' <->
        p ∈ acc \/ ((p ∉ ps0) /\ exists k, k <> "ax" /\ (k, p) ∈ l).
Proof.
  induction l as [|[k p] l IH]; intros acc Hnd Hdis; cbn [fold_left fst snd].
  - exists acc. split; [reflexivity|]. split; [exact Hnd|].
    intros q. split; [auto|]. intros [Hq|(_ & k & _ & Hk)]; [exact Hq|].
    apply elem_of_nil in Hk. destruct Hk.
  - destruct (String.eqb_spec k "ax") as [->|Hk]; cbn [orb].
    + destruct (IH acc Hnd Hdis) as (acc' & E & Hnd' & Hiff).
      exists acc'. split; [exact E|]. split; [exact Hnd'|].
      intros q. rewrite Hiff. split; intros [Hq|(Hq0 & k & Hk & Hin)]; auto.
      * right. split; [exact Hq0|]. exists k. split; [exact Hk|]. apply elem_of_cons. auto.
      * right. split; [exact Hq0|]. exists k. split; [exact Hk|].
        apply elem_of_cons in Hin. destruct Hin as [Heq|Hin]; [|exact Hin].
        inversion Heq; subst. contradiction.
    + destruct (decide (p ∈ ps0 ++ acc)) as [Hin|Hnin].
      * rewrite bool_decide_eq_true_2 by exact Hin.
        destruct (IH acc Hnd Hdis) as (acc' & E & Hnd' & Hiff).
        exists acc'. split; [exact E|]. split; [exact Hnd'|].
        intros q. rewrite Hiff. split; intros [Hq|(Hq0 & k' & Hk' & Hin')]; auto.
        -- right. split; [exact Hq0|]. exists k'. split; [exact Hk'|]. apply elem_of_cons. auto.
        -- apply elem_of_cons in Hin'. destruct Hin' as [Heq|Hin'].
           ++ inversion Heq; subst. apply elem_of_app in Hin. destruct Hin; [contradiction | auto].
           ++ right. split; [exact Hq0|]. exists k'. auto.
      * rewrite bool_decide_eq_false_2 by exact Hnin.
        rewrite <- app_assoc.
        assert (Hp0 : p ∉ ps0) by (intros Hp; apply Hnin, elem_of_app; auto).
        assert (Hpa : p ∉ acc) by (intros Hp; apply Hnin, elem_of_app; auto).
        destruct (IH (acc ++ [p])) as (acc' & E & Hnd' & Hiff).
        { apply list.NoDup_app. split; [exact Hnd|]. split; [|apply NoDup_singleton].
          intros q Hq Hq'. apply list_elem_of_singleton in Hq'. subst. contradiction. }
        { intros q Hq. apply elem_of_app in Hq. destruct Hq as [Hq|Hq]; [apply Hdis, Hq|].
          apply list_elem_of_singleton in Hq. subst. exact Hp0. }
        exists acc'. split; [exact E|]. split; [exact Hnd'|].
        intros q. rewrite Hiff, elem_of_app, list_elem_of_singleton.
        split.
        -- intros [[Hq| ->]|(Hq0 & k' & Hk' & Hin')]; auto.
           ++ right. split; [exact Hp0|]. exists k. split; [exact Hk|]. apply elem_of_cons. auto.
           ++ right. split; [exact Hq0|]. exists k'. split; [exact Hk'|]. apply elem_of_cons. auto.
        -- intros [Hq|(Hq0 & k' & Hk' & Hin')]; auto.
           apply elem_of_cons in Hin'. destruct Hin' as [Heq|Hin'].
           ++ inversion Heq; subst. auto.
           ++ right. split; [exact Hq0|]. exists k'. auto.
Qed.

(** X5: the parameters the callback depends on are the driver's
    dependencies, in their order and as they are, followed by the
    parameters of the transform that are not among them, each once; a
    parameter that the transform holds only under the key [ax] is left
    out. *)
Theorem params_are_driver_then_transform
    (dim_params : dim -> list (string * (string * owner))) (n : node) :
  exists added,
    Display._params dim_params n = Interactive._fn_params n ++ added /\
    NoDup added /\
    forall p, p ∈ added <->
      (p ∉ Interactive._fn_params n) /\
      exists k, k <> "ax" /\ (k, p) ∈ dim_params (_transform n).
Proof.
  unfold Display._params.
  destruct (params_fold (Interactive._fn_params n) (dim_params (_transform n)) [])
    as (added & E & Hnd & Hiff).
  - apply NoDup_nil_2.
  - intros p Hp. apply elem_of_nil in Hp. destruct Hp.
  - rewrite app_nil_r in E. exists added. split; [exact E|]. split; [exact Hnd|].
    intros p. rewrite Hiff. split; [|auto]. intros [Hp|Hp]; [|exact Hp].
    apply elem_of_nil in Hp. destruct Hp.
Qed.

(** ** Calls never touch a node that exists *)

Lemma appends_ret {A} (a : A) : appends (ret a).
Proof. intros s r s' E. inversion E; subst. exists []. rewrite app_nil_r. reflexivity. Qed.

Lemma appends_raise {A} (e : exn) : appends (@raise A e).
Proof. intros s r s' E. inversion E; subst. exists []. rewrite app_nil_r. reflexivity. Qed.

Lemma appends_lift {A} (x : result A) : appends (lift x).
Proof. intros s r s' E. inversion E; subst. exists []. rewrite app_nil_r. reflexivity. Qed.

Lemma appends_get_node a : appends (get_node a).
Proof.
  intros s r s' E. unfold get_node in E.
  destruct (heap s !! a); inversion E; subst; exists []; rewrite app_nil_r; reflexivity.
Qed.

Lemma appends_alloc n : appends (alloc n).
Proof. intros s r s' E. inversion E; subst. exists [n]. reflexivity. Qed.

Lemma appends_transform_apply `{PyData} t obj : appends (transform_apply t obj).
Proof.
  intros s r s' E. unfold transform_apply in E.
  destruct (apply_dim (params s) obj t (figures s)) as [r1 fs]. inversion E; subst.
  exists []. rewrite app_nil_r. reflexivity.
Qed.

Lemma appends_bind {A B} (m : M A) (f : A -> M B) :
  appends m -> (forall a, appends (f a)) -> appends (bind m f).
Proof.
  intros Hm Hf s r s' E. unfold bind in E.
  destruct (m s) as [[a|e] s1] eqn:Em.
  - destruct (Hm _ _ _ Em) as [t1 E1]. destruct (Hf a _ _ _ E) as [t2 E2].
    exists (t1 ++ t2). rewrite E2, E1, app_assoc. reflexivity.
  - inversion E; subst. eapply Hm, Em.
Qed.

Create HintDb grow.

#[local] Hint Resolve appends_ret appends_raise appends_lift appends_get_node
  appends_alloc appends_transform_apply : grow.

(** Splits a goal about a method body along its control structure. *)
Ltac grow_step :=
  match goal with
  | |- appends (let _ := _ in _) => cbv zeta
  | |- appends (bind _ _) => apply appends_bind; [|intros ?]
  | |- appends (match ?x with _ => _ end) => destruct x
  | |- appends (if ?x then _ else _) => destruct x
  | |- _ => solve [auto with grow]
  end.

Ltac grow := repeat grow_step.

Section Growth.
Context `{PyData}.

Lemma appends_self_node self : appends (Interactive.self_node self).
Proof. unfold Interactive.self_node. grow. Qed.

Lemma appends_init sobj fn obj transform plot depth loc center dmap ik mr method kw :
  appends (Interactive.__init__ sobj fn obj transform plot depth loc center dmap ik mr
             method kw).
Proof. unfold Interactive.__init__. grow. Qed.

Lemma appends_construct obj fn t plot depth loc center dmap kw :
  appends (Interactive.construct obj fn t plot depth loc center dmap kw).
Proof.
  unfold Interactive.construct.
  destruct (existsb _ _); [grow|].
  do 2 (apply appends_bind; [grow | intros ?]). apply appends_init.
Qed.

#[local] Hint Resolve appends_self_node appends_init appends_construct : grow.

Lemma appends_clone self tr plot loc center dmap copy kw :
  appends (Interactive._clone self tr plot loc center dmap copy kw).
Proof. unfold Interactive._clone. grow. Qed.

#[local] Hint Resolve appends_clone : grow.

Lemma appends_clone_star self args kw : appends (Interactive._clone_star self args kw).
Proof. unfold Interactive._clone_star. grow. Qed.

(** Writing to a node that was appended leaves the older ones alone. *)
Lemma modify_appended a f s r s' old tail :
  heap s = old ++ tail -> length old <= a -> modify_node a f s = (r, s') ->
  exists tail', heap s' = old ++ tail'.
Proof.
  intros Hh Ha E. unfold modify_node in E.
  destruct (heap s !! a) as [n|]; inversion E; subst; cbn [heap].
  - rewrite Hh. rewrite insert_app_r_alt by exact Ha. eexists. reflexivity.
  - eexists. exact Hh.
Qed.

Lemma appends_call self args kw : appends (Interactive.__call__ self args kw).
Proof.
  unfold Interactive.__call__. apply appends_bind; [grow | intros n].
  destruct (_method n) as [m|].
  - intros s r s' E. unfold bind at 1 in E.
    destruct (Interactive._clone self None None None None None true [] s)
      as [[new|e] s1] eqn:E1.
    + apply clone_ok_inv in E1. destruct E1 as (n0 & nn & _ & -> & Hh1 & _).
      unfold finally in E.
      match type of E with
      | context [match ?m s1 with _ => _ end] =>
          assert (Hm : appends m) by grow; destruct (m s1) as [r2 s2] eqn:E2
      end.
      destruct (Hm _ _ _ E2) as [t2 Hh2].
      destruct (modify_node (length (heap s)) (set_method None) s2) as [[u|e] s3] eqn:E3;
        inversion E; subst;
        (eapply modify_appended; [| |exact E3];
         [rewrite Hh2, Hh1, <- app_assoc; reflexivity | lia]).
    + inversion E; subst. eapply appends_clone, E1.
  - destruct (Nat.eqb (_depth n) 0); [apply appends_clone_star | grow].
Qed.

End Growth.

(** X6: a call of a wrapper, whether it returns a node or raises, leaves
    every node that existed exactly as it was, the called one and its
    pending method included: the method is reset on the copy that the
    call makes, not on the wrapper that was called (lines 359-367).  New
    nodes are appended. *)
Theorem call_leaves_nodes_untouched `{PyData} (self : addr) (args : list arg)
    (kwargs : kwargs_t) (s : state) :
  (exists tail, heap (snd (Interactive.__call__ self args kwargs s)) = heap s ++ tail) /\
  (forall a n, heap s !! a = Some n ->
     heap (snd (Interactive.__call__ self args kwargs s)) !! a = Some n).
Proof.
  destruct (Interactive.__call__ self args kwargs s) as [r s'] eqn:E.
  destruct (appends_call _ _ _ _ _ _ E) as [tail Hh]. cbn [snd].
  split; [exists tail; exact Hh|].
  intros a n Hn. rewrite Hh. apply lookup_app_l_Some, Hn.
Qed.

(** ** The pending method is consumed *)

Section Consumed.
Context `{PyData}.

Lemma self_node_inv self s n s1 :
  Interactive.self_node self s = (Ok n, s1) ->
  heap s !! self = Some n /\ s1 = s /\ (_init n = true -> is_ok (Interactive.narrowed n) = true).
Proof.
  unfold Interactive.self_node, bind, get_node, lift, ret.
  destruct (heap s !! self) as [n0|]; [|discriminate].
  destruct (_init n0) eqn:Hi.
  - destruct (Interactive.narrowed n0) eqn:Hc; [|discriminate].
    intros E. inversion E; subst. rewrite Hc. auto.
  - intros E. inversion E; subst. split; [reflexivity|]. split; [reflexivity|]. congruence.
Qed.

Lemma resolve_accessor_resets s self n m r s' :
  heap s !! self = Some n -> _init n = true ->
  is_ok (Interactive.narrowed n) = true -> nonempty (_method n) = Some m ->
  Interactive._resolve_accessor self s = (r, s') ->
  heap s' !! self = Some (set_method None n).
Proof.
  intros Hn Hi Hc Hm E.
  unfold Interactive._resolve_accessor, bind at 1 in E.
  rewrite (self_node_ok _ _ _ Hn Hi Hc), Hm in E. unfold finally in E.
  match type of E with
  | context [match ?c s with _ => _ end] => destruct (c s) as [r1 s1] eqn:E1
  end.
  destruct (appends_clone _ _ _ _ _ _ _ _ _ _ _ E1) as [tail Hh].
  assert (Hn1 : heap s1 !! self = Some n) by (rewrite Hh; apply lookup_app_l_Some, Hn).
  unfold modify_node in E. rewrite Hn1 in E. inversion E; subst. cbn [heap].
  apply list_lookup_insert_eq. eapply lookup_lt_Some, Hn1.
Qed.

Lemma apply_operator_resets s self n m f args kw r s' :
  heap s !! self = Some n -> _init n = true ->
  is_ok (Interactive.narrowed n) = true -> nonempty (_method n) = Some m ->
  Interactive._apply_operator self f args kw s = (r, s') ->
  heap s' !! self = Some (set_method None n).
Proof.
  intros Hn Hi Hc Hm E. unfold Interactive._apply_operator, bind at 1 in E.
  destruct (Interactive._resolve_accessor self s) as [[new|e] s1] eqn:E1.
  - pose proof (resolve_accessor_resets _ _ _ _ _ _ Hn Hi Hc Hm E1) as Hn1.
    match type of E with
    | ?c s1 = _ => assert (Hm' : appends c)
    end.
    { apply appends_bind; [apply appends_self_node | intros ?; apply appends_clone]. }
    destruct (Hm' _ _ _ E) as [tail Hh]. rewrite Hh. apply lookup_app_l_Some, Hn1.
  - inversion E; subst. eapply resolve_accessor_resets; eauto.
Qed.

End Consumed.


(** ** The keyword dictionaries of a clone *)

Lemma dict_get_set {A} (d : list (string * A)) k v k' :
  dict_get (dict_set d k v) k' = if String.eqb k k' then Some v else dict_get d k'.
Proof.
  induction d as [|[k0 v0] d IH]; cbn; [reflexivity|].
  destruct (String.eqb_spec k0 k) as [->|Hne]; cbn.
  - destruct (String.eqb_spec k k'); reflexivity.
  - destruct (String.eqb_spec k0 k') as [->|Hne'].
    + destruct (String.eqb_spec k k'); [congruence | reflexivity].
    + exact IH.
Qed.

Lemma dict_get_del {A} (d : list (string * A)) k k' :
  dict_get (dict_del d k) k' = if String.eqb k k' then None else dict_get d k'.
Proof.
  induction d as [|[k0 v0] d IH]; cbn; [destruct (String.eqb k k'); reflexivity|].
  destruct (String.eqb_spec k0 k) as [->|Hne]; cbn.
  - rewrite IH. destruct (String.eqb_spec k k'); reflexivity.
  - rewrite IH. destruct (String.eqb_spec k0 k') as [->|Hne'].
    + destruct (String.eqb_spec k k'); [congruence | reflexivity].
    + reflexivity.
Qed.

Lemma dict_has_set {A} (d : list (string * A)) k v k' :
  dict_has (dict_set d k v) k' = String.eqb k k' || dict_has d k'.
Proof. unfold dict_has. rewrite dict_get_set. destruct (String.eqb k k'); reflexivity. Qed.

Lemma dict_has_del {A} (d : list (string * A)) k k' :
  dict_has (dict_del d k) k' = negb (String.eqb k k') && dict_has d k'.
Proof. unfold dict_has. rewrite dict_get_del. destruct (String.eqb k k'); reflexivity. Qed.

Lemma dict_update_snoc {A} (d e : list (string * A)) k v :
  dict_update d (e ++ [(k, v)]) = dict_set (dict_update d e) k v.
Proof. unfold dict_update. rewrite fold_left_app. reflexivity. Qed.

Lemma dict_has_update {A} (d e : list (string * A)) k :
  dict_has (dict_update d e) k = dict_has d k || dict_has e k.
Proof.
  induction e as [|[k0 v0] e IH] using rev_ind.
  - cbn. rewrite orb_false_r. reflexivity.
  - rewrite dict_update_snoc, dict_has_set, IH.
    assert (dict_has (e ++ [(k0, v0)]) k = String.eqb k0 k || dict_has e k) as ->.
    { clear IH. unfold dict_has. induction e as [|[k1 v1] e IHe]; cbn.
      - destruct (String.eqb k0 k); reflexivity.
      - destruct (String.eqb k1 k); [rewrite orb_true_r; reflexivity | exact IHe]. }
    destruct (String.eqb k0 k), (dict_has d k), (dict_has e k); reflexivity.
Qed.

Lemma dict_get_update_absent {A} (d e : list (string * A)) k :
  dict_has e k = false -> dict_get (dict_update d e) k = dict_get d k.
Proof.
  unfold dict_update. revert d. induction e as [|[k0 v0] e IH]; intros d He; [reflexivity|].
  cbn [fold_left fst snd]. unfold dict_has in He. cbn in He.
  destruct (String.eqb k0 k) eqn:E0; [discriminate|].
  rewrite IH by exact He. rewrite dict_get_set, E0. reflexivity.
Qed.

Lemma dict_has_false_get {A} (d : list (string * A)) k :
  dict_has d k = false -> dict_get d k = None.
Proof. unfold dict_has. destruct (dict_get d k); [discriminate | reflexivity]. Qed.

Lemma clean_has kw k : clean kw = true -> In k reserved_names -> dict_has kw k = false.
Proof.
  unfold clean. rewrite forallb_forall. intros Hc Hk. specialize (Hc k Hk).
  destruct (dict_has kw k); [discriminate | reflexivity].
Qed.

(** What the constructor keeps in [**kwargs] is clean, whatever it was
    given, as long as it accepts it. *)
Lemma rest_clean (merged : kwargs_t) :
  existsb (dict_has merged) explicit_init_names = false ->
  clean (dict_del (dict_del (dict_del merged "inherit_kwargs") "max_rows") "method") = true.
Proof.
  intros He. unfold clean. apply forallb_forall. intros k Hk.
  rewrite !dict_has_del.
  unfold reserved_names in Hk. apply in_app_iff in Hk. destruct Hk as [Hk|Hk].
  - assert (dict_has merged k = false) as ->.
    { destruct (dict_has merged k) eqn:E; [|reflexivity].
      assert (existsb (dict_has merged) explicit_init_names = true)
        by (apply existsb_exists; exists k; auto).
      congruence. }
    rewrite !andb_false_r. reflexivity.
  - cbn [In] in Hk. destruct Hk as [<-|[<-|[<-|[]]]]; cbn;
      rewrite ?andb_false_r; reflexivity.
Qed.

Section CloneKeywords.
Context `{PyData}.

(** The fields of a clone, keyword dictionaries included. *)
Lemma clone_ok_full self tr plot loc center dmap copy kw s new s' :
  Interactive._clone self tr plot loc center dmap copy kw s = (Ok new, s') ->
  exists n nn,
    heap s !! self = Some n /\ new = length (heap s) /\
    heap s' = heap s ++ [nn] /\ params s' = params s /\
    _obj nn = _obj n /\ _fn nn = _fn n /\ _init nn = true /\
    _transform nn = default (_transform n) tr /\
    _plot nn = (_plot n || default false plot) /\
    _depth nn = _depth n + 1 /\
    _loc nn = default (_loc n) loc /\
    _center nn = default (_center n) center /\
    _dmap nn = default (_dmap n) dmap /\
    _inherit_kwargs nn =
      match dict_get (merged_kwargs n copy kw) "inherit_kwargs" with
      | Some (ADict d) => d
      | _ => []
      end /\
    _method nn =
      match dict_get (merged_kwargs n copy kw) "method" with
      | Some (ALit (VStr m)) => Some m
      | _ => None
      end /\
    _max_rows nn = default (ALit (VInt 100)) (dict_get (merged_kwargs n copy kw) "max_rows") /\
    clean (_kwargs nn) = true /\
    _kwargs nn =
      dict_del (dict_del (dict_del (merged_kwargs n copy kw) "inherit_kwargs") "max_rows")
               "method".
Proof.
  intros E.
  destruct (clone_ok_inv _ _ _ _ _ _ _ _ _ _ _ E)
    as (n & nn & Hn & Hnew & Hh & Hp & Ho & Hf & Hi & Ht & Hpl & Hd & Hl & Hc & Hdm & _).
  exists n, nn. repeat (split; [assumption|]).
  unfold Interactive._clone, bind at 1 in E.
  destruct (Interactive.self_node self s) as [[n0|e] s1] eqn:E0; [|discriminate].
  apply self_node_inv in E0. destruct E0 as (Hn0 & -> & _).
  assert (n0 = n) by congruence. subst n0.
  unfold bind at 1 in E.
  assert (E' : Interactive.construct (_obj n) (_fn n) (default (_transform n) tr)
                 (_plot n || default false plot) (_depth n + 1) (default (_loc n) loc)
                 (default (_center n) center) (default (_dmap n) dmap)
                 (merged_kwargs n copy kw) s = (Ok new, s')).
  { unfold merged_kwargs. destruct copy; [|exact E].
    destruct (dict_has kw "inherit_kwargs" || dict_has kw "method"); [discriminate | exact E]. }
  clear E. unfold Interactive.construct in E'.
  set (merged := merged_kwargs n copy kw) in *.
  destruct (existsb (dict_has merged) explicit_init_names) eqn:Hex; [discriminate|].
  unfold bind at 1 in E'.
  match type of E' with
  | context [match ?m s with _ => _ end] => destruct (m s) as [[ik|e] s2] eqn:Ei
  end; [|discriminate].
  assert (s2 = s /\ ik = match dict_get merged "inherit_kwargs" with
                         | Some (ADict d) => d
                         | _ => []
                         end) as [-> Hik].
  { destruct (dict_get merged "inherit_kwargs") as [[]|]; inversion Ei; auto. }
  unfold bind at 1 in E'.
  match type of E' with
  | context [match ?m s with _ => _ end] => destruct (m s) as [[me|e] s3] eqn:Em
  end; [|discriminate].
  assert (s3 = s /\ me = match dict_get merged "method" with
                         | Some (ALit (VStr m)) => Some m
                         | _ => None
                         end) as [-> Hme].
  { destruct (dict_get merged "method") as [[[]| | | | | | |]|]; inversion Em; auto. }
  apply init_transform_inv in E'.
  destruct (apply_dim (params s) (_obj n) (default (_transform n) tr) (figures s))
    as [[cur|e] fs] eqn:Ea; destruct E' as [E1 E2]; [|discriminate].
  subst s'. cbn [heap] in Hh. apply app_inv_head in Hh. inversion Hh; subst nn.
  cbn [_inherit_kwargs _method _max_rows _kwargs].
  split; [exact Hik|]. split; [exact Hme|]. split; [reflexivity|].
  split; [apply rest_clean, Hex | reflexivity].
Qed.

End CloneKeywords.

Lemma dict_set_keys {A} (d : list (string * A)) k v x :
  x ∈ map fst (dict_set d k v) <-> x = k \/ x ∈ map fst d.
Proof.
  induction d as [|[k0 v0] d IH]; cbn.
  - rewrite list_elem_of_singleton, elem_of_nil. tauto.
  - destruct (String.eqb_spec k0 k) as [->|Hne]; cbn; rewrite !elem_of_cons.
    + tauto.
    + rewrite IH. tauto.
Qed.

Lemma dict_set_NoDup {A} (d : list (string * A)) k v :
  NoDup (map fst d) -> NoDup (map fst (dict_set d k v)).
Proof.
  induction d as [|[k0 v0] d IH]; cbn; intros Hnd.
  - apply NoDup_singleton.
  - apply list.NoDup_cons in Hnd. destruct Hnd as [Hk Hnd].
    destruct (String.eqb_spec k0 k) as [->|Hne]; cbn; apply list.NoDup_cons.
    + split; assumption.
    + split; [|apply IH, Hnd]. rewrite dict_set_keys. intros [->|Hin]; contradiction.
Qed.

Lemma dict_update_NoDup {A} (d e : list (string * A)) :
  NoDup (map fst d) -> NoDup (map fst (dict_update d e)).
Proof.
  unfold dict_update. revert d. induction e as [|[k v] e IH]; intros d Hnd; [exact Hnd|].
  cbn. apply IH, dict_set_NoDup, Hnd.
Qed.

Lemma dict_del_keys {A} (d : list (string * A)) k x :
  x ∈ map fst (dict_del d k) <-> x <> k /\ x ∈ map fst d.
Proof.
  induction d as [|[k0 v0] d IH]; cbn.
  - rewrite elem_of_nil. tauto.
  - destruct (String.eqb_spec k0 k) as [->|Hne]; cbn; rewrite ?elem_of_cons, IH.
    + split; [tauto|]. intros [Hx [->|Hin]]; [contradiction | tauto].
    + split; [intros [->|[? ?]]; auto | tauto].
Qed.

Lemma dict_del_NoDup {A} (d : list (string * A)) k :
  NoDup (map fst d) -> NoDup (map fst (dict_del d k)).
Proof.
  induction d as [|[k0 v0] d IH]; cbn; intros Hnd; [exact Hnd|].
  apply list.NoDup_cons in Hnd. destruct Hnd as [Hk Hnd].
  destruct (String.eqb_spec k0 k) as [->|Hne]; cbn; [apply IH, Hnd|].
  apply list.NoDup_cons. split; [|apply IH, Hnd].
  rewrite dict_del_keys. tauto.
Qed.

(** In a dictionary, the binding that [dict(d, **e)] keeps for a key of
    [e] is that of [e]. *)
Lemma dict_get_update_present {A} (d e : list (string * A)) k v :
  NoDup (map fst e) -> dict_get e k = Some v -> dict_get (dict_update d e) k = Some v.
Proof.
  unfold dict_update. revert d. induction e as [|[k0 v0] e IH]; intros d Hnd He; [discriminate|].
  cbn in Hnd. apply list.NoDup_cons in Hnd. destruct Hnd as [Hk Hnd].
  cbn [fold_left fst snd]. cbn in He.
  destruct (String.eqb_spec k0 k) as [->|Hne].
  - inversion He; subst.
    change (dict_get (dict_update (dict_set d k v) e) k = Some v).
    rewrite dict_get_update_absent; [apply dict_get_set_eq|].
    unfold dict_has. destruct (dict_get e k) as [v'|] eqn:E'; [|reflexivity].
    exfalso. apply Hk. clear -E'. induction e as [|[k1 v1] e IHe]; [discriminate|].
    cbn in *. destruct (String.eqb_spec k1 k) as [->|Hne]; apply elem_of_cons; auto.
  - apply IH; assumption.
Qed.

Lemma clean_get kw k v :
  clean kw = true -> dict_get kw k = Some v ->
  k <> "inherit_kwargs" /\ k <> "max_rows" /\ k <> "method".
Proof.
  intros Hc Hg.
  assert (Hno : forall r, In r reserved_names -> k <> r).
  { intros r Hr ->. pose proof (clean_has _ _ Hc Hr) as Hh.
    unfold dict_has in Hh. rewrite Hg in Hh. discriminate. }
  repeat split; apply Hno; unfold reserved_names; apply in_app_iff; right; cbn; auto.
Qed.

Lemma dict_get_rest (merged : kwargs_t) k :
  k <> "inherit_kwargs" -> k <> "max_rows" -> k <> "method" ->
  dict_get (dict_del (dict_del (dict_del merged "inherit_kwargs") "max_rows") "method") k
  = dict_get merged k.
Proof.
  intros H1 H2 H3. rewrite !dict_get_del.
  destruct (String.eqb_spec "method" k); [congruence|].
  destruct (String.eqb_spec "max_rows" k); [congruence|].
  destruct (String.eqb_spec "inherit_kwargs" k); [congruence|]. reflexivity.
Qed.

(** The keyword dictionary that [_clone] builds from a well-formed node,
    in the three ways the module calls it: a copy, a plain clone, and
    the clone made when a pending method is finalised. *)
Lemma merged_kwargs_wf (n : node) (copy : bool) (kw inh : kwargs_t) :
  wf_node n ->
  (copy = true /\ kw = []) \/ (copy = false /\ kw = []) \/
  (copy = false /\ kw = [("inherit_kwargs", ADict inh)]) ->
  dict_get (merged_kwargs n copy kw) "inherit_kwargs" =
    (if copy then Some (ADict (_inherit_kwargs n))
     else match kw with [] => None | _ => Some (ADict inh) end) /\
  dict_get (merged_kwargs n copy kw) "method" =
    (if copy then Some (method_arg (_method n)) else None) /\
  dict_get (merged_kwargs n copy kw) "max_rows" = None /\
  NoDup (map fst (merged_kwargs n copy kw)) /\
  forall k v, dict_get (_kwargs n) k = Some v ->
    dict_get (merged_kwargs n copy kw) k = Some v.
Proof.
  intros (Hc & Hnd & Hik) Hshape.
  assert (Hr : forall r, In r ["inherit_kwargs"; "max_rows"; "method"] ->
                 dict_has (_kwargs n) r = false).
  { intros r Hin. apply clean_has; [exact Hc|]. unfold reserved_names.
    apply in_app_iff. right. exact Hin. }
  assert (Hi : forall r, In r ["inherit_kwargs"; "max_rows"; "method"] ->
                 dict_has (_inherit_kwargs n) r = false).
  { intros r Hin. destruct Hik as [->| ->]; [reflexivity|].
    cbn in Hin. destruct Hin as [<-|[<-|[<-|[]]]]; reflexivity. }
  assert (Hndi : NoDup (map fst (_inherit_kwargs n))).
  { destruct Hik as [->| ->]; cbn; [apply NoDup_nil_2 | apply NoDup_singleton]. }
  unfold merged_kwargs.
  destruct Hshape as [[-> ->]|[[-> ->]|[-> ->]]].
  - change (dict_update (_kwargs n)
              (dict_update [("inherit_kwargs", ADict (_inherit_kwargs n));
                            ("method", method_arg (_method n))] []))
      with (dict_set (dict_set (_kwargs n) "inherit_kwargs" (ADict (_inherit_kwargs n)))
              "method" (method_arg (_method n))).
    rewrite !dict_get_set. cbn [String.eqb Ascii.eqb Bool.eqb].
    split; [reflexivity|]. split; [reflexivity|].
    split; [apply dict_has_false_get, Hr; cbn; auto|].
    split; [apply dict_set_NoDup, dict_set_NoDup, Hnd|].
    intros k v Hg. destruct (clean_get _ _ _ Hc Hg) as (H1 & _ & H3).
    rewrite !dict_get_set.
    destruct (String.eqb_spec "method" k); [congruence|].
    destruct (String.eqb_spec "inherit_kwargs" k); [congruence | exact Hg].
  - change (dict_update (_kwargs n) []) with (_kwargs n).
    assert (Hnone : forall r, In r ["inherit_kwargs"; "max_rows"; "method"] ->
                      dict_get (dict_update (_inherit_kwargs n) (_kwargs n)) r = None).
    { intros r Hin. apply dict_has_false_get. rewrite dict_has_update, Hi, Hr by exact Hin.
      reflexivity. }
    split; [apply Hnone; cbn; auto|]. split; [apply Hnone; cbn; auto|].
    split; [apply Hnone; cbn; auto|].
    split; [apply dict_update_NoDup, Hndi|].
    intros k v Hg. apply dict_get_update_present; assumption.
  - change (dict_update (_kwargs n) [("inherit_kwargs", ADict inh)])
      with (dict_set (_kwargs n) "inherit_kwargs" (ADict inh)).
    assert (Hnd' : NoDup (map fst (dict_set (_kwargs n) "inherit_kwargs" (ADict inh))))
      by (apply dict_set_NoDup, Hnd).
    assert (Hnone : forall r, In r ["max_rows"; "method"] ->
                      dict_get (dict_update (_inherit_kwargs n)
                                  (dict_set (_kwargs n) "inherit_kwargs" (ADict inh))) r = None).
    { intros r Hin. apply dict_has_false_get.
      rewrite dict_has_update, dict_has_set, Hi, Hr by (cbn in *; tauto).
      cbn in Hin. destruct Hin as [<-|[<-|[]]]; reflexivity. }
    split; [apply dict_get_update_present; [exact Hnd' | apply dict_get_set_eq]|].
    split; [apply Hnone; cbn; auto|]. split; [apply Hnone; cbn; auto|].
    split; [apply dict_update_NoDup, Hndi|].
    intros k v Hg. destruct (clean_get _ _ _ Hc Hg) as (H1 & _ & _).
    apply dict_get_update_present; [exact Hnd'|].
    rewrite dict_get_set. destruct (String.eqb_spec "inherit_kwargs" k); [congruence | exact Hg].
Qed.

Section CloneWf.
Context `{PyData}.

(** A clone of a well-formed node is well formed, keeps the display
    keywords, and has the default row limit. *)
Lemma clone_wf self tr plot loc center dmap copy kw inh s new s' n :
  heap s !! self = Some n -> wf_node n ->
  (copy = true /\ kw = []) \/ (copy = false /\ kw = []) \/
  (copy = false /\ kw = [("inherit_kwargs", ADict inh)]) ->
  inh = [] \/ inh = [("ax", AAxFn)] ->
  Interactive._clone self tr plot loc center dmap copy kw s = (Ok new, s') ->
  exists nn,
    new = length (heap s) /\ heap s' = heap s ++ [nn] /\ params s' = params s /\
    _obj nn = _obj n /\ _fn nn = _fn n /\ _init nn = true /\
    _transform nn = default (_transform n) tr /\
    _plot nn = (_plot n || default false plot) /\
    _depth nn = _depth n + 1 /\
    _loc nn = default (_loc n) loc /\
    _center nn = default (_center n) center /\
    _dmap nn = default (_dmap n) dmap /\
    wf_node nn /\ _max_rows nn = ALit (VInt 100) /\
    _method nn = (if copy then _method n else None) /\
    (forall k v, dict_get (_kwargs n) k = Some v -> dict_get (_kwargs nn) k = Some v) /\
    _inherit_kwargs nn =
      (if copy then _inherit_kwargs n else match kw with [] => [] | _ => inh end).
Proof.
  intros Hn Hwf Hshape Hinh E.
  destruct (clone_ok_full _ _ _ _ _ _ _ _ _ _ _ E)
    as (n0 & nn & Hn0 & Hnew & Hh & Hp & Ho & Hf & Hi & Ht & Hpl & Hd & Hl & Hc & Hdm &
        Hik & Hme & Hmr & Hcl & Hkw).
  assert (n0 = n) by congruence. subst n0.
  destruct (merged_kwargs_wf n copy kw inh Hwf Hshape) as (Gik & Gme & Gmr & Gnd & Gkeep).
  exists nn. repeat (split; [assumption|]).
  rewrite Gik in Hik. rewrite Gme in Hme. rewrite Gmr in Hmr.
  assert (Hik' : _inherit_kwargs nn =
                 (if copy then _inherit_kwargs n else match kw with [] => [] | _ => inh end)).
  { rewrite Hik. destruct Hshape as [[-> ->]|[[-> ->]|[-> ->]]]; reflexivity. }
  split; [|split; [exact Hmr|split; [|split; [|exact Hik']]]].
  - split; [exact Hcl|]. split.
    + rewrite Hkw. apply dict_del_NoDup, dict_del_NoDup, dict_del_NoDup, Gnd.
    + rewrite Hik'. destruct Hwf as (_ & _ & Hwi).
      destruct Hshape as [[-> ->]|[[-> ->]|[-> ->]]]; auto.
  - rewrite Hme. destruct copy; [|reflexivity]. destruct (_method n); reflexivity.
  - intros k v Hg. destruct Hwf as (Hclean & _ & _).
    destruct (clean_get _ _ _ Hclean Hg) as (H1 & H2 & H3).
    rewrite Hkw, dict_get_rest by assumption. apply Gkeep, Hg.
Qed.

End CloneWf.

(** ** What a recorded node inherits *)

Lemma derived_trans n1 n2 n3 j k :
  derived n1 n2 j -> derived n2 n3 k -> derived n1 n3 (j + k).
Proof.
  intros (Ao & Af & Ai & Ad & Al & Ac & Ap & Aw & Am & Ak)
         (Bo & Bf & Bi & Bd & Bl & Bc & Bp & Bw & Bm & Bk).
  unfold derived. repeat split; try congruence; try lia; try tauto; try apply Bw.
  intros x v Hx. apply Bk, Ak, Hx.
Qed.

Lemma derived_set_method n nn k m : derived n nn k -> derived n (set_method m nn) k.
Proof. intros D. exact D. Qed.

Lemma derived_set_doc n nn k d : derived n nn k -> derived n (set_doc d nn) k.
Proof. intros D. exact D. Qed.

Section Derived.
Context `{PyData}.

Lemma clone_derived self tr plot dmap copy kw inh s new s' n :
  heap s !! self = Some n -> wf_node n ->
  (copy = true /\ kw = []) \/ (copy = false /\ kw = []) \/
  (copy = false /\ kw = [("inherit_kwargs", ADict inh)]) ->
  inh = [] \/ inh = [("ax", AAxFn)] ->
  Interactive._clone self tr plot None None dmap copy kw s = (Ok new, s') ->
  exists nn,
    new = length (heap s) /\ heap s' = heap s ++ [nn] /\
    derived n nn 1 /\ _method nn = (if copy then _method n else None) /\
    _transform nn = default (_transform n) tr /\
    _plot nn = (_plot n || default false plot) /\
    _dmap nn = default (_dmap n) dmap /\
    _inherit_kwargs nn =
      (if copy then _inherit_kwargs n else match kw with [] => [] | _ => inh end).
Proof.
  intros Hn Hwf Hshape Hinh E.
  destruct (clone_wf _ _ _ _ _ _ _ _ _ _ _ _ _ Hn Hwf Hshape Hinh E)
    as (nn & Hnew & Hh & Hp & Ho & Hf & Hi & Ht & Hpl & Hd & Hl & Hc & Hdm & Hw & Hmr & Hme &
        Hk & Hih).
  exists nn. repeat (split; [assumption|]). split; [|auto].
  unfold derived. repeat (split; [assumption|]).
  split; [|auto]. intros Hp'. rewrite Hpl, Hp'. reflexivity.
Qed.

Lemma resolve_accessor_result s self n a s1 :
  heap s !! self = Some n -> wf_node n ->
  Interactive._resolve_accessor self s = (Ok a, s1) ->
  exists na,
    a = length (heap s) /\ length (heap s1) = S (length (heap s)) /\
    heap s1 !! a = Some na /\ derived n na 1 /\ nonempty (_method na) = None /\
    _plot na = _plot n /\ _dmap na = _dmap n /\
    exists more, dim_ops (_transform na) = dim_ops (_transform n) ++ more.
Proof.
  intros Hn Hwf E. unfold Interactive._resolve_accessor, bind at 1 in E.
  destruct (Interactive.self_node self s) as [[n0|e] s0'] eqn:E0; [|discriminate].
  apply self_node_inv in E0. destruct E0 as (Hn0 & -> & _).
  assert (n0 = n) by congruence. subst n0.
  destruct (nonempty (_method n)) as [m|] eqn:Hm.
  - unfold finally in E.
    match type of E with
    | context [match ?c s with _ => _ end] => destruct (c s) as [r1 s1'] eqn:E1
    end.
    destruct (modify_node self (set_method None) s1') as [[u|e] s2] eqn:E2; [|discriminate].
    inversion E; subst r1 s2. clear E.
    eapply clone_derived in E1; [|exact Hn|exact Hwf|right; right; split; reflexivity|].
    2:{ destruct (String.eqb m "plot"); auto. }
    destruct E1 as (nn & -> & Hh & D & Hme & Ht & Hpl & Hdm & _).
    destruct (modify_node_lookup _ _ _ _ _ E2) as [L2 _].
    exists nn. split; [reflexivity|]. split; [rewrite L2, Hh, length_app; cbn; lia|].
    split.
    + unfold modify_node in E2.
      destruct (heap s1' !! self) as [n'|]; inversion E2; subst; cbn [heap].
      rewrite list_lookup_insert_ne by (apply lookup_lt_Some in Hn; lia).
      rewrite Hh. apply list_lookup_middle. reflexivity.
    + split; [exact D|]. split; [rewrite Hme; reflexivity|].
      split; [rewrite Hpl; apply orb_false_r|]. split; [exact Hdm|].
      eexists. rewrite Ht. reflexivity.
  - eapply clone_derived in E; [|exact Hn|exact Hwf|left; split; reflexivity|left; reflexivity].
    destruct E as (nn & -> & Hh & D & Hme & Ht & Hpl & Hdm & _).
    exists nn. split; [reflexivity|]. split; [rewrite Hh, length_app; cbn; lia|].
    split; [rewrite Hh; apply list_lookup_middle; reflexivity|].
    split; [exact D|]. split; [rewrite Hme; exact Hm|].
    split; [rewrite Hpl; apply orb_false_r|]. split; [exact Hdm|].
    exists []. rewrite Ht, app_nil_r. reflexivity.
Qed.

(** A plain clone of the node that [_resolve_accessor] returned. *)
Lemma resolve_then_clone s self n a s1 tr plot dmap new s' :
  heap s !! self = Some n -> wf_node n ->
  Interactive._resolve_accessor self s = (Ok a, s1) ->
  Interactive._clone a tr plot None None dmap false [] s1 = (Ok new, s') ->
  exists na nn,
    heap s1 !! a = Some na /\ heap s' !! new = Some nn /\
    derived n nn 2 /\ _method nn = None /\
    _transform nn = default (_transform na) tr /\
    _plot nn = (_plot n || default false plot) /\ _dmap nn = default (_dmap n) dmap /\
    exists more, dim_ops (_transform na) = dim_ops (_transform n) ++ more.
Proof.
  intros Hn Hwf E1 E2.
  destruct (resolve_accessor_result _ _ _ _ _ Hn Hwf E1)
    as (na & -> & L1 & Hna & D1 & _ & Hpl1 & Hdm1 & Hext1).
  eapply clone_derived in E2;
    [|exact Hna|apply D1|right; left; split; reflexivity|left; reflexivity].
  destruct E2 as (nn & -> & Hh & D2 & Hme & Ht & Hpl & Hdm & _).
  exists na, nn. split; [exact Hna|].
  split; [rewrite Hh; apply list_lookup_middle; reflexivity|].
  split; [exact (derived_trans _ _ _ 1 1 D1 D2)|]. split; [exact Hme|].
  split; [exact Ht|]. rewrite Hpl, Hdm, Hpl1, Hdm1. auto.
Qed.

Lemma apply_operator_result s self n f args kw new s' :
  heap s !! self = Some n -> wf_node n ->
  Interactive._apply_operator self f args kw s = (Ok new, s') ->
  exists nn, heap s' !! new = Some nn /\ derived n nn 2 /\ _method nn = None /\
    exists more, dim_ops (_transform nn) = dim_ops (_transform n) ++ more.
Proof.
  intros Hn Hwf E. unfold Interactive._apply_operator, bind at 1 in E.
  destruct (Interactive._resolve_accessor self s) as [[a|e] s1] eqn:E1; [|discriminate].
  unfold bind at 1 in E.
  destruct (Interactive.self_node a s1) as [[na|e] s2] eqn:E2; [|discriminate].
  apply self_node_inv in E2. destruct E2 as (Hna & -> & _).
  destruct (resolve_then_clone _ _ _ _ _ _ _ _ _ _ Hn Hwf E1 E)
    as (na' & nn & Hna' & Hnn & D & Hme & Ht & _ & _ & (more & Hext)).
  assert (na' = na) by congruence. subst na'.
  exists nn. repeat (split; [assumption|]).
  eexists. rewrite Ht. cbn [default]. unfold dim_new. cbn [dim_ops]. rewrite Hext, <- app_assoc.
  reflexivity.
Qed.

Lemma operand_arg_inv other s a s1 :
  Interactive.operand_arg other s = (Ok a, s1) -> s1 = s.
Proof.
  destruct other as [lit|w]; cbn; [intros E; inversion E; reflexivity|].
  unfold bind. destruct (Interactive.self_node w s) as [[n|e] s2] eqn:E2; [|discriminate].
  apply self_node_inv in E2. destruct E2 as (_ & -> & _).
  intros E; inversion E; reflexivity.
Qed.

Lemma call_result s self n m args kw new s' :
  heap s !! self = Some n -> wf_node n -> _method n = Some m ->
  Interactive.__call__ self args kw s = (Ok new, s') ->
  exists nn, heap s' !! new = Some nn /\ derived n nn 2 /\ _method nn = None /\
             _plot nn = (_plot n || String.eqb m "plot") /\
             dim_ops (_transform nn) =
               dim_ops (_transform n) ++
               [Op (FAttr m) args
                   (dict_update (_inherit_kwargs n)
                      (if String.eqb m "plot" then dict_set kw "ax" AAxFn else kw))
                   false false].
Proof.
  intros Hn Hwf Hm E. unfold Interactive.__call__, bind at 1 in E.
  destruct (Interactive.self_node self s) as [[n0|e] s0'] eqn:E0; [|discriminate].
  apply self_node_inv in E0. destruct E0 as (Hn0 & -> & _).
  assert (n0 = n) by congruence. subst n0. rewrite Hm in E.
  unfold bind at 1 in E.
  destruct (Interactive._clone self None None None None None true [] s)
    as [[a|e] s1] eqn:E1; [|discriminate].
  eapply clone_derived in E1; [|exact Hn|exact Hwf|left; split; reflexivity|left; reflexivity].
  destruct E1 as (n1 & -> & Hh1 & D1 & Hme1 & Ht1 & Hpl1 & _ & Hih1).
  assert (Hn1 : heap s1 !! length (heap s) = Some n1)
    by (rewrite Hh1; apply list_lookup_middle; reflexivity).
  unfold finally in E.
  match type of E with
  | context [match ?c s1 with _ => _ end] => destruct (c s1) as [r2 s2] eqn:E2
  end.
  destruct (modify_node (length (heap s)) (set_method None) s2) as [[u|e] s3] eqn:E3;
    [|discriminate].
  inversion E; subst r2 s3. clear E.
  unfold bind at 1 in E2.
  destruct (Interactive.self_node (length (heap s)) s1) as [[n1'|e] s1'] eqn:E4; [|discriminate].
  apply self_node_inv in E4. destruct E4 as (Hn1' & -> & _).
  assert (n1' = n1) by congruence. subst n1'.
  rewrite Hme1, Hm, dim_call_accessor in E2.
  unfold bind at 1, lift in E2.
  eapply clone_derived in E2;
    [|exact Hn1|apply D1|right; left; split; reflexivity|left; reflexivity].
  destruct E2 as (nn & -> & Hh2 & D2 & Hme2 & Ht2 & Hpl2 & _).
  exists nn. split.
  - unfold modify_node in E3.
    assert (Hlen : length (heap s1) = S (length (heap s)))
      by (rewrite Hh1, length_app; cbn; lia).
    destruct (heap s2 !! length (heap s)) as [n'|]; inversion E3; subst; cbn [heap].
    rewrite list_lookup_insert_ne by lia. rewrite Hh2. apply list_lookup_middle. reflexivity.
  - split; [exact (derived_trans _ _ _ 1 1 D1 D2)|]. split; [exact Hme2|].
    split.
    + rewrite Hpl2, Hpl1. cbn [default]. rewrite orb_false_r. reflexivity.
    + rewrite Ht2, Ht1, Hih1. reflexivity.
Qed.

Lemma hvplot_call_result s self n args kind kw new s' :
  heap s !! self = Some n -> wf_node n ->
  _hvplot.__call__ self args kind kw s = (Ok new, s') ->
  exists nn kw', heap s' !! new = Some nn /\ derived n nn 2 /\ _method nn = None /\
    kw' = match nonempty kind with
          | Some k => dict_set kw "kind" (ALit (VStr k))
          | None => kw
          end /\
    _dmap nn = match dict_get kw' "kind" with
               | Some (ALit (VStr _)) => false
               | _ => true
               end /\
    exists more, dim_ops (_transform nn) = dim_ops (_transform n) ++ more.
Proof.
  intros Hn Hwf E. unfold _hvplot.__call__ in E.
  destruct (is_Some_b (nonempty kind) && dict_has kw "kind"); [discriminate|].
  unfold bind at 1 in E.
  destruct (Interactive._resolve_accessor self s) as [[a|e] s1] eqn:E1; [|discriminate].
  unfold bind at 1 in E.
  destruct (Interactive.self_node a s1) as [[na|e] s2] eqn:E2; [|discriminate].
  apply self_node_inv in E2. destruct E2 as (Hna & -> & _).
  rewrite dim_call_accessor in E. unfold bind at 1, lift in E.
  destruct (resolve_then_clone _ _ _ _ _ _ _ _ _ _ Hn Hwf E1 E)
    as (na' & nn & Hna' & Hnn & D & Hme & Ht & _ & Hdm & (more & Hext)).
  assert (na' = na) by congruence. subst na'.
  eexists nn, _. split; [exact Hnn|]. split; [exact D|]. split; [exact Hme|].
  split; [reflexivity|]. split.
  - rewrite Hdm. cbn [default].
    destruct (dict_get _ "kind") as [[[]| | | | | | |]|]; reflexivity.
  - eexists. rewrite Ht. cbn [default dim_ops]. rewrite Hext, <- app_assoc. reflexivity.
Qed.

Lemma getattribute_result s self n name new s' :
  heap s !! self = Some n -> wf_node n ->
  Interactive.__getattribute__ self name s = (Ok (DataLevel new), s') ->
  exists nn, heap s' !! new = Some nn /\ derived n nn 1 /\ _method nn = Some name /\
    exists more, dim_ops (_transform nn) = dim_ops (_transform n) ++ more.
Proof.
  intros Hn Hwf E. unfold Interactive.__getattribute__, bind at 1, get_node in E.
  rewrite Hn in E.
  destruct (_init n); cbn [negb] in E;
    [|apply object_getattribute_inv in E; destruct E; discriminate].
  unfold bind at 1, lift in E.
  destruct (Interactive.narrowed n) as [current|e]; [|discriminate].
  match type of E with
  | context [if ?c then _ else _] => destruct c
  end; [|apply object_getattribute_inv in E; destruct E; discriminate].
  unfold bind at 1 in E.
  destruct (Interactive._resolve_accessor self s) as [[a|e] s1] eqn:E1; [|discriminate].
  destruct (resolve_accessor_result _ _ _ _ _ Hn Hwf E1)
    as (na & -> & L1 & Hna & D1 & _ & _ & _ & Hext).
  unfold bind at 1, modify_node at 1 in E. rewrite Hna in E.
  set (s2 := mkState (<[length (heap s) := set_method (Some name) na]> (heap s1))
               (figures s1) (params s1)) in *.
  assert (Hn2 : heap s2 !! length (heap s) = Some (set_method (Some name) na)).
  { apply list_lookup_insert_eq. lia. }
  unfold bind at 1 in E.
  match type of E with
  | context [match ?c s2 with _ => _ end] => destruct (c s2) as [[u|e] s3] eqn:E3
  end; [|discriminate].
  inversion E; subst new s3. clear E.
  destruct (py_getattr current name) as [v|e].
  - destruct (py_getattr v "__doc__") as [d|e].
    + destruct (modify_node_lookup _ _ _ _ _ E3) as [_ Look]. specialize (Look _ Hn2).
      eexists. split; [exact Look|]. split; [exact D1|]. split; [reflexivity | exact Hext].
    + inversion E3; subst. eexists. split; [exact Hn2|]. split; [exact D1|].
      split; [reflexivity | exact Hext].
  - inversion E3; subst. eexists. split; [exact Hn2|]. split; [exact D1|].
    split; [reflexivity | exact Hext].
Qed.

(** Every recording interception. *)
Lemma intercept_result i s self n new s' :
  heap s !! self = Some n -> wf_node n -> recording i n ->
  intercept i self s = (Ok new, s') ->
  exists nn, heap s' !! new = Some nn /\ derived n nn (clones_of i) /\
             _method nn = pending_of i /\
             exists more, dim_ops (_transform nn) = dim_ops (_transform n) ++ more.
Proof.
  intros Hn Hwf Hrec E.
  destruct i as [name|args kw|f|nd|name rev other|kind args kw];
    cbn [intercept clones_of pending_of recording] in *.
  - unfold data_attr, bind in E.
    destruct (Interactive.__getattribute__ self name s) as [[[a|nm]|e] s1] eqn:E1;
      try discriminate.
    inversion E; subst. eapply getattribute_result; eauto.
  - destruct (_method n) as [m|] eqn:Hm; [|contradiction].
    destruct (call_result _ _ _ _ _ _ _ _ Hn Hwf Hm E) as (nn & ? & ? & ? & _ & Hops).
    exists nn. repeat (split; [assumption|]). eexists. exact Hops.
  - unfold Interactive.unary_operator, bind at 1 in E.
    destruct (Interactive.self_node self s) as [[n0|e] s0'] eqn:E0; [|discriminate].
    apply self_node_inv in E0. destruct E0 as (_ & -> & _).
    eapply apply_operator_result; eauto.
  - unfold Interactive.__round__, bind at 1 in E.
    destruct (Interactive.self_node self s) as [[n0|e] s0'] eqn:E0; [|discriminate].
    apply self_node_inv in E0. destruct E0 as (_ & -> & _).
    eapply apply_operator_result; eauto.
  - unfold Interactive.binary_operator, bind at 1 in E.
    destruct (Interactive.operand_arg other s) as [[a|e] s1] eqn:E1; [|discriminate].
    apply operand_arg_inv in E1. subst s1.
    unfold bind at 1 in E.
    destruct (Interactive.self_node self s) as [[n0|e] s0'] eqn:E0; [|discriminate].
    apply self_node_inv in E0. destruct E0 as (_ & -> & _).
    unfold bind at 1, lift in E.
    destruct (operator.lookup name) as [f|e]; [|discriminate].
    eapply apply_operator_result; eauto.
  - destruct (hvplot_call_result _ _ _ _ _ _ _ _ Hn Hwf E)
      as (nn & kw' & ? & ? & ? & _ & _ & Hext).
    exists nn. auto.
Qed.

End Derived.

(** ** The figure slot *)

Lemma fresh_since_refl fs : fresh_since fs fs.
Proof. left. reflexivity. Qed.

Lemma created_next fs fs' : created fs fs' -> next_fig fs < next_fig fs'.
Proof. intros (k & _ & Hlo & Hhi). lia. Qed.

Lemma fresh_since_next fs fs' : fresh_since fs fs' -> next_fig fs <= next_fig fs'.
Proof. intros [->|Hc]; [lia | apply created_next in Hc; lia]. Qed.

Lemma created_then_fresh fs1 fs2 fs3 :
  created fs1 fs2 -> fresh_since fs2 fs3 -> created fs1 fs3.
Proof.
  intros Hc [->|(k & Hk & Hlo & Hhi)]; [exact Hc|].
  apply created_next in Hc. exists k. repeat split; [exact Hk | lia | exact Hhi].
Qed.

Lemma fresh_then_created fs1 fs2 fs3 :
  fresh_since fs1 fs2 -> created fs2 fs3 -> created fs1 fs3.
Proof.
  intros Hf (k & Hk & Hlo & Hhi). apply fresh_since_next in Hf.
  exists k. repeat split; [exact Hk | lia | exact Hhi].
Qed.

Lemma fresh_since_trans fs1 fs2 fs3 :
  fresh_since fs1 fs2 -> fresh_since fs2 fs3 -> fresh_since fs1 fs3.
Proof.
  intros [->|Hc] H23; [exact H23|]. right. eapply created_then_fresh; eauto.
Qed.

Lemma get_ax_created fs r fs' : get_ax fs = (r, fs') -> created fs fs'.
Proof.
  unfold get_ax. intros E. inversion E; subst. exists (next_fig fs). cbn. auto.
Qed.

Section Figures.
Context `{PyData}.
Variable pv : nat -> string -> value.
Variable obj : value.

Lemma resolve_arg_seq xs fs :
  resolve_arg pv obj (ASeq xs) fs =
  match resolve_args pv obj xs fs with
  | (Err e, fs') => (Err e, fs')
  | (Ok vs, fs') => (Ok (VList vs), fs')
  end.
Proof. reflexivity. Qed.

Lemma resolve_arg_dict kv fs :
  resolve_arg pv obj (ADict kv) fs =
  match resolve_kwargs pv obj kv fs with
  | (Err e, fs') => (Err e, fs')
  | (Ok vs, fs') => (Ok (VDict vs), fs')
  end.
Proof. reflexivity. Qed.

Lemma resolve_arg_dim d fs : resolve_arg pv obj (ADim d) fs = apply_dim pv obj d fs.
Proof. reflexivity. Qed.

Lemma resolve_args_fresh xs :
  Forall (fun a => forall fs r fs', resolve_arg pv obj a fs = (r, fs') -> fresh_since fs fs') xs ->
  forall fs r fs', resolve_args pv obj xs fs = (r, fs') -> fresh_since fs fs'.
Proof.
  induction 1 as [|x xs Hx _ IH]; intros fs r fs' E; cbn [resolve_args] in E.
  - inversion E; subst. apply fresh_since_refl.
  - destruct (resolve_arg pv obj x fs) as [[v|e] fs1] eqn:E1.
    + destruct (resolve_args pv obj xs fs1) as [[vs|e] fs2] eqn:E2;
        inversion E; subst;
        (eapply fresh_since_trans; [eapply Hx, E1 | eapply IH, E2]).
    + inversion E; subst. eapply Hx, E1.
Qed.

Lemma resolve_kwargs_fresh kv :
  Forall (fun p => forall fs r fs', resolve_arg pv obj (snd p) fs = (r, fs') ->
                     fresh_since fs fs') kv ->
  forall fs r fs', resolve_kwargs pv obj kv fs = (r, fs') -> fresh_since fs fs'.
Proof.
  induction 1 as [|[k x] kv Hx _ IH]; intros fs r fs' E; cbn [resolve_kwargs] in E.
  - inversion E; subst. apply fresh_since_refl.
  - cbn [snd] in Hx. destruct (resolve_arg pv obj x fs) as [[v|e] fs1] eqn:E1.
    + destruct (resolve_kwargs pv obj kv fs1) as [[vs|e] fs2] eqn:E2;
        inversion E; subst;
        (eapply fresh_since_trans; [eapply Hx, E1 | eapply IH, E2]).
    + inversion E; subst. eapply Hx, E1.
Qed.

Lemma apply_ops_fresh ops :
  Forall (fun o => forall data fs r fs', apply_op pv obj o data fs = (r, fs') ->
                     fresh_since fs fs') ops ->
  forall data fs r fs', apply_ops pv obj ops data fs = (r, fs') -> fresh_since fs fs'.
Proof.
  induction 1 as [|o ops Ho _ IH]; intros data fs r fs' E; cbn [apply_ops] in E.
  - inversion E; subst. apply fresh_since_refl.
  - destruct (apply_op pv obj o data fs) as [[d|e] fs1] eqn:E1.
    + eapply fresh_since_trans; [eapply Ho, E1 | eapply IH, E].
    + inversion E; subst. eapply Ho, E1.
Qed.

(** Resolving an argument or applying an operation leaves the figure
    slot alone or puts a figure in it that did not exist before. *)
Lemma resolve_arg_fresh a :
  forall fs r fs', resolve_arg pv obj a fs = (r, fs') -> fresh_since fs fs'.
Proof.
  apply (arg_nested_ind
           (fun a => forall fs r fs', resolve_arg pv obj a fs = (r, fs') -> fresh_since fs fs')
           (fun o => forall data fs r fs', apply_op pv obj o data fs = (r, fs') ->
                       fresh_since fs fs')).
  - intros v fs r fs' E. inversion E; subst. apply fresh_since_refl.
  - intros id fs r fs' E. inversion E; subst. apply fresh_since_refl.
  - intros id fs r fs' E. inversion E; subst. apply fresh_since_refl.
  - intros name [id|id|] fs r fs' E; inversion E; subst; apply fresh_since_refl.
  - intros fs r fs' E. right. eapply get_ax_created, E.
  - intros xs Hxs fs r fs' E. rewrite resolve_arg_seq in E.
    destruct (resolve_args pv obj xs fs) as [[vs|e] fs1] eqn:E1; inversion E; subst;
      eapply resolve_args_fresh; eauto.
  - intros kv Hkv fs r fs' E. rewrite resolve_arg_dict in E.
    destruct (resolve_kwargs pv obj kv fs) as [[vs|e] fs1] eqn:E1; inversion E; subst;
      eapply resolve_kwargs_fresh; eauto.
  - intros k name ops Hops fs r fs' E. rewrite resolve_arg_dim, apply_dim_unfold in E.
    destruct (py_dataset obj name) as [data0|e].
    + eapply apply_ops_fresh; eauto.
    + inversion E; subst. apply fresh_since_refl.
  - intros f args kw rv ac Hargs Hkw data fs r fs' E. rewrite apply_op_unfold in E.
    destruct (resolve_args pv obj args fs) as [[vs|e] fs1] eqn:E1.
    + pose proof (resolve_args_fresh _ Hargs _ _ _ E1) as F1.
      destruct (resolve_kwargs pv obj kw fs1) as [[kvs|e] fs2] eqn:E2;
        inversion E; subst;
        (eapply fresh_since_trans; [exact F1 | eapply resolve_kwargs_fresh; eauto]).
    + inversion E; subst. eapply resolve_args_fresh; eauto.
Qed.

Lemma resolve_kwargs_all_fresh kv fs r fs' :
  resolve_kwargs pv obj kv fs = (r, fs') -> fresh_since fs fs'.
Proof.
  apply resolve_kwargs_fresh. apply Forall_forall. intros p _. apply resolve_arg_fresh.
Qed.

Lemma resolve_args_all_fresh xs fs r fs' :
  resolve_args pv obj xs fs = (r, fs') -> fresh_since fs fs'.
Proof.
  apply resolve_args_fresh. apply Forall_forall. intros p _. apply resolve_arg_fresh.
Qed.

Lemma apply_op_fresh o data fs r fs' :
  apply_op pv obj o data fs = (r, fs') -> fresh_since fs fs'.
Proof.
  destruct o as [f args kw rv ac]. rewrite apply_op_unfold.
  destruct (resolve_args pv obj args fs) as [[vs|e] fs1] eqn:E1.
  - pose proof (resolve_args_all_fresh _ _ _ _ E1) as F1.
    destruct (resolve_kwargs pv obj kw fs1) as [[kvs|e] fs2] eqn:E2;
      intros E; inversion E; subst;
      (eapply fresh_since_trans; [exact F1 | eapply resolve_kwargs_all_fresh; eauto]).
  - intros E; inversion E; subst. eapply resolve_args_all_fresh; eauto.
Qed.

Lemma apply_ops_all_fresh ops data fs r fs' :
  apply_ops pv obj ops data fs = (r, fs') -> fresh_since fs fs'.
Proof.
  apply apply_ops_fresh. apply Forall_forall. intros o _ d f r' f'. apply apply_op_fresh.
Qed.

(** Keyword arguments that hold the axes provider: resolving them all
    makes a figure. *)
Lemma resolve_kwargs_creates kv key fs kvs fs' :
  (key, AAxFn) ∈ kv -> resolve_kwargs pv obj kv fs = (Ok kvs, fs') -> created fs fs'.
Proof.
  revert fs kvs. induction kv as [|[k x] kv IH]; intros fs kvs Hin E.
  - apply elem_of_nil in Hin. destruct Hin.
  - cbn [resolve_kwargs] in E.
    destruct (resolve_arg pv obj x fs) as [[v|e] fs1] eqn:E1; [|discriminate].
    destruct (resolve_kwargs pv obj kv fs1) as [[vs|e] fs2] eqn:E2; [|discriminate].
    inversion E; subst. apply elem_of_cons in Hin. destruct Hin as [Heq|Hin].
    + inversion Heq; subst. cbn in E1. apply get_ax_created in E1.
      eapply created_then_fresh; [exact E1 | eapply resolve_kwargs_all_fresh, E2].
    + eapply fresh_then_created; [eapply resolve_arg_fresh, E1 | eapply IH; eauto].
Qed.

(** A transform whose last operation holds the axes provider among its
    keywords: a successful application makes a figure. *)
Lemma apply_dim_creates t before f args kw rv ac key fs v fs' :
  dim_ops t = before ++ [Op f args kw rv ac] -> (key, AAxFn) ∈ kw ->
  apply_dim pv obj t fs = (Ok v, fs') -> created fs fs'.
Proof.
  destruct t as [k name ops]. cbn [dim_ops]. intros -> Hin E.
  rewrite apply_dim_unfold in E. destruct (py_dataset obj name) as [data0|e]; [|discriminate].
  rewrite apply_ops_app in E.
  destruct (apply_ops pv obj before data0 fs) as [[d1|e] fs1] eqn:E1; [|discriminate].
  pose proof (apply_ops_all_fresh _ _ _ _ _ E1) as F1.
  cbn [apply_ops] in E. rewrite apply_op_unfold in E.
  destruct (resolve_args pv obj args fs1) as [[vs|e] fs2] eqn:E2; [|discriminate].
  pose proof (resolve_args_all_fresh _ _ _ _ E2) as F2.
  destruct (resolve_kwargs pv obj kw fs2) as [[kvs|e] fs3] eqn:E3; [|discriminate].
  pose proof (resolve_kwargs_creates _ _ _ _ _ Hin E3) as C3.
  destruct (apply_fn f rv ac d1 vs kvs) as [v'|e]; inversion E; subst.
  eapply fresh_then_created; [exact F1|]. eapply fresh_then_created; [exact F2 | exact C3].
Qed.

End Figures.

Lemma dict_get_elem {A} (d : list (string * A)) k v : dict_get d k = Some v -> (k, v) ∈ d.
Proof.
  induction d as [|[k0 v0] d IH]; cbn; [discriminate|].
  destruct (String.eqb_spec k0 k) as [->|Hne]; intros E.
  - inversion E; subst. apply elem_of_cons. auto.
  - apply elem_of_cons. right. apply IH, E.
Qed.

Lemma callback_returns_created `{PyData} st self n before f args kw rv ac key out st' :
  heap st !! self = Some n -> _plot n = true ->
  dim_ops (_transform n) = before ++ [Op f args kw rv ac] -> (key, AAxFn) ∈ kw ->
  Interactive._callback self st = (Ok out, st') ->
  exists k, out = FigureSlot (Some k) /\
            next_fig (figures st) <= k /\ k < next_fig (figures st').
Proof.
  intros Hn Hp Hops Hin E. unfold Interactive._callback, bind at 1 in E.
  destruct (Interactive.self_node self st) as [[n0|e] st0] eqn:E0; [|discriminate].
  apply self_node_inv in E0. destruct E0 as (Hn0 & -> & _).
  assert (n0 = n) by congruence. subst n0.
  unfold bind at 1, transform_apply in E. fold (live_transform n) in E.
  destruct (apply_dim (params st) (_obj n) (live_transform n) (figures st))
    as [[v|e] fs] eqn:Ea; [|discriminate].
  assert (Hc : created (figures st) fs).
  { eapply apply_dim_creates; [|exact Hin|exact Ea].
    unfold live_transform. destruct (is_xarray (_obj n) && is_xarray_dataarray (_obj n));
      [destruct (_transform n); exact Hops | exact Hops]. }
  destruct Hc as (k & Hk & Hlo & Hhi).
  unfold bind at 1 in E.
  match type of E with
  | context [match ?c ?st1 with _ => _ end] => destruct (c st1) as [[v'|e] st2] eqn:E2
  end; [|discriminate].
  assert (st2 = mkState (heap st) fs (params st)) as ->.
  { destruct (nonempty (_method n)); [|inversion E2; reflexivity].
    unfold lift in E2. inversion E2; reflexivity. }
  rewrite Hp in E. inversion E; subst. cbn [figures]. exists k. rewrite Hk. auto.
Qed.

(** X8: calling a wrapper whose pending method is [plot] adds the axes
    provider to the keywords of the recorded call and marks the result
    as a plot; whenever the callback of the result returns, what it
    returns is the figure slot, and the slot holds a figure that was
    made during that very run of the callback, not one left by an
    earlier run or by another wrapper. *)
Theorem plot_call_returns_new_figure `{PyData} (s : state) (self : addr) (n : node)
    (args : list arg) (kwargs : kwargs_t) (new : addr) (s' : state) :
  heap s !! self = Some n -> wf_node n -> _method n = Some "plot" ->
  NoDup (map fst kwargs) ->
  Interactive.__call__ self args kwargs s = (Ok new, s') ->
  exists nn kw,
    heap s' !! new = Some nn /\ _plot nn = true /\
    dim_ops (_transform nn) = dim_ops (_transform n) ++ [Op (FAttr "plot") args kw false false] /\
    dict_get kw "ax" = Some AAxFn /\
    forall st out st',
      heap st !! new = Some nn -> Interactive._callback new st = (Ok out, st') ->
      exists k, out = FigureSlot (Some k) /\
                next_fig (figures st) <= k /\ k < next_fig (figures st').
Proof.
  intros Hn Hwf Hm Hnd E.
  destruct (call_result _ _ _ _ _ _ _ _ Hn Hwf Hm E) as (nn & Hnn & _ & _ & Hpl & Hops).
  cbn [String.eqb Ascii.eqb Bool.eqb] in Hpl, Hops. rewrite orb_true_r in Hpl.
  assert (Hax : dict_get (dict_update (_inherit_kwargs n) (dict_set kwargs "ax" AAxFn)) "ax"
                = Some AAxFn).
  { apply dict_get_update_present; [apply dict_set_NoDup, Hnd | apply dict_get_set_eq]. }
  eexists nn, _. split; [exact Hnn|]. split; [exact Hpl|]. split; [exact Hops|].
  split; [exact Hax|].
  intros st out st' Hst Ecb.
  eapply callback_returns_created; [exact Hst | exact Hpl | exact Hops | | exact Ecb].
  apply dict_get_elem, Hax.
Qed.

(** ** Recorded nodes *)

(** X9: a node made by a recording interception from a well-formed
    node wraps the same object with the same driver and has the same
    widget location and centring; every display keyword of the origin
    is passed on with its value; and the node is well formed again, so
    this holds along a whole chain. *)
Theorem recorded_node_inherits `{PyData} (i : interception) (s : state) (self : addr)
    (n : node) (new : addr) (s' : state) :
  heap s !! self = Some n -> wf_node n -> recording i n ->
  intercept i self s = (Ok new, s') ->
  exists nn,
    heap s' !! new = Some nn /\ wf_node nn /\
    _obj nn = _obj n /\ _fn nn = _fn n /\
    _loc nn = _loc n /\ _center nn = _center n /\
    forall k v, dict_get (_kwargs n) k = Some v -> dict_get (_kwargs nn) k = Some v.
Proof.
  intros Hn Hwf Hrec E.
  destruct (intercept_result _ _ _ _ _ _ Hn Hwf Hrec E)
    as (nn & Hnn & (Ho & Hf & _ & _ & Hl & Hc & _ & Hw & _ & Hk) & _).
  exists nn. repeat (split; [assumption|]). exact Hk.
Qed.

(** X10: the row limit is not passed on: whatever [_max_rows] the origin
    was configured with, the node made by a recording interception has
    the default limit of 100 ([_clone] does not hand [max_rows] to the
    constructor). *)
Theorem row_limit_is_not_inherited `{PyData} (i : interception) (s : state) (self : addr)
    (n : node) (new : addr) (s' : state) :
  heap s !! self = Some n -> wf_node n -> recording i n ->
  intercept i self s = (Ok new, s') ->
  exists nn, heap s' !! new = Some nn /\ _max_rows nn = ALit (VInt 100).
Proof.
  intros Hn Hwf Hrec E.
  destruct (intercept_result _ _ _ _ _ _ Hn Hwf Hrec E)
    as (nn & Hnn & (_ & _ & _ & _ & _ & _ & _ & _ & Hmr & _) & _).
  exists nn. split; assumption.
Qed.

(** X11: an attribute access makes a node one level deeper that holds
    the name as its pending method; every other recording interception
    makes a node two levels deeper with no pending method.  The plot
    flag, once set, stays set.  A node without pending method made this
    way is never at depth 0, so calling it raises [AttributeError] and
    touches nothing: [w.A.max()()] cannot be written. *)
Theorem recorded_node_is_deeper `{PyData} (i : interception) (s : state) (self : addr)
    (n : node) (new : addr) (s' : state) :
  heap s !! self = Some n -> wf_node n -> recording i n ->
  intercept i self s = (Ok new, s') ->
  exists nn,
    heap s' !! new = Some nn /\
    _depth nn = _depth n + clones_of i /\ _method nn = pending_of i /\
    (_plot n = true -> _plot nn = true) /\
    (pending_of i = None -> forall args kwargs,
       Interactive.__call__ new args kwargs s' = (Err (AttributeError ""), s')).
Proof.
  intros Hn Hwf Hrec E.
  destruct (intercept_result _ _ _ _ _ _ Hn Hwf Hrec E)
    as (nn & Hnn & (_ & _ & Hi & Hd & _ & _ & Hp & _) & Hm & _).
  exists nn. repeat (split; [assumption|]).
  intros Hnone args kwargs. rewrite Hnone in Hm.
  assert (Hc : is_ok (Interactive.narrowed nn) = true).
  { unfold Interactive.narrowed. rewrite Hm. reflexivity. }
  unfold Interactive.__call__, bind at 1. rewrite (self_node_ok _ _ _ Hnn Hi Hc), Hm, Hd.
  destruct i; cbn [clones_of pending_of] in *; try discriminate;
    (destruct (Nat.eqb_spec (_depth n + 2) 0); [lia | reflexivity]).
Qed.

(** X12: a call of the plotting accessor decides how the result is
    displayed, whatever the origin's own [dmap] option: the result is
    displayed as a HoloViews DynamicMap unless the keywords (with the
    bound kind, if any) give [kind] as a string, in which case it is
    displayed as a Panel object made with the node's display
    keywords. *)
Theorem plotting_call_decides_output `{PyData} (s : state) (self : addr) (n : node)
    (args : list arg) (kind : option string) (kwargs : kwargs_t) (new : addr)
    (s' : state) :
  heap s !! self = Some n -> wf_node n ->
  _hvplot.__call__ self args kind kwargs s = (Ok new, s') ->
  exists nn,
    heap s' !! new = Some nn /\
    _dmap nn =
      match dict_get (match nonempty kind with
                      | Some k => dict_set kwargs "kind" (ALit (VStr k))
                      | None => kwargs
                      end) "kind" with
      | Some (ALit (VStr _)) => false
      | _ => true
      end /\
    Display.output new s' =
      (Ok (if _dmap nn then Display.DynamicMap new else Display.Panel new (_kwargs nn)), s').
Proof.
  intros Hn Hwf E.
  destruct (hvplot_call_result _ _ _ _ _ _ _ _ Hn Hwf E)
    as (nn & kw' & Hnn & (_ & _ & Hi & _) & Hm & -> & Hd & _).
  exists nn. split; [exact Hnn|]. split; [exact Hd|].
  assert (Hc : is_ok (Interactive.narrowed nn) = true).
  { unfold Interactive.narrowed. rewrite Hm. reflexivity. }
  rewrite (output_ok _ _ _ Hnn Hi Hc). reflexivity.
Qed.

(** ** The driver *)

(** X13: when a dependency of the driver fires, [_update_obj] puts the
    driver's new value in [_obj] of that node and changes nothing else.
    From then on the callback applies the transform to the new object,
    while [eval] goes on returning the value cached at construction. *)
Theorem source_update_reaches_callback_not_eval `{PyData} (s : state) (self : addr)
    (n : node) (fn : driver) (o : value) :
  heap s !! self = Some n -> _init n = true ->
  is_ok (Interactive.narrowed n) = true ->
  _fn n = Some fn -> drv_eval fn (params s) = Ok o ->
  exists s1,
    Interactive._update_obj self s = (Ok tt, s1) /\
    heap s1 = <[self := set_obj o n]> (heap s) /\
    figures s1 = figures s /\ params s1 = params s /\
    Interactive.eval self s1 = (Interactive.narrowed n, s1) /\
    Interactive.eval self s = (Interactive.narrowed n, s) /\
    Interactive._callback self s1 =
      match apply_dim (params s) o (live_transform (set_obj o n)) (figures s) with
      | (Err e, fs) => (Err e, mkState (heap s1) fs (params s))
      | (Ok v, fs) => (present n fs v, mkState (heap s1) fs (params s))
      end.
Proof.
  intros Hn Hi Hc Hf Hd.
  eexists. split; [apply (update_obj_replaces_source _ _ _ _ _ Hn Hf Hd)|].
  cbn [heap figures params].
  assert (Hn1 : <[self := set_obj o n]> (heap s) !! self = Some (set_obj o n)).
  { apply list_lookup_insert_eq. eapply lookup_lt_Some, Hn. }
  split; [reflexivity|]. split; [reflexivity|]. split; [reflexivity|].
  split; [|split].
  - rewrite (eval_unfold _ self (set_obj o n)); [reflexivity | exact Hn1 | exact Hi].
  - apply eval_unfold; assumption.
  - rewrite (callback_unfold _ self (set_obj o n)); [reflexivity | exact Hn1 | exact Hi | exact Hc].
Qed.


(** ** Evaluation *)


(** X16: a binary operator or an indexing whose right operand is
    another wrapper over the same object with no pending method (as in
    [w[w.A > 1]]): the operand's transform is evaluated on the same
    data, and [eval] of the result is the operator applied to the two
    values. *)
Theorem wrapper_operand_on_same_data `{PyData} (obj : value) (s : state) (w : addr)
    (v : value) (w2 : addr) (v2 : value) (f : operator.t) (v' : value) :
  tracks obj s w v -> shape obj s w2 v2 None ->
  py_operator f [v; v2] = Ok v' ->
  exists s' w',
    Interactive.binary_operator (Ok f) false w (Wrapper w2) s = (Ok w', s') /\
    Interactive.eval w' s' = (Ok v', s').
Proof.
  intros Ht Hs Hop.
  destruct (wrapper_operand_eval _ _ _ _ _ _ _ _ Ht Hs Hop) as (s' & w' & E & _ & Hev).
  exists s', w'. split; assumption.
Qed.

(** ** Configuring the root *)

Lemma dict_has_rest (kw : kwargs_t) k :
  ~ In k clone_param_names ->
  dict_has (fold_left dict_del clone_param_names kw) k = dict_has kw k.
Proof.
  intros Hk. cbn [fold_left clone_param_names]. rewrite !dict_has_del.
  repeat match goal with
         | |- context [String.eqb ?a k] =>
             destruct (String.eqb_spec a k); [exfalso; apply Hk; subst; cbn; tauto|]
         end.
  reflexivity.
Qed.

(** X17: the root call cannot set what [_clone] itself passes to the
    constructor: with no positional argument and none of the options of
    [_clone] among the keywords, a call of a root wrapper whose keywords
    name [obj], [fn] or [depth] raises [TypeError] (the constructor gets
    the keyword twice) and changes nothing. *)
Theorem root_call_rejects_constructor_keywords `{PyData} (s : state) (self : addr)
    (n : node) (kwargs : kwargs_t) (k : string) :
  heap s !! self = Some n -> _init n = true -> _method n = None -> _depth n = 0 ->
  forallb (fun p => negb (dict_has kwargs p)) clone_param_names = true ->
  In k ["obj"; "fn"; "depth"] -> dict_has kwargs k = true ->
  Interactive.__call__ self [] kwargs s =
  (Err (TypeError "got multiple values for keyword argument"), s).
Proof.
  intros Hn Hi Hm Hd Hfree Hk Hhas.
  assert (Hc : is_ok (Interactive.narrowed n) = true).
  { unfold Interactive.narrowed. rewrite Hm. reflexivity. }
  assert (Hnone : forall p, In p clone_param_names -> dict_get kwargs p = None).
  { intros p Hp. rewrite forallb_forall in Hfree. specialize (Hfree p Hp).
    apply dict_has_false_get. destruct (dict_has kwargs p); [discriminate | reflexivity]. }
  unfold Interactive.__call__, bind at 1. rewrite (self_node_ok _ _ _ Hn Hi Hc), Hm, Hd.
  cbn [Nat.eqb]. unfold Interactive._clone_star, bind at 1, lift.
  change (bind_positional clone_param_names [] kwargs) with (Ok kwargs). cbv beta iota.
  rewrite !Hnone by (cbn; tauto). unfold bind at 1, ret. cbn [fmap option_fmap option_map].
  unfold Interactive._clone, bind at 1. rewrite (self_node_ok _ _ _ Hn Hi Hc).
  unfold bind at 1, ret. unfold Interactive.construct.
  match goal with
  | |- context [existsb ?f explicit_init_names] =>
      assert (He : existsb f explicit_init_names = true)
  end.
  { apply existsb_exists. exists k. split.
    - cbn in Hk. unfold explicit_init_names. cbn. tauto.
    - rewrite !dict_has_update, dict_has_rest, Hhas; [rewrite !orb_true_r; reflexivity|].
      cbn in Hk. cbn. intros Hin.
      destruct Hk as [<-|[<-|[<-|[]]]];
        repeat (destruct Hin as [Hin|Hin]; [discriminate|]); destruct Hin. }
  rewrite He. reflexivity.
Qed.

(** ** The widgets of a recorded node *)

Lemma add_widgets_prefix l ws : exists extra, add_widgets l ws = ws ++ extra.
Proof.
  revert ws. induction l as [|w l IH]; intros ws; cbn.
  - exists []. rewrite app_nil_r. reflexivity.
  - change (exists extra, add_widgets l (add_widget w ws) = ws ++ extra).
    unfold add_widget. destruct (decide (w ∈ ws)); [apply IH|].
    destruct (IH (ws ++ [w])) as [extra E]. exists ([w] ++ extra).
    rewrite E, <- app_assoc. reflexivity.
Qed.

Lemma fold_find_widgets_prefix ipy ops ws :
  exists extra,
    fold_left (fun ws o => add_widgets (_find_widgets ipy o) ws) ops ws = ws ++ extra.
Proof.
  revert ws. induction ops as [|o ops IH]; intros ws; cbn [fold_left].
  - exists []. rewrite app_nil_r. reflexivity.
  - destruct (add_widgets_prefix (_find_widgets ipy o) ws) as [e1 E1]. rewrite E1.
    destruct (IH (ws ++ e1)) as [e2 E2]. exists (e1 ++ e2).
    rewrite E2, <- app_assoc. reflexivity.
Qed.

(** X18: recording never loses a widget: the widgets of a node made by
    a recording interception begin with the widgets of its origin, in
    the same order, followed by those that the new operation brings. *)
Theorem recorded_node_keeps_widgets `{PyData} (ipy : bool) (i : interception) (s : state)
    (self : addr) (n : node) (new : addr) (s' : state) :
  heap s !! self = Some n -> wf_node n -> recording i n ->
  intercept i self s = (Ok new, s') ->
  exists nn brought,
    heap s' !! new = Some nn /\
    widgets_of ipy nn = widgets_of ipy n ++ brought.
Proof.
  intros Hn Hwf Hrec E.
  destruct (intercept_result _ _ _ _ _ _ Hn Hwf Hrec E)
    as (nn & Hnn & (_ & Hf & _) & _ & (more & Hops)).
  assert (Hw : exists brought, widgets_of ipy nn = widgets_of ipy n ++ brought).
  { unfold widgets_of, Interactive._fn_params. rewrite Hops, Hf, fold_left_app.
    apply fold_find_widgets_prefix. }
  destruct Hw as [brought Hb]. exists nn, brought. split; [exact Hnn | exact Hb].
Qed.

(** ** The callback and [eval] *)

(** X19: on a wrapper whose recorded expression evaluates to [v] (no
    widget or axes provider involved, display keywords empty), as long
    as the source is the one it was constructed over and is not a
    DataArray, the callback shows what [eval] returns: [eval] returns
    [v], and the callback returns [v] itself, or, when [v] is a
    DataFrame, the pane over [v] with the node's row limit; neither
    changes the state. *)
Theorem callback_shows_what_eval_returns `{PyData} (obj : value) (s : state) (w : addr)
    (v : value) (n : node) :
  tracks obj s w v -> is_xarray_dataarray obj = false ->
  heap s !! w = Some n -> _plot n = false ->
  Interactive.eval w s = (Ok v, s) /\
  Interactive._callback w s =
    (Ok (if is_dataframe v then DataFramePane v (_max_rows n) [] else Raw v), s).
Proof.
  intros Ht Hx Hn Hp.
  destruct (tracks_self_node _ _ _ _ Ht) as (n' & Hn' & Hi & Hc & _).
  assert (n' = n) by congruence. subst n'.
  assert (Hc' : is_ok (Interactive.narrowed n) = true) by (rewrite Hc; reflexivity).
  split; [rewrite (eval_unfold _ _ _ Hn Hi), Hc; reflexivity|].
  destruct Ht as (c & m & (n' & Hn2 & _ & Ho & Hk & _ & Ha & Hcur & Hm) & Hpend).
  assert (n' = n) by congruence. subst n'.
  rewrite (callback_unfold _ _ _ Hn Hi Hc').
  assert (live_transform n = _transform n) as ->.
  { unfold live_transform. rewrite Ho, Hx, andb_false_r. reflexivity. }
  rewrite Ho, Ha. unfold present. rewrite Hp, Hk.
  assert (Hg : match nonempty (_method n) with
               | Some m0 => getattr3 c m0 c
               | None => Ok c
               end = Ok v).
  { unfold Interactive.narrowed in Hc. rewrite Hcur in Hc.
    destruct (nonempty (_method n)) as [m0|]; [|exact Hc].
    unfold getattr3. rewrite Hc. reflexivity. }
  rewrite Hg. destruct s; reflexivity.
Qed.

(** ** Instances of the statements above *)

Lemma wf_plain n : _kwargs n = [] -> _inherit_kwargs n = [] -> wf_node n.
Proof.
  intros Hk Hi. unfold wf_node. rewrite Hk, Hi.
  repeat split; [apply NoDup_nil_2 | left; reflexivity].
Qed.

(** The layout of [w]: widgets at the top left. *)
Lemma layout_places_widgets_and_output_witness :
  heap Example.s_w !! 0 = Some Example.n_w /\ In "top_left" layout_locs /\
  exists objects,
    Display.layout false 0 [] Example.s_w =
      (Ok (inr (Display.Row objects [])), Example.s_w) /\
    leaves (Display.Row objects []) =
      [Display.WidgetBox []; Display.Output (Display.Panel 0 [])].
Proof.
  assert (Hn : heap Example.s_w !! 0 = Some Example.n_w) by (vm_compute; reflexivity).
  assert (Hi : _init Example.n_w = true) by reflexivity.
  assert (Hc : is_ok (Interactive.narrowed Example.n_w) = true) by reflexivity.
  assert (Hl : _loc Example.n_w = ALit (VStr "top_left")) by reflexivity.
  assert (Hin : In "top_left" layout_locs) by (simpl; tauto).
  split; [exact Hn|]. split; [exact Hin|].
  exact (layout_places_widgets_and_output false Example.s_w 0 Example.n_w "top_left" []
           Hn Hi Hc Hl Hin).
Defined.

(** [w(loc='center').layout()] *)
Lemma layout_unknown_loc_witness :
  heap Cases.s_center !! 1 = Some Cases.n_center /\
  loc_in (_loc Cases.n_center) layout_locs = false /\
  Display.layout false 1 [] Cases.s_center =
    (Ok (inl (Display.UnboundLocalError "widgets")), Cases.s_center).
Proof.
  assert (Hn : heap Cases.s_center !! 1 = Some Cases.n_center) by (vm_compute; reflexivity).
  assert (Hi : _init Cases.n_center = true) by reflexivity.
  assert (Hc : is_ok (Interactive.narrowed Cases.n_center) = true) by reflexivity.
  assert (Hl : loc_in (_loc Cases.n_center) layout_locs = false) by reflexivity.
  split; [exact Hn|]. split; [exact Hl|].
  exact (proj1 (layout_unknown_loc false Cases.s_center 1 Cases.n_center [] Hn Hi Hc) Hl).
Defined.




(** [w.A] keeps the location of [w]. *)
Lemma recorded_node_inherits_witness :
  heap Example.s_w !! 0 = Some Example.n_w /\ wf_node Example.n_w /\
  intercept (GetAttr "A") 0 Example.s_w = (Ok 1, Example.s_a) /\
  exists nn, heap Example.s_a !! 1 = Some nn /\ wf_node nn /\
             _loc nn = ALit (VStr "top_left").
Proof.
  assert (Hn : heap Example.s_w !! 0 = Some Example.n_w) by (vm_compute; reflexivity).
  assert (Hw : wf_node Example.n_w) by (apply wf_plain; reflexivity).
  assert (E : intercept (GetAttr "A") 0 Example.s_w = (Ok 1, Example.s_a))
    by (vm_compute; reflexivity).
  split; [exact Hn|]. split; [exact Hw|]. split; [exact E|].
  destruct (recorded_node_inherits (GetAttr "A") Example.s_w 0 Example.n_w 1 Example.s_a
              Hn Hw I E) as (nn & Hnn & Hwn & _ & _ & Hl & _).
  exists nn. split; [exact Hnn|]. split; [exact Hwn | exact Hl].
Defined.

(** [w(max_rows=5)['A']] has the default limit again. *)
Lemma row_limit_is_not_inherited_witness :
  heap Cases.s_rows !! 1 = Some Cases.n_rows /\
  _max_rows Cases.n_rows = ALit (VInt 5) /\
  exists nn,
    heap (snd (intercept (Binary "getitem" false (Literal (ALit (VStr "A")))) 1
                 Cases.s_rows)) !! 3 = Some nn /\
    _max_rows nn = ALit (VInt 100).
Proof.
  assert (Hn : heap Cases.s_rows !! 1 = Some Cases.n_rows) by (vm_compute; reflexivity).
  assert (Hw : wf_node Cases.n_rows) by (apply wf_plain; reflexivity).
  assert (E : intercept (Binary "getitem" false (Literal (ALit (VStr "A")))) 1 Cases.s_rows =
              (Ok 3, snd (intercept (Binary "getitem" false (Literal (ALit (VStr "A")))) 1
                            Cases.s_rows)))
    by (vm_compute; reflexivity).
  split; [exact Hn|]. split; [reflexivity|].
  exact (row_limit_is_not_inherited (Binary "getitem" false (Literal (ALit (VStr "A"))))
           Cases.s_rows 1 Cases.n_rows 3 _ Hn Hw I E).
Defined.

(** [(w.A > 1)()] raises. *)
Lemma recorded_node_is_deeper_witness :
  heap Example.s_a !! 1 = Some Example.n_a /\
  intercept (Binary "gt" false (Example.lit 1)) 1 Example.s_a = (Ok 3, Cases.s_mask) /\
  Interactive.__call__ 3 [] [] Cases.s_mask = (Err (AttributeError ""), Cases.s_mask).
Proof.
  assert (Hn : heap Example.s_a !! 1 = Some Example.n_a) by (vm_compute; reflexivity).
  assert (Hw : wf_node Example.n_a) by (apply wf_plain; reflexivity).
  assert (E : intercept (Binary "gt" false (Example.lit 1)) 1 Example.s_a = (Ok 3, Cases.s_mask))
    by (vm_compute; reflexivity).
  split; [exact Hn|]. split; [exact E|].
  destruct (recorded_node_is_deeper (Binary "gt" false (Example.lit 1)) Example.s_a 1
              Example.n_a 3 Cases.s_mask Hn Hw I E)
    as (nn & _ & _ & _ & _ & Hcall).
  exact (Hcall eq_refl [] []).
Defined.

(** [w.hvplot()] without a kind is displayed as a DynamicMap. *)
Lemma plotting_call_decides_output_witness :
  heap Example.s_w !! 0 = Some Example.n_w /\
  fst (_hvplot.__call__ 0 [] None [] Example.s_w) = Ok 2 /\
  fst (Display.output 2 (snd (_hvplot.__call__ 0 [] None [] Example.s_w))) =
    Ok (Display.DynamicMap 2).
Proof.
  assert (Hn : heap Example.s_w !! 0 = Some Example.n_w) by (vm_compute; reflexivity).
  assert (Hw : wf_node Example.n_w) by (apply wf_plain; reflexivity).
  assert (E : _hvplot.__call__ 0 [] None [] Example.s_w =
              (Ok 2, snd (_hvplot.__call__ 0 [] None [] Example.s_w)))
    by (vm_compute; reflexivity).
  split; [exact Hn|]. split; [vm_compute; reflexivity|].
  destruct (plotting_call_decides_output Example.s_w 0 Example.n_w [] None [] 2 _ Hn Hw E)
    as (nn & _ & Hd & Ho).
  rewrite Ho. cbn [nonempty dict_get] in Hd. rewrite Hd. reflexivity.
Defined.

(** [w.plot()]: the callback returns the figure it has just made. *)
Lemma plot_call_returns_new_figure_witness :
  heap Cases.s_plot !! 1 = Some Cases.n_plot /\ _method Cases.n_plot = Some "plot" /\
  fst (Interactive.__call__ 1 [] [] Cases.s_plot) = Ok 3 /\
  exists k,
    fst (Interactive._callback 3 (snd (Interactive.__call__ 1 [] [] Cases.s_plot))) =
      Ok (FigureSlot (Some k)) /\
    next_fig (figures (snd (Interactive.__call__ 1 [] [] Cases.s_plot))) <= k.
Proof.
  assert (Hn : heap Cases.s_plot !! 1 = Some Cases.n_plot) by (vm_compute; reflexivity).
  assert (Hw : wf_node Cases.n_plot) by (apply wf_plain; reflexivity).
  assert (Hm : _method Cases.n_plot = Some "plot") by reflexivity.
  assert (Hnd : NoDup (map fst ([] : kwargs_t))) by apply NoDup_nil_2.
  assert (E : Interactive.__call__ 1 [] [] Cases.s_plot =
              (Ok 3, snd (Interactive.__call__ 1 [] [] Cases.s_plot)))
    by (vm_compute; reflexivity).
  split; [exact Hn|]. split; [exact Hm|]. split; [vm_compute; reflexivity|].
  destruct (plot_call_returns_new_figure Cases.s_plot 1 Cases.n_plot [] [] 3 _ Hn Hw Hm Hnd E)
    as (nn & kw & Hnn & _ & _ & _ & Hcb).
  assert (Ecb : Interactive._callback 3 (snd (Interactive.__call__ 1 [] [] Cases.s_plot)) =
                (Ok (FigureSlot (Some 1)),
                 snd (Interactive._callback 3
                        (snd (Interactive.__call__ 1 [] [] Cases.s_plot)))))
    by (vm_compute; reflexivity).
  destruct (Hcb _ _ _ Hnn Ecb) as (k & Hk & Hlo & _).
  exists k. split; [|exact Hlo]. rewrite Ecb. cbn [fst]. rewrite Hk. reflexivity.
Defined.

(** The slider moved to 5: the callback shows the new frame, [eval] the
    old one. *)
Lemma source_update_reaches_callback_not_eval_witness :
  heap Cases.s_slider !! 0 = Some Cases.n_slider /\
  drv_eval Cases.slider (params Cases.s_slider) = Ok (VFrame [("A", [VInt 5])]) /\
  exists s1,
    Interactive._update_obj 0 Cases.s_slider = (Ok tt, s1) /\
    fst (Interactive.eval 0 s1) = Ok (VFrame [("A", [VNone])]) /\
    fst (Interactive._callback 0 s1) =
      Ok (DataFramePane (VFrame [("A", [VInt 5])]) (ALit (VInt 100)) []).
Proof.
  assert (Hn : heap Cases.s_slider !! 0 = Some Cases.n_slider) by reflexivity.
  assert (Hi : _init Cases.n_slider = true) by reflexivity.
  assert (Hc : is_ok (Interactive.narrowed Cases.n_slider) = true) by reflexivity.
  assert (Hf : _fn Cases.n_slider = Some Cases.slider) by reflexivity.
  assert (Hd : drv_eval Cases.slider (params Cases.s_slider) = Ok (VFrame [("A", [VInt 5])]))
    by reflexivity.
  split; [exact Hn|]. split; [exact Hd|].
  destruct (source_update_reaches_callback_not_eval Cases.s_slider 0 Cases.n_slider
              Cases.slider (VFrame [("A", [VInt 5])]) Hn Hi Hc Hf Hd)
    as (s1 & E & _ & _ & _ & Hev & _ & Hcb).
  exists s1. split; [exact E|]. split.
  - rewrite Hev. reflexivity.
  - rewrite Hcb. reflexivity.
Defined.



(** [w[w.A > 1].eval()] *)
Lemma wrapper_operand_on_same_data_witness :
  py_operator operator.getitem
    [Pandas.df; VSeries [VBool false; VBool true; VBool true]] =
    Ok (VFrame [("A", [VInt 2; VInt 3]); ("B", [VInt 5; VInt 6])]) /\
  exists s' w',
    Interactive.binary_operator (Ok operator.getitem) false 0 (Wrapper 3) Cases.s_mask
      = (Ok w', s') /\
    Interactive.eval w' s' =
      (Ok (VFrame [("A", [VInt 2; VInt 3]); ("B", [VInt 5; VInt 6])]), s').
Proof.
  assert (Hop : py_operator operator.getitem
                  [Pandas.df; VSeries [VBool false; VBool true; VBool true]] =
                Ok (VFrame [("A", [VInt 2; VInt 3]); ("B", [VInt 5; VInt 6])]))
    by reflexivity.
  assert (Hw : tracks Pandas.df Cases.s_mask 0 Pandas.df).
  { exists Pandas.df, None. split; [|reflexivity].
    exists Example.n_w. split; [vm_compute; reflexivity|].
    repeat split. }
  assert (Hm : shape Pandas.df Cases.s_mask 3
                 (VSeries [VBool false; VBool true; VBool true]) None).
  { eexists. split; [vm_compute; reflexivity|]. repeat split. }
  split; [exact Hop|].
  exact (wrapper_operand_on_same_data Pandas.df Cases.s_mask 0 Pandas.df 3 _
           operator.getitem _ Hw Hm Hop).
Defined.

(** [w(depth=3)] *)
Lemma root_call_rejects_constructor_keywords_witness :
  heap Example.s_w !! 0 = Some Example.n_w /\
  dict_has [("depth", ALit (VInt 3))] "depth" = true /\
  Interactive.__call__ 0 [] [("depth", ALit (VInt 3))] Example.s_w =
    (Err (TypeError "got multiple values for keyword argument"), Example.s_w).
Proof.
  assert (Hn : heap Example.s_w !! 0 = Some Example.n_w) by (vm_compute; reflexivity).
  assert (Hi : _init Example.n_w = true) by reflexivity.
  assert (Hm : _method Example.n_w = None) by reflexivity.
  assert (Hd : _depth Example.n_w = 0) by reflexivity.
  assert (Hfree : forallb (fun p => negb (dict_has [("depth", ALit (VInt 3))] p))
                    clone_param_names = true) by reflexivity.
  assert (Hk : In "depth" ["obj"; "fn"; "depth"]) by (simpl; tauto).
  assert (Hhas : dict_has [("depth", ALit (VInt 3))] "depth" = true) by reflexivity.
  split; [exact Hn|]. split; [exact Hhas|].
  exact (root_call_rejects_constructor_keywords Example.s_w 0 Example.n_w
           [("depth", ALit (VInt 3))] "depth" Hn Hi Hm Hd Hfree Hk Hhas).
Defined.

(** [w.A] has the widgets of [w]. *)
Lemma recorded_node_keeps_widgets_witness :
  heap Example.s_w !! 0 = Some Example.n_w /\
  intercept (GetAttr "A") 0 Example.s_w = (Ok 1, Example.s_a) /\
  exists nn brought,
    heap Example.s_a !! 1 = Some nn /\
    widgets_of true nn = widgets_of true Example.n_w ++ brought.
Proof.
  assert (Hn : heap Example.s_w !! 0 = Some Example.n_w) by (vm_compute; reflexivity).
  assert (Hw : wf_node Example.n_w) by (apply wf_plain; reflexivity).
  assert (E : intercept (GetAttr "A") 0 Example.s_w = (Ok 1, Example.s_a))
    by (vm_compute; reflexivity).
  split; [exact Hn|]. split; [exact E|].
  exact (recorded_node_keeps_widgets true (GetAttr "A") Example.s_w 0 Example.n_w 1
           Example.s_a Hn Hw I E).
Defined.

(** The callback of [a = w.A] returns the column, as [a.eval()] does. *)
Lemma callback_shows_what_eval_returns_witness :
  heap Example.s_a !! 1 = Some Example.n_a /\
  Interactive.eval 1 Example.s_a = (Ok (VSeries [VInt 1; VInt 2; VInt 3]), Example.s_a) /\
  Interactive._callback 1 Example.s_a =
    (Ok (Raw (VSeries [VInt 1; VInt 2; VInt 3])), Example.s_a).
Proof.
  assert (Hn : heap Example.s_a !! 1 = Some Example.n_a) by (vm_compute; reflexivity).
  assert (Ht : tracks Pandas.df Example.s_a 1 (VSeries [VInt 1; VInt 2; VInt 3])).
  { exists Pandas.df, (Some "A"). split.
    - exists Example.n_a. split; [exact Hn|]. repeat split.
    - repeat split; discriminate. }
  assert (Hx : is_xarray_dataarray Pandas.df = false) by reflexivity.
  assert (Hp : _plot Example.n_a = false) by reflexivity.
  split; [exact Hn|].
  exact (callback_shows_what_eval_returns Pandas.df Example.s_a 1 _ Example.n_a Ht Hx Hn Hp).
Defined.
